(** * fealpy: the reduced divergence-free non-conforming virtual element space
      and the scalar mass integrator

    A shallow embedding of
    [fealpy/functionspace/ReducedDivFreeNonConformingVirtualElementSpace2d.py]
    and [fealpy/fem/scalar_mass_integrator.py], and the properties of their
    degree-of-freedom bookkeeping, assembly and error behaviour. *)

From Stdlib Require Import Ascii.
From stdpp Require Import base numbers list strings pretty gmap.

Set Default Proof Using "Type".

(** * Python: exceptions, sequence indexing, name resolution *)

Module Py.

(** The exception classes the two modules can raise. *)
Inductive exn :=
| IndexError | ValueError | NameError | AttributeError
| TypeError | KeyError | LinAlgError | SystemError.

(** A call either returns a value or raises. *)
Inductive result (A : Type) :=
| Ok (a : A)
| Raise (e : exn).
Arguments Ok {A} a.
Arguments Raise {A} e.

#[export] Instance result_ret : MRet result := fun A a => Ok a.
#[export] Instance result_bind : MBind result := fun A B f r =>
  match r with Ok a => f a | Raise e => Raise e end.
#[export] Instance result_fmap : FMap result := fun A B f r =>
  match r with Ok a => Ok (f a) | Raise e => Raise e end.

Definition raises {A} (r : result A) : Prop := exists e, r = Raise e.

(** [list(map(f, xs))]: the calls are made left to right and the first
    exception ends the loop. *)
Fixpoint map_list {A B} (f : A -> result B) (xs : list A) : result (list B) :=
  match xs with
  | [] => Ok []
  | x :: xs' => y ← f x; ys ← map_list f xs'; Ok (y :: ys)
  end.

(** A [for] loop threading a state. *)
Fixpoint for_each {A S} (f : S -> A -> result S) (s : S) (xs : list A) : result S :=
  match xs with
  | [] => Ok s
  | x :: xs' => s' ← f s x; for_each f s' xs'
  end.

(** An index into a sequence of length [n]: [-n <= i < n], the negative
    ones counted from the end. *)
Definition index (n : nat) (i : Z) : result nat :=
  if bool_decide (0 ≤ i < Z.of_nat n)%Z then Ok (Z.to_nat i)
  else if bool_decide (- Z.of_nat n ≤ i < 0)%Z then Ok (Z.to_nat (Z.of_nat n + i))
  else Raise IndexError.

Definition getitem {A} (l : list A) (i : Z) : result A :=
  k ← index (length l) i;
  match l !! k with Some x => Ok x | None => Raise IndexError end.

(** A slice bound is clamped, never an error. *)
Definition clamp (n : nat) (i : Z) : nat :=
  if bool_decide (i < 0)%Z then Z.to_nat (Z.of_nat n + i) else Nat.min n (Z.to_nat i).

Definition slice {A} (l : list A) (a b : Z) : list A :=
  let a' := clamp (length l) a in
  let b' := clamp (length l) b in
  take (b' - a') (drop a' l).

(** [range(n)] *)
Definition range (n : nat) : list nat := seq 0 n.

(** A name is looked up in the bindings in scope when it is evaluated: the
    local variables assigned so far, those of the enclosing functions, the
    module globals. *)
Definition load_name {A} (scope : list (string * A)) (x : string) : result A :=
  match list_find (fun b => fst b = x) scope with
  | Some (_, (_, v)) => Ok v
  | None => Raise NameError
  end.

(** [obj.x] for an object whose instance dictionary and class have the
    given attribute names. *)
Definition getattr (attributes : list string) (x : string) : result unit :=
  if bool_decide (x ∈ attributes) then Ok () else Raise AttributeError.

(** A string object.  [x is 'lit'] compares identities, not texts: it
    holds of the one object a literal denotes (CPython keeps a single
    object for every string constant that is an identifier; a string can
    also be made that object with [sys.intern]), and of no other string,
    whatever its text.  [str_interned x] says that [x] is that object. *)
Record str := Str {
  str_text : string;
  str_interned : bool
}.

(** [x is 'lit'] *)
Definition is_literal (x : str) (lit : string) : bool :=
  str_interned x && bool_decide (str_text x = lit).

End Py.
Export Py.

(** * The polygon mesh, as the space reads it *)

(** The arrays of the mesh collaborator.  [edge_to_cell] has one row per edge,
    [(c0, c1, j0, j1)]: the two incident cells and the local index of the edge
    in each; [number_of_edges_of_cells] and [cell_to_edge] have one entry per
    cell; [boundary_edge_flag] is a boolean array. *)
Record PolygonMesh := {
  edge_to_cell : list (Z * Z * Z * Z);
  number_of_edges_of_cells : list nat;
  cell_to_edge : list (list nat);
  boundary_edge_flag : list bool
}.

Definition number_of_edges (mesh : PolygonMesh) : nat := length (edge_to_cell mesh).
Definition number_of_cells (mesh : PolygonMesh) : nat := length (number_of_edges_of_cells mesh).

(** ** numpy on integer and boolean vectors *)

Module NpInt.

(** [np.add.accumulate] *)
Fixpoint accumulate_from (acc : Z) (l : list Z) : list Z :=
  match l with
  | [] => []
  | x :: l' => (acc + x)%Z :: accumulate_from (acc + x) l'
  end.
Definition accumulate (l : list Z) : list Z := accumulate_from 0 l.

(** [np.zeros(n, dtype=np.int)]; a negative length is refused. *)
Definition zeros (n : Z) : result (list Z) :=
  if bool_decide (n < 0)%Z then Raise ValueError else Ok (replicate (Z.to_nat n) 0%Z).

(** [a[idx] = vals] with an integer index array: elementwise, in row-major
    order, a later assignment to the same position winning; an index out of
    bounds raises. *)
Definition setitem {A} (a : list A) (idx : list Z) (vals : list A) : result (list A) :=
  for_each (fun a '(i, v) => k ← index (length a) i; Ok (<[k := v]> a)) a (zip idx vals).

(** [a[mask]] along the first axis with a boolean mask. *)
Definition getitem_mask {A} (a : list A) (mask : list bool) : result (list A) :=
  if bool_decide (length mask = length a)
  then Ok (omap (fun '(b, x) => if b : bool then Some x else None) (zip mask a))
  else Raise IndexError.

End NpInt.

(** * The dof manager [RDFNCVEMDof2d] *)

Module RDFNCVEMDof2d.

Record t := {
  p : nat;
  mesh : PolygonMesh
}.

(** [np.arange(NE*p).reshape(NE, p)] *)
Definition edge_to_dof (self : t) : list (list Z) :=
  let NE := number_of_edges (mesh self) in
  map (fun e => map (fun k => Z.of_nat (e * p self + k)) (seq 0 (p self))) (seq 0 NE).

Definition number_of_global_dofs (self : t) : nat :=
  let NE := number_of_edges (mesh self) in
  NE * p self.

Definition number_of_local_dofs (self : t) : list Z :=
  let NCE := number_of_edges_of_cells (mesh self) in
  map (fun n => Z.of_nat (n * p self)) NCE.

(** [cell2dofLocation[edge2cell[:, [col]]] + edge2cell[:, [loc]]*p + np.arange(p)],
    one row per edge. *)
Definition slot_index (self : t) (cell2dofLocation : list Z)
    (side : Z * Z * Z * Z -> Z * Z) : result (list (list Z)) :=
  map_list (fun r =>
      let '(c, j) := side r in
      l ← getitem cell2dofLocation c;
      Ok (map (fun k => (l + j * Z.of_nat (p self) + Z.of_nat k)%Z) (seq 0 (p self))))
    (edge_to_cell (mesh self)).

Definition side0 (r : Z * Z * Z * Z) : Z * Z := let '(c0, c1, j0, j1) := r in (c0, j0).
Definition side1 (r : Z * Z * Z * Z) : Z * Z := let '(c0, c1, j0, j1) := r in (c1, j1).

Definition cell_to_dof (self : t) : result (list Z * list Z) :=
  let ldof := number_of_local_dofs self in
  let cell2dofLocation := 0%Z :: NpInt.accumulate ldof in
  last_loc ← getitem cell2dofLocation (-1);
  cell2dof ← NpInt.zeros last_loc;
  let edge2dof := edge_to_dof self in
  idx ← slot_index self cell2dofLocation side0;
  cell2dof ← NpInt.setitem cell2dof (concat idx) (concat edge2dof);
  idx ← slot_index self cell2dofLocation side1;
  cell2dof ← NpInt.setitem cell2dof (concat idx) (concat edge2dof);
  Ok (cell2dof, cell2dofLocation).

Definition boundary_dof (self : t) : result (list bool) :=
  let gdof := number_of_global_dofs self in
  let isBdDof := replicate gdof false in
  let edge2dof := edge_to_dof self in
  let isBdEdge := boundary_edge_flag (mesh self) in
  idx ← NpInt.getitem_mask edge2dof isBdEdge;
  NpInt.setitem isBdDof (concat idx) (replicate (length (concat idx)) true).

End RDFNCVEMDof2d.

(** ** Consistency of the mesh topology

    The edge at local position [j] of cell [c], read from [cell_to_edge]. *)
Definition slot_edge (mesh : PolygonMesh) (c j : Z) : option nat :=
  if bool_decide (0 ≤ c ∧ 0 ≤ j)%Z
  then es ← cell_to_edge mesh !! Z.to_nat c; es !! Z.to_nat j
  else None.

(** Edge [e] lists cell [c] at local position [j], as its cell 0 or its cell 1. *)
Definition claims (mesh : PolygonMesh) (e c j : nat) : bool :=
  match edge_to_cell mesh !! e with
  | Some (c0, c1, j0, j1) =>
      bool_decide ((c0 = Z.of_nat c ∧ j0 = Z.of_nat j) ∨ (c1 = Z.of_nat c ∧ j1 = Z.of_nat j))
  | None => false
  end.

(** [edge_to_cell] and [cell_to_edge] describe the same incidence: every cell
    has as many edges as [number_of_edges_of_cells] says, every edge is found
    in each of its two cells at the local position its row names, and every
    edge of a cell names that cell and position in its row. *)
Definition mesh_consistent (mesh : PolygonMesh) : bool :=
  bool_decide (map length (cell_to_edge mesh) = number_of_edges_of_cells mesh)
  && forallb (fun '(e, (c0, c1, j0, j1)) =>
                bool_decide (slot_edge mesh c0 j0 = Some e)
                && bool_decide (slot_edge mesh c1 j1 = Some e))
             (imap pair (edge_to_cell mesh))
  && forallb (fun '(c, es) => forallb (fun '(j, e) => claims mesh e c j) (imap pair es))
             (imap pair (cell_to_edge mesh)).

(** The unit square cut along a diagonal into two triangles: five edges, edge 2
    shared by the two cells. *)
Definition two_triangles : PolygonMesh := {|
  edge_to_cell := [(0, 0, 0, 0); (0, 0, 1, 1); (0, 1, 2, 0); (1, 1, 1, 1); (1, 1, 2, 2)]%Z;
  number_of_edges_of_cells := [3; 3];
  cell_to_edge := [[0; 1; 2]; [2; 3; 4]];
  boundary_edge_flag := [true; true; false; true; true]
|}.

(** A single triangle: three boundary edges. *)
Definition one_triangle : PolygonMesh := {|
  edge_to_cell := [(0, 0, 0, 0); (0, 0, 1, 1); (0, 0, 2, 2)]%Z;
  number_of_edges_of_cells := [3];
  cell_to_edge := [[0; 1; 2]];
  boundary_edge_flag := [true; true; true]
|}.

(** * numpy arrays of floats *)

(** The scalars of a float array and the operations the assemblers use on
    them.  No algebraic law is assumed of them. *)
Class Scalar (F : Type) := {
  fzero : F;
  fone : F;
  fadd : F -> F -> F;
  fmul : F -> F -> F
}.

(** Integers as scalars, to evaluate the definitions on examples. *)
#[export] Instance Z_scalar : Scalar Z :=
  {| fzero := 0%Z; fone := 1%Z; fadd := Z.add; fmul := Z.mul |}.

Module Np.
Section ndarray.
Context {F : Type} `{Scalar F}.

(** An array: its shape and its entries in row-major order. *)
Record ndarray := NDArray {
  shape : list nat;
  data : list F
}.

Definition ndim (a : ndarray) : nat := length (shape a).

(** The multi-indices of a shape, in row-major order. *)
Fixpoint indices (sh : list nat) : list (list nat) :=
  match sh with
  | [] => [[]]
  | n :: sh' => i ← seq 0 n; cons i <$> indices sh'
  end.

Fixpoint ravel (sh idx : list nat) : nat :=
  match sh, idx with
  | n :: sh', i :: idx' => i * foldr Nat.mul 1 sh' + ravel sh' idx'
  | _, _ => 0
  end.

Definition get (a : ndarray) (idx : list nat) : F :=
  default fzero (data a !! ravel (shape a) idx).

Definition build (sh : list nat) (f : list nat -> F) : ndarray :=
  NDArray sh (f <$> indices sh).

(** [np.zeros(shape)] *)
Definition zeros (sh : list nat) : ndarray := build sh (fun _ => fzero).

(** [len(a)] *)
Definition len (a : ndarray) : result nat :=
  match shape a with
  | [] => Raise TypeError
  | n :: _ => Ok n
  end.

(** [c * a] for a scalar [c] *)
Definition scale (c : F) (a : ndarray) : ndarray :=
  NDArray (shape a) (fmul c <$> data a).

(** ** Broadcasting *)

(** Shape [from] broadcasts to shape [to]: aligned at the last axis, every
    axis of [from] has the length of the axis of [to] or length 1. *)
Fixpoint broadcastable_rev (from to : list nat) : bool :=
  match from, to with
  | [], _ => true
  | _ :: _, [] => false
  | m :: from', n :: to' =>
      (bool_decide (m = n) || bool_decide (m = 1)) && broadcastable_rev from' to'
  end.

Definition broadcastable (from to : list nat) : bool :=
  broadcastable_rev (reverse from) (reverse to).

(** The index into an array of shape [from] that the index [idx] of the
    broadcast array reads. *)
Definition broadcast_index (from : list nat) (idx : list nat) : list nat :=
  zip_with (fun m i => if bool_decide (m = 1) then 0 else i)
           from (drop (length idx - length from) idx).

(** [np.broadcast_to(a, shape)] *)
Definition broadcast_to (a : ndarray) (sh : list nat) : result ndarray :=
  if broadcastable (shape a) sh
  then Ok (build sh (fun idx => get a (broadcast_index (shape a) idx)))
  else Raise ValueError.

(** [a += b]: [b] is broadcast to the shape of [a], which does not change. *)
Definition iadd (a b : ndarray) : result ndarray :=
  b' ← broadcast_to b (shape a);
  Ok (NDArray (shape a) (zip_with fadd (data a) (data b'))).

(** ** [np.einsum], explicit form [in1,in2,...->out] *)

Definition strip (s : string) : list Ascii.ascii :=
  filter (fun c => c ≠ " "%char) (String.list_ascii_of_string s).

(** The text before and after the arrow. *)
Fixpoint split_arrow (cs : list Ascii.ascii) : option (list Ascii.ascii * list Ascii.ascii) :=
  match cs with
  | [] => None
  | c :: cs' =>
      match cs' with
      | d :: out =>
          if bool_decide (c = "-"%char ∧ d = ">"%char) then Some ([], out)
          else '(ins, out) ← split_arrow cs'; Some (c :: ins, out)
      | [] => None
      end
  end.

(** The comma-separated terms. *)
Fixpoint split_commas (cs : list Ascii.ascii) : list (list Ascii.ascii) :=
  match cs with
  | [] => [[]]
  | c :: cs' =>
      if bool_decide (c = ","%char) then [] :: split_commas cs'
      else match split_commas cs' with
           | t :: ts => (c :: t) :: ts
           | [] => [[c]]
           end
  end.

(** The lengths of the axes labelled [l], over all operands. *)
Definition label_dims (terms : list (list Ascii.ascii)) (operands : list ndarray)
    (l : Ascii.ascii) : list nat :=
  '(t, a) ← zip terms operands;
  '(l', n) ← zip t (shape a);
  if bool_decide (l' = l) then [n] else [].

(** The length of the label: that of its first axis whose length is not
    1; every axis of the label has it, or length 1. *)
Definition label_size (terms : list (list Ascii.ascii)) (operands : list ndarray)
    (l : Ascii.ascii) : result nat :=
  let dims := label_dims terms operands l in
  let n := default 1 (head (filter (fun d => d ≠ 1) dims)) in
  if forallb (fun d => bool_decide (d = n) || bool_decide (d = 1)) dims
  then Ok n else Raise ValueError.

(** The value bound to label [l]. *)
Definition lookup_label (env : list (Ascii.ascii * nat)) (l : Ascii.ascii) : nat :=
  match list_find (fun b => fst b = l) env with
  | Some (_, (_, n)) => n
  | None => 0
  end.

Definition operand_entry (env : list (Ascii.ascii * nat)) (t : list Ascii.ascii) (a : ndarray) : F :=
  get a (zip_with (fun l n => if bool_decide (n = 1) then 0 else lookup_label env l)
                  t (shape a)).

Definition einsum (subscripts : string) (operands : list ndarray) : result ndarray :=
  match split_arrow (strip subscripts) with
  | None => Raise ValueError
  | Some (ins, out) =>
      let terms := split_commas ins in
      if negb (bool_decide (length terms = length operands)) then Raise ValueError
      else if negb (forallb (fun '(t, a) => bool_decide (length t = ndim a))
                            (zip terms operands)) then Raise ValueError
      else
        let labels := remove_dups (concat terms) in
        if negb (bool_decide (NoDup out ∧ out ⊆ labels)) then Raise ValueError
        else
          let summed := filter (fun l => l ∉ out) labels in
          out_sizes ← map_list (label_size terms operands) out;
          sum_sizes ← map_list (label_size terms operands) summed;
          Ok (build out_sizes (fun oidx =>
                foldl fadd fzero
                  ((fun sidx =>
                      let env := zip out oidx ++ zip summed sidx in
                      foldl fmul fone (zip_with (operand_entry env) terms operands))
                   <$> indices sum_sizes)))
  end.

End ndarray.
Arguments ndarray F : clear implicits.
End Np.

(** * The store of the arrays a caller shares with a callee *)

Module Store.
Section store.
Context {F : Type} `{Scalar F}.

(** A reference is a position in the store. *)
Definition ref := nat.
Definition store := list (Np.ndarray F).

(** A new array: its reference is not one of the store. *)
Definition alloc (h : store) (a : Np.ndarray F) : ref * store := (length h, h ++ [a]).

(** [M += v], on the array [M] refers to.  (A reference the caller holds is
    always one of the store.) *)
Definition iadd_at (h : store) (M : ref) (v : Np.ndarray F) : result store :=
  match h !! M with
  | Some a => a' ← Np.iadd a v; Ok (<[M := a']> h)
  | None => Raise SystemError
  end.

End store.
End Store.

(** * [ScalarMassIntegrator] *)

Module ScalarMassIntegrator.
Section integrator.
Context {F : Type} `{Scalar F}.
Import Np Store.

(** What a coefficient is once evaluated: a scalar ([np.isscalar]), an
    [ndarray], or another object, which has no [shape] (a list, a tuple, a
    function). *)
Inductive value :=
| Number (c : F)
| Array (a : ndarray F)
| Object.

(** The argument [c]: absent, a value that is not callable, or a
    callable.  Of a callable the model keeps its [coordtype] attribute, if
    it has one, what the callable object itself is to [np.isscalar] and
    [isinstance(coef, np.ndarray)] (an ordinary function is neither; an
    instance of a subclass of [ndarray] with a [__call__] is an array), and
    what it returns at the quadrature points ([coef(ps)]), at the
    barycentric points ([coef(bcs, index=index)]) and interpolated in the
    coefficient space ([coefspace.interpolate(coef)[coefspace.cell_to_dof()]]). *)
Inductive coefficient :=
| CoefNone
| Value (v : value)
| Callable (coordtype : option string) (itself : value)
           (at_points at_bcs interpolated : result value).

Record t := {
  coef : coefficient;
  q : option nat;
  type : string
}.

Definition init (c : coefficient) (q : option nat) : t :=
  {| coef := c; q := q; type := "BL3" |}.

(** The function space and its mesh, as the integrator reads them. *)
Record FunctionSpace := {
  p : nat;
  btype : string;
  number_of_local_dofs : nat;
  mesh_meshtype : string;                 (* [space.mesh.meshtype] *)
  mesh_type : string;                     (* [space.mesh.type] *)
  mesh_number_of_cells : nat;
  mesh_entity_measure : ndarray F;        (* [mesh.entity_measure('cell', index=index)] *)
  quadrature_weights : nat -> ndarray F;  (* [ws] of [mesh.integrator(q, 'cell')] *)
  basis : nat -> ndarray F                (* [space.basis(bcs, index=index)], [bcs] of that rule *)
}.

Definition cell_measure (space : FunctionSpace) (cellmeasure : option (ndarray F))
    : result (ndarray F) :=
  match cellmeasure with
  | None =>
      if bool_decide (mesh_meshtype space = "UniformMesh2d") then
        let NC := mesh_number_of_cells space in
        broadcast_to (mesh_entity_measure space) [NC]
      else Ok (mesh_entity_measure space)
  | Some cm => Ok cm
  end.

(** [if callable(coef): ...] of [assembly_cell_matrix] *)
Definition evaluate (coef : coefficient) : result value :=
  match coef with
  | CoefNone => Ok Object
  | Value v => Ok v
  | Callable (Some coordtype) itself at_points at_bcs _ =>
      if bool_decide (coordtype = "cartesian") then at_points
      else if bool_decide (coordtype = "barycentric") then at_bcs
      else
        (* [coef] is still the callable *)
        Ok itself
  | Callable None _ at_points _ _ => at_points
  end.

Definition assembly_cell_matrix (self : t) (space : FunctionSpace)
    (cellmeasure : option (ndarray F)) (out : option ref) (h : store)
    : result (option ref * store) :=
  let q := match q self with Some q => q | None => p space + 1 end in
  let coef := coef self in
  cellmeasure ← cell_measure space cellmeasure;
  NC ← len cellmeasure;
  let ldof := number_of_local_dofs space in
  let '(M, h) := match out with
                 | None => alloc h (zeros [NC; ldof; ldof])
                 | Some out => (out, h)
                 end in
  let ws := quadrature_weights space q in
  let phi0 := basis space q in
  h ← match coef with
      | CoefNone =>
          v ← einsum "q, qci, qcj, c -> cij" [ws; phi0; phi0; cellmeasure];
          iadd_at h M v
      | _ =>
          coef ← evaluate coef;
          match coef with
          | Number c =>
              v ← einsum "q, qci, qcj, c->cij" [ws; phi0; phi0; cellmeasure];
              iadd_at h M (scale c v)
          | Array coef =>
              if bool_decide (shape coef = [NC]) then
                v ← einsum "q, c, qci, qcj, c -> cij" [ws; coef; phi0; phi0; cellmeasure];
                iadd_at h M v
              else
                v ← einsum "q, qc, qci, qcj, c -> cij" [ws; coef; phi0; phi0; cellmeasure];
                iadd_at h M v
          | Object => Raise ValueError
          end
      end;
  match out with
  | None => Ok (Some M, h)
  | Some _ => Ok (None, h)
  end.

(** [if callable(coef): ...] of [assembly_cell_matrix_fast] *)
Definition interpolate (coef : coefficient) : result value :=
  match coef with
  | CoefNone => Ok Object
  | Value v => Ok v
  | Callable _ _ _ _ interpolated => interpolated
  end.

(** [data[dataindex]], the table of [fealpy.fem.precomp_data] *)
Definition lookup_data (data : gmap string (ndarray F)) (dataindex : string)
    : result (ndarray F) :=
  match data !! dataindex with
  | Some d => Ok d
  | None => Raise KeyError
  end.

Definition assembly_cell_matrix_fast (data : gmap string (ndarray F))
    (self : t) (space : FunctionSpace)
    (trialspace testspace coefspace : option FunctionSpace)
    (cellmeasure : option (ndarray F)) (out : option ref) (h : store)
    : result (option ref * store) :=
  let coef := coef self in
  let meshtype := mesh_type space in
  let '(TAFtype, TAFdegree, TAFldof) :=
    match trialspace with
    | None => (btype space, p space, number_of_local_dofs space)
    | Some trialspace => (btype trialspace, p trialspace, number_of_local_dofs trialspace)
    end in
  let '(TSFtype, TSFdegree, TSFldof) :=
    match testspace with
    | None => (TAFtype, TAFdegree, TAFldof)
    | Some testspace => (btype testspace, p testspace, number_of_local_dofs testspace)
    end in
  let '(COFtype, COFdegree, COFldof) :=
    match coefspace with
    | None => (TSFtype, TSFdegree, TSFldof)
    | Some coefspace => (btype coefspace, p coefspace, number_of_local_dofs coefspace)
    end in
  let Itype := type self in
  let dataindex := Itype +:+ "_" +:+ meshtype +:+ "_TAF_" +:+ TAFtype +:+ "_"
                   +:+ pretty TAFdegree +:+ "_TSF_" +:+ TSFtype +:+ "_" +:+ pretty TSFdegree in
  cellmeasure ← cell_measure space cellmeasure;
  NC ← len cellmeasure;
  let '(M, h) := match out with
                 | None => alloc h (zeros [NC; TSFldof; TAFldof])
                 | Some out => (out, h)
                 end in
  h ← match coef with
      | CoefNone =>
          d ← lookup_data data dataindex;
          v ← einsum "c, cij -> cij" [cellmeasure; d];
          iadd_at h M v
      | _ =>
          coef ← interpolate coef;
          match coef with
          | Number c =>
              d ← lookup_data data dataindex;
              v ← einsum "c, aij -> cij" [cellmeasure; d];
              iadd_at h M (scale c v)
          | Array coef =>
              if bool_decide (shape coef = [NC; COFldof]) then
                let dataindex := dataindex +:+ "_COF_" +:+ COFtype +:+ "_" +:+ pretty COFdegree in
                d ← lookup_data data dataindex;
                v ← einsum "c, ijk, ck -> cij" [cellmeasure; d; coef];
                iadd_at h M v
              else if bool_decide (shape coef = [NC]) then
                d ← lookup_data data dataindex;
                v ← einsum "c, aij, c -> cij" [cellmeasure; d; coef];
                iadd_at h M v
              else Raise ValueError
          | Object => Raise AttributeError
          end
      end;
  match out with
  | None => Ok (Some M, h)
  | Some _ => Ok (None, h)
  end.

End integrator.
Arguments value F : clear implicits.
Arguments coefficient F : clear implicits.
Arguments t F : clear implicits.
Arguments FunctionSpace F : clear implicits.
End ScalarMassIntegrator.


(** ** The array a call adds to [M]

    The right-hand side of the [M += ...] that the call reaches, or the
    exception raised before it. *)
Module MassIncrement.
Section increment.
Context {F : Type} `{Scalar F}.
Import Np Store ScalarMassIntegrator.

Definition standard (self : t F) (space : FunctionSpace F)
    (cellmeasure : ndarray F) (NC : nat) : result (ndarray F) :=
  let q := match q self with Some q => q | None => p space + 1 end in
  let ws := quadrature_weights space q in
  let phi0 := basis space q in
  match coef self with
  | CoefNone => einsum "q, qci, qcj, c -> cij" [ws; phi0; phi0; cellmeasure]
  | c =>
      c ← evaluate c;
      match c with
      | Number c => scale c <$> einsum "q, qci, qcj, c->cij" [ws; phi0; phi0; cellmeasure]
      | Array a =>
          if bool_decide (shape a = [NC])
          then einsum "q, c, qci, qcj, c -> cij" [ws; a; phi0; phi0; cellmeasure]
          else einsum "q, qc, qci, qcj, c -> cij" [ws; a; phi0; phi0; cellmeasure]
      | Object => Raise ValueError
      end
  end.

(** The shape of the array [assembly_cell_matrix_fast] allocates and the
    key and local dof count of its coefficient space. *)
Definition fast_spaces (self : t F) (space : FunctionSpace F)
    (trialspace testspace coefspace : option (FunctionSpace F))
    : string * nat * nat * (string * nat * nat) :=
  let trial := default space trialspace in
  let test := default trial testspace in
  let cof := default test coefspace in
  (type self +:+ "_" +:+ mesh_type space +:+ "_TAF_" +:+ btype trial +:+ "_"
     +:+ pretty (p trial) +:+ "_TSF_" +:+ btype test +:+ "_" +:+ pretty (p test),
   number_of_local_dofs test, number_of_local_dofs trial,
   (btype cof, p cof, number_of_local_dofs cof)).

Definition fast (data : gmap string (ndarray F)) (self : t F) (space : FunctionSpace F)
    (trialspace testspace coefspace : option (FunctionSpace F))
    (cellmeasure : ndarray F) (NC : nat) : result (ndarray F) :=
  let '(dataindex, _, _, (COFtype, COFdegree, COFldof)) :=
    fast_spaces self space trialspace testspace coefspace in
  match coef self with
  | CoefNone => d ← lookup_data data dataindex; einsum "c, cij -> cij" [cellmeasure; d]
  | c =>
      c ← interpolate c;
      match c with
      | Number c =>
          d ← lookup_data data dataindex;
          scale c <$> einsum "c, aij -> cij" [cellmeasure; d]
      | Array a =>
          if bool_decide (shape a = [NC; COFldof]) then
            d ← lookup_data data
                  (dataindex +:+ "_COF_" +:+ COFtype +:+ "_" +:+ pretty COFdegree);
            einsum "c, ijk, ck -> cij" [cellmeasure; d; a]
          else if bool_decide (shape a = [NC]) then
            d ← lookup_data data dataindex;
            einsum "c, aij, c -> cij" [cellmeasure; d; a]
          else Raise ValueError
      | Object => Raise AttributeError
      end
  end.

End increment.
End MassIncrement.

(** ** An example space for the integrator

    Two cells of measure 1 and 2, two local dofs, a quadrature rule of three
    points with weights 1, and a basis whose values are 1 and 2. *)
Definition example_space : ScalarMassIntegrator.FunctionSpace Z := {|
  ScalarMassIntegrator.p := 1;
  ScalarMassIntegrator.btype := "Lagrange";
  ScalarMassIntegrator.number_of_local_dofs := 2;
  ScalarMassIntegrator.mesh_meshtype := "tri";
  ScalarMassIntegrator.mesh_type := "TriangleMesh";
  ScalarMassIntegrator.mesh_number_of_cells := 2;
  ScalarMassIntegrator.mesh_entity_measure := Np.NDArray [2] [1; 2]%Z;
  ScalarMassIntegrator.quadrature_weights := fun _ => Np.NDArray [3] [1; 1; 1]%Z;
  ScalarMassIntegrator.basis := fun _ =>
    Np.NDArray [3; 2; 2] [1; 2; 1; 2; 1; 2; 1; 2; 1; 2; 1; 2]%Z
|}.


(** The precomputed table, with the one entry the example looks up. *)
Definition example_data : gmap string (Np.ndarray Z) :=
  {[ "BL3_TriangleMesh_TAF_Lagrange_1_TSF_Lagrange_1" := Np.NDArray [1; 2; 2] [2; 1; 1; 2]%Z ]}.

(** An array of ones, of the shape of the cell matrices of the example. *)
Definition example_ones : Np.ndarray Z := Np.NDArray [2; 2; 2] [1; 1; 1; 1; 1; 1; 1; 1]%Z.


(** * scipy sparse matrices *)

Module Sparse.
Section sparse.
Context {F : Type} `{Scalar F}.

Record matrix := Matrix {
  rows : nat;
  cols : nat;
  entries : gmap (nat * nat) F
}.

(** One triplet added to the entries: a value at a position already
    present is summed with the one there. *)
Definition add_entry (shape : nat * nat) (m : gmap (nat * nat) F)
    (t : F * (Z * Z)) : result (gmap (nat * nat) F) :=
  let '(v, (i, j)) := t in
  if bool_decide (0 ≤ i < Z.of_nat shape.1 ∧ 0 ≤ j < Z.of_nat shape.2)%Z then
    let k := (Z.to_nat i, Z.to_nat j) in
    Ok (<[k := match m !! k with Some w => fadd w v | None => v end]> m)
  else Raise ValueError.

(** [csr_matrix((data, (I, J)), shape=shape)] and [coo_matrix] likewise:
    the three arrays have one length, the indices lie in the shape, and
    entries at one position are summed. *)
Definition from_triplets (data : list F) (I J : list Z) (shape : nat * nat)
    : result matrix :=
  if negb (bool_decide (length data = length I ∧ length I = length J)) then Raise ValueError
  else
    m ← for_each (add_entry shape) ∅ (zip data (zip I J));
    Ok (Matrix shape.1 shape.2 m).

(** [bmat([[A, B, ...]], format='csr')]: the blocks side by side. *)
Fixpoint bmat_row (blocks : list matrix) : result matrix :=
  match blocks with
  | [] => Raise ValueError
  | [A] => Ok A
  | A :: rest =>
      B ← bmat_row rest;
      if bool_decide (rows A = rows B) then
        Ok (Matrix (rows A) (cols A + cols B)
              (entries A ∪ kmap (fun '(i, j) => (i, cols A + j)) (entries B)))
      else Raise ValueError
  end.

End sparse.
Arguments matrix F : clear implicits.
End Sparse.

(** * numpy on integer index arrays, continued *)

Module NpIndex.

(** [np.concatenate(arrays)]: at least one array is needed. *)
Definition concatenate {A} (arrays : list (list A)) : result (list A) :=
  match arrays with
  | [] => Raise ValueError
  | _ => Ok (concat arrays)
  end.

(** [np.meshgrid(x, y)]: two arrays of [len(y)] rows and [len(x)] columns,
    the first repeating [x] along the rows, the second [y] along the
    columns; each given by its [.flat]. *)
Definition meshgrid {A} (x y : list A) : list A * list A :=
  (concat (replicate (length y) x), b ← y; replicate (length x) b).

(** [np.arange(a, b)] *)
Definition arange (a b : Z) : list Z :=
  map (fun k => (a + Z.of_nat k)%Z) (seq 0 (Z.to_nat (b - a))).

End NpIndex.


(** * numpy float arrays: allocation and indexing by Python integers *)

Module NpArray.
Section array.
Context {F : Type} `{Scalar F}.
Import Np.

(** [np.zeros(shape)]; a negative length is refused. *)
Definition zeros (sh : list Z) : result (ndarray F) :=
  if existsb (fun n => bool_decide (n < 0)%Z) sh then Raise ValueError
  else Ok (Np.zeros (Z.to_nat <$> sh)).

(** [a[i]]: the [i]-th sub-array along the first axis. *)
Definition item (a : ndarray F) (i : Z) : result (ndarray F) :=
  match shape a with
  | [] => Raise IndexError
  | n :: sh => k ← index n i; Ok (build sh (fun idx => get a (k :: idx)))
  end.

(** An index expression of [n] entries needs an array of at least [n] axes. *)
Definition check_indices (a : ndarray F) (n : nat) : result unit :=
  if bool_decide (n ≤ ndim a) then Ok () else Raise IndexError.

(** The value of an assignment [a[...] = v] is broadcast to the shape
    [sh] of the target, once the leading axes of length 1 that the target
    does not have are dropped. *)
Fixpoint strip_ones (k : nat) (sh : list nat) : list nat :=
  match k, sh with
  | S k', 1 :: sh' => strip_ones k' sh'
  | _, _ => sh
  end.

Definition assign_value (v : ndarray F) (sh : list nat) : result (ndarray F) :=
  broadcast_to (NDArray (strip_ones (ndim v - length sh) (shape v)) (data v)) sh.

(** [a[idx] = v] for an array [idx] of integers, of shape [ish], that
    indexes the first axis of [a]: [v] is broadcast to the shape of
    [a[idx]], which is [ish] followed by the other axes of [a]; every index
    is one of the first axis, a negative one counted from its end; then row
    [idx[j]] of [a] receives row [j] of the value, entry by entry and in the
    order of [idx], so that the last assignment to a row is the one that
    stays. *)
Definition setitem_rows (a : ndarray F) (ish : list nat) (idx : list Z) (v : ndarray F)
    : result (ndarray F) :=
  match shape a with
  | [] => Raise IndexError
  | n :: rest =>
      v ← assign_value v (ish ++ rest);
      rows ← map_list (index n) idx;
      let w := foldr Nat.mul 1 rest in
      Ok (NDArray (shape a)
            (foldl (fun d '(j, r) =>
                      foldl (fun d t => match data v !! (j * w + t) with
                                        | Some x => <[r * w + t := x]> d
                                        | None => d
                                        end)
                            d (seq 0 w))
                   (data a) (imap pair rows)))
  end.

(** [a[idx]] for an array [idx] of integers, of one axis: the rows of [a]
    that [idx] names, in its order. *)
Definition take_rows (a : ndarray F) (idx : list Z) : result (ndarray F) :=
  match shape a with
  | [] => Raise IndexError
  | n :: rest =>
      rows ← map_list (index n) idx;
      Ok (build (length rows :: rest)
            (fun i => match i with
                      | j :: i' => get a (default 0 (rows !! j) :: i')
                      | [] => fzero
                      end))
  end.

(** [a[lo:hi]]: the rows from [lo] up to, and without, [hi], the bounds
    clamped. *)
Definition getitem_slice (a : ndarray F) (lo hi : Z) : result (ndarray F) :=
  match shape a with
  | [] => Raise IndexError
  | n :: rest =>
      let start := clamp n lo in
      let stop := clamp n hi in
      Ok (build ((stop - start) :: rest)
            (fun i => match i with
                      | j :: i' => get a ((start + j) :: i')
                      | [] => fzero
                      end))
  end.

(** [a[lo:hi] = v]: [v] is broadcast to the shape of [a[lo:hi]] and
    written over these rows. *)
Definition setitem_slice (a : ndarray F) (lo hi : Z) (v : ndarray F)
    : result (ndarray F) :=
  match shape a with
  | [] => Raise IndexError
  | n :: rest =>
      let start := clamp n lo in
      let stop := clamp n hi in
      v ← assign_value v ((stop - start) :: rest);
      let w := foldr Nat.mul 1 rest in
      Ok (NDArray (shape a)
            (take (start * w) (data a) ++ data v
               ++ drop (start * w + length (data v)) (data a)))
  end.

(** [a.T]: the axes in reverse order. *)
Definition transpose (a : ndarray F) : ndarray F :=
  build (reverse (shape a)) (fun idx => get a (reverse idx)).

(** [a.flat], as the value of an assignment: the entries in row-major
    order, on one axis. *)
Definition flat (a : ndarray F) : ndarray F :=
  NDArray [length (data a)] (data a).

(** [np.r_[a, b, ...]] of arrays: each is given one axis if it has none,
    then they are joined along the first axis, which needs them to agree
    in the other axes. *)
Definition r_ (arrays : list (ndarray F)) : result (ndarray F) :=
  let arrays := (fun a => match shape a with
                          | [] => NDArray [1] (data a)
                          | _ => a
                          end) <$> arrays in
  match arrays with
  | [] => Ok (NDArray [0] [])
  | a :: _ =>
      if forallb (fun b => bool_decide (tail (shape b) = tail (shape a))) arrays
      then Ok (NDArray (foldr Nat.add 0 ((fun b => default 0 (head (shape b))) <$> arrays)
                          :: tail (shape a))
                 (concat (data <$> arrays)))
      else Raise ValueError
  end.

End array.
End NpArray.

(** * The space [ReducedDivFreeNonConformingVirtualElementSpace2d] *)

Module ReducedDivFreeNonConformingVirtualElementSpace2d.
Section space.
Context {F : Type} `{Scalar F} {Forcing : Type}.
Import Np.

(** ** What the space does not compute itself

    The values of the numpy expressions (array arithmetic, slicing and fancy
    indexing, [inv], [@], [block]) and of the collaborators' methods (the
    mesh geometry, the quadrature rule, the bases and integrals of the
    scaled monomial space) are those of an evaluator [call], which is given
    the source text of the expression and the values of its operands, and
    may raise.  [einsum], the allocation of arrays, the indexing of Python
    lists, name and attribute lookup, the index arrays and the assembly of
    sparse matrices are computed here. *)
Inductive operand :=
| Arr (a : ndarray F)
| Int (n : Z)
| Ints (l : list Z)
| Bools (l : list bool)
| Fun (f : Forcing).

Variable call : string -> list operand -> result (ndarray F).

(** The table [index1(p)] of the scaled monomial space: under each of the
    keys ['x'] and ['y'] the numbers of the basis functions with a non-zero
    derivative, and the coefficients. *)
Record IndexTable := {
  x0 : list Z; x1 : ndarray F;
  y0 : list Z; y1 : ndarray F
}.

Record ScaledMonomialSpace2d := {
  cellmeasure : ndarray F;
  cellsize : ndarray F;
  sm_number_of_local_dofs : Z -> Z;
  sm_number_of_global_dofs : Z -> Z;
  sm_cell_to_dof : Z -> result (list (list Z));
  index1 : Z -> result IndexTable
}.

(** The space object: the attributes [__init__] sets.  [cell2dof] and
    [cell2dofLocation] are the attributes of [self.dof]. *)
Record t := {
  p : nat;
  smspace : ScaledMonomialSpace2d;
  mesh : PolygonMesh;
  dof : RDFNCVEMDof2d.t;
  cell2dof : list Z;
  cell2dofLocation : list Z;
  CM : ndarray F;
  EM : ndarray F;
  H0 : ndarray F;
  H1 : ndarray F;
  Q : option (ndarray F);
  L : option (list (ndarray F));
  G : list (ndarray F);
  B : list (ndarray F);
  M : list (list (ndarray F));
  R : list (list (ndarray F));
  J : list (ndarray F);
  D : list (ndarray F);
  PI0 : list (ndarray F)
}.

(** The names an instance answers to: those [__init__] assigns and the
    methods of the class. *)
Definition attributes : list string :=
  ["p"; "smspace"; "mesh"; "dof"; "integralalg"; "CM"; "EM"; "H0"; "H1";
   "ftype"; "itype"; "Q"; "L"; "G"; "B"; "M"; "R"; "J"; "D"; "PI0";
   "__init__"; "project"; "project_to_smspace"; "matrix_PI0"; "matrix_Q_L";
   "matrix_G_B"; "matrix_M"; "matrix_R_J"; "matrix_D"; "matrix_A"; "matrix_P";
   "source_vector"; "set_dirichlet_bc"; "number_of_global_dofs";
   "number_of_local_dofs"; "cell_to_dof"; "boundary_dof"; "function"; "array"].

(** The names bound at module level: the imports and the two classes. *)
Definition module_globals : list string :=
  ["np"; "inv"; "bmat"; "coo_matrix"; "csc_matrix"; "csr_matrix"; "spdiags"; "eye";
   "Function"; "ScaledMonomialSpace2d"; "GaussLegendreQuadrature";
   "PolygonMeshIntegralAlg"; "ranges"; "block"; "RDFNCVEMDof2d";
   "ReducedDivFreeNonConformingVirtualElementSpace2d"].

(** What a name in scope is bound to. *)
Inductive binding :=
| BInt (n : Z)
| BObject.

Definition as_int (b : binding) : result Z :=
  match b with
  | BInt n => Ok n
  | BObject => Raise TypeError
  end.

Definition globals_scope : list (string * binding) :=
  (fun x => (x, BObject)) <$> module_globals.

(** ** Counting dofs *)

Definition idof (self : t) : Z :=
  let p := Z.of_nat (p self) in (((p - 2) * (p - 1)) `div` 2)%Z.

Definition number_of_global_dofs (self : t) : Z :=
  let NE := Z.of_nat (number_of_edges (mesh self)) in
  let NC := Z.of_nat (number_of_cells (mesh self)) in
  let p := Z.of_nat (p self) in
  let gdof := (2 * NE * p)%Z in
  if bool_decide (p > 2)%Z then (gdof + (NC * (p - 2) * (p - 1)) `div` 2)%Z else gdof.

(** What [cell_to_dof(doftype)] returns. *)
Inductive CellToDof :=
| All (cell2dof cell2dofLocation : list Z)
| Rows (cell2dof : list (list Z))
| NoneValue.

Definition cell_to_dof (self : t) (doftype : str) : CellToDof :=
  if is_literal doftype "all" then All (cell2dof self) (cell2dofLocation self)
  else if is_literal doftype "cell" then
    let p := Z.of_nat (p self) in
    let NE := Z.of_nat (number_of_edges (mesh self)) in
    let NC := number_of_cells (mesh self) in
    let idof := Z.to_nat (idof self) in
    Rows ((fun c => (fun k => (2 * NE * p + Z.of_nat (c * idof + k))%Z) <$> seq 0 idof)
            <$> seq 0 NC)
  else if is_literal doftype "edge" then Rows (RDFNCVEMDof2d.edge_to_dof (dof self))
  else NoneValue.

Definition boundary_dof (self : t) : result (list bool) :=
  RDFNCVEMDof2d.boundary_dof (dof self).

(** ** [matrix_Q_L] *)

Definition matrix_Q_L (self : t) : result (option (ndarray F) * option (list (ndarray F))) :=
  let p := Z.of_nat (p self) in
  if bool_decide (p > 2)%Z then
    let mesh := mesh self in
    let NC := Z.of_nat (number_of_cells mesh) in
    let area := cellmeasure (smspace self) in
    let smldof := sm_number_of_local_dofs (smspace self) p in
    let ndof := (((p - 2) * (p - 1)) `div` 2)%Z in
    let cell2dof := cell2dof self in
    let CM := CM self in
    (* [self.index1]: were the attribute bound, the call would give a
       table as [self.smspace.index1] does *)
    _ ← getattr attributes "index1";
    idx ← index1 (smspace self) (p - 2);
    Q ← call "CM[:, x[0][:, None], x[0]] + CM[:, y[0][:, None], y[0]]"
           [Arr CM; Ints (x0 idx); Ints (y0 idx)];
    L0 ← NpArray.zeros [ndof; Z.of_nat (length cell2dof)];
    L1 ← NpArray.zeros [ndof; Z.of_nat (length cell2dof)];
    (* [dtype=sel.ftype] *)
    _ ← load_name (("self", BObject) :: ("p", BInt p) :: ("mesh", BObject)
                     :: ("NC", BInt NC) :: ("area", BObject) :: ("smldof", BInt smldof)
                     :: ("ndof", BInt ndof) :: ("cell2dof", BObject)
                     :: ("cell2dofLocation", BObject) :: ("CM", BObject)
                     :: ("idx", BObject) :: ("x", BObject) :: ("y", BObject)
                     :: ("Q", BObject) :: ("L0", BObject) :: ("L1", BObject)
                     :: globals_scope) "sel";
    L2 ← NpArray.zeros [NC; ndof; ndof];
    L2 ← call "L2[:, y[0], y[0]] += area[:, None]" [Arr L2; Ints (y0 idx); Arr area];
    L2 ← call "L2[:, x[0], x[0]] += area[:, None]" [Arr L2; Ints (x0 idx); Arr area];
    Ok (Some Q, Some [L0; L1; L2])
  else Ok (None, None).

(** ** [matrix_M] *)

(** The columns of [edge2cell]. *)
Definition column0 (edge2cell : list (Z * Z * Z * Z)) : list Z :=
  (fun '(c0, _, _, _) => c0) <$> edge2cell.
Definition column1 (edge2cell : list (Z * Z * Z * Z)) : list Z :=
  (fun '(_, c1, _, _) => c1) <$> edge2cell.

(** [edge2cell[:, 0] != edge2cell[:, 1]] *)
Definition is_in_edge (edge2cell : list (Z * Z * Z * Z)) : list bool :=
  (fun '(c0, c1, _, _) => bool_decide (c0 ≠ c1)) <$> edge2cell.

(** [isInEdge.sum()] *)
Definition count_true (l : list bool) : nat := length (filter (fun b => b = true) l).

Definition matrix_M (self : t) : result (list (list (ndarray F))) :=
  let p := Z.of_nat (p self) in
  let mesh := mesh self in
  let NC := Z.of_nat (number_of_cells mesh) in
  let area := cellmeasure (smspace self) in
  let ch := cellsize (smspace self) in
  let smldof := sm_number_of_local_dofs (smspace self) (p - 2) in
  let idof := (((p - 2) * (p - 1)) `div` 2)%Z in
  let cell2dof := cell2dof self in
  let cell2dofLocation := cell2dofLocation self in
  M00 ← NpArray.zeros [smldof; Z.of_nat (length cell2dof)];
  M01 ← NpArray.zeros [smldof; Z.of_nat (length cell2dof)];
  M10 ← NpArray.zeros [smldof; Z.of_nat (length cell2dof)];
  M11 ← NpArray.zeros [smldof; Z.of_nat (length cell2dof)];
  M02 ← NpArray.zeros [NC; smldof; idof];
  M12 ← NpArray.zeros [NC; smldof; idof];
  '(M02, M12) ←
    (if bool_decide (p > 2)%Z then
       idx ← index1 (smspace self) (p - 2);
       c ← call "np.repeat(range(1, p), range(1, p))" [Int p];
       M02 ← call "M02[:, y[0], np.arange(idof)] = area[:, None]*y[1]/c[y[0]]"
               [Arr M02; Ints (y0 idx); Int idof; Arr area; Arr (y1 idx); Arr c];
       M12 ← call "M12[:, x[0], np.arange(idof)] = -area[:, None]*x[1]/c[x[0]]"
               [Arr M12; Ints (x0 idx); Int idof; Arr area; Arr (x1 idx); Arr c];
       Ok (M02, M12)
     else Ok (M02, M12));
  node ← call "mesh.entity('node')" [];
  edge ← call "mesh.entity('edge')" [];
  n ← call "mesh.edge_unit_normal()" [];
  eh ← call "mesh.entity_measure('edge')" [];
  let edge2cell := edge_to_cell mesh in
  let isInEdge := is_in_edge edge2cell in
  let ndof := sm_number_of_local_dofs (smspace self) (p - 1) in
  bcs ← call "GaussLegendreQuadrature(p + 3).quadpts" [Int p];
  ws ← call "GaussLegendreQuadrature(p + 3).weights" [Int p];
  node_edge ← call "node[edge]" [Arr node; Arr edge];
  ps ← einsum "ij, kjm->ikm" [bcs; node_edge];
  phi ← call "self.smspace.edge_basis(ps, p=p-1)" [Arr ps; Int p];
  phi0 ← call "self.smspace.basis(ps, index=edge2cell[:, 0], p=p-1)"
           [Arr ps; Ints (column0 edge2cell); Int p];
  m0 ← call "self.H0[:, 0, 0:ndof]/area[:, None]" [Arr (H0 self); Int ndof; Arr area];
  phi0 ← call "phi0 - m0[None, edge2cell[:, 0], :]"
           [Arr phi0; Arr m0; Ints (column0 edge2cell)];
  c ← call "1/np.repeat(range(1, p), range(1, p))" [Int p];
  ch0 ← call "ch[edge2cell[:, 0]]" [Arr ch; Ints (column0 edge2cell)];
  F0 ← einsum "i, ijm, ijn, j, j, j->jmn" [ws; phi0; phi; eh; eh; ch0];
  F0 ← call "F0@self.H1" [Arr F0; Arr (H1 self)];
  F0 ← call "F0 / c[None, :, None]" [Arr F0; Arr c];
  idx ← index1 (smspace self) (p - 1);
  idx0 ← RDFNCVEMDof2d.slot_index (dof self) cell2dofLocation RDFNCVEMDof2d.side0;
  n0 ← call "n[:, 0]" [Arr n];
  val ← einsum "ijk, i->jik" [F0; n0];
  M00 ← call "np.add.at(M00, (np.s_[:], idx0), val[x[0], ...])"
          [Arr M00; Ints (concat idx0); Arr val; Ints (x0 idx)];
  M10 ← call "np.add.at(M10, (np.s_[:], idx0), val[y[0], ...])"
          [Arr M10; Ints (concat idx0); Arr val; Ints (y0 idx)];
  n1 ← call "n[:, 1]" [Arr n];
  val ← einsum "ijk, i->jik" [F0; n1];
  M01 ← call "np.add.at(M01, (np.s_[:], idx0), val[x[0], ...])"
          [Arr M01; Ints (concat idx0); Arr val; Ints (x0 idx)];
  M11 ← call "np.add.at(M11, (np.s_[:], idx0), val[y[0], ...])"
          [Arr M11; Ints (concat idx0); Arr val; Ints (y0 idx)];
  '(M00, M01, M10, M11) ←
    (if bool_decide (0 < count_true isInEdge) then
       phi1 ← call "self.smspace.basis(ps, index=edge2cell[:, 1], p=p-1)"
                [Arr ps; Ints (column1 edge2cell); Int p];
       phi1 ← call "phi1 - m0[None, edge2cell[:, 1], :]"
                [Arr phi1; Arr m0; Ints (column1 edge2cell)];
       ch1 ← call "ch[edge2cell[:, 1]]" [Arr ch; Ints (column1 edge2cell)];
       F1 ← einsum "i, ijm, ijn, j->jmn" [ws; phi1; phi; eh; eh; ch1];
       F1 ← call "F1@self.H1" [Arr F1; Arr (H1 self)];
       F1 ← call "F1 / c[None, :, None]" [Arr F1; Arr c];
       idx0 ← RDFNCVEMDof2d.slot_index (dof self) cell2dofLocation RDFNCVEMDof2d.side1;
       n0 ← call "n[:, 0]" [Arr n];
       val ← einsum "ijk, i->jik" [F1; n0];
       M00 ← call "np.subtract.at(M00, (np.s_[:], idx0[isInEdge]), val[x[0], isInEdge])"
               [Arr M00; Ints (concat idx0); Bools isInEdge; Arr val; Ints (x0 idx)];
       M10 ← call "np.subtract.at(M10, (np.s_[:], idx0[isInEdge]), val[y[0], isInEdge])"
               [Arr M10; Ints (concat idx0); Bools isInEdge; Arr val; Ints (y0 idx)];
       n1 ← call "n[:, 1]" [Arr n];
       val ← einsum "ijk, i->jik" [F1; n1];
       M01 ← call "np.subtract.at(M01, (np.s_[:], idx0[isInEdge]), val[x[0], isInEdge])"
               [Arr M01; Ints (concat idx0); Bools isInEdge; Arr val; Ints (x0 idx)];
       M11 ← call "np.subtract.at(M11, (np.s_[:], idx0[isInEdge]), val[y[0], isInEdge])"
               [Arr M11; Ints (concat idx0); Bools isInEdge; Arr val; Ints (y0 idx)];
       Ok (M00, M01, M10, M11)
     else Ok (M00, M01, M10, M11));
  Ok [[M00; M01; M02]; [M10; M11; M12]].

(** ** [matrix_G_B], [matrix_R_J], [matrix_D]

    These three builders fill their arrays by numpy arithmetic on the mass
    matrices, the index tables and the edge quadrature.  The entries of each
    array are the evaluator's; what the model keeps of the builder is what
    it returns: which arrays, packed how. *)

Definition matrix_G_B (self : t) : result (list (ndarray F) * list (ndarray F)) :=
  let inputs := [Arr (CM self); Arr (cellmeasure (smspace self));
                 Arr (cellsize (smspace self)); Int (Z.of_nat (p self))] in
  G00 ← call "G00" inputs;
  G01 ← call "G01" inputs;
  G11 ← call "G11" inputs;
  let G := [G00; G11; G01] in
  B0 ← call "B0" inputs;
  B1 ← call "B1" inputs;
  let B := [B0; B1] in
  Ok (G, B).

Definition matrix_R_J (self : t)
    : result (list (list (ndarray F)) * list (ndarray F)) :=
  let inputs := [Arr (CM self); Arr (H1 self); Arr (cellmeasure (smspace self));
                 Arr (cellsize (smspace self)); Int (Z.of_nat (p self));
                 Ints (cell2dofLocation self)]
                ++ (Arr <$> concat (M self)) in
  R00 ← call "R00" inputs;
  R01 ← call "R01" inputs;
  R02 ← call "R02" inputs;
  R10 ← call "R10" inputs;
  R11 ← call "R11" inputs;
  R12 ← call "R12" inputs;
  let R := [[R00; R01; R02]; [R10; R11; R12]] in
  J0 ← call "J0" inputs;
  J1 ← call "J1" inputs;
  J2 ← call "J2" inputs;
  let J := [J0; J1; J2] in
  Ok (R, J).

Definition matrix_D (self : t) : result (list (ndarray F)) :=
  let inputs := [Arr (CM self); Arr (H1 self); Arr (cellmeasure (smspace self));
                 Int (Z.of_nat (p self)); Ints (cell2dofLocation self)] in
  D0 ← call "D0" inputs;
  D1 ← call "D1" inputs;
  D2 ← call "D2" inputs;
  Ok [D0; D1; D2].

(** ** [matrix_PI0] *)

(** [blocks[k][i]]: entry [k] of a Python list, then cell [i] of the array. *)
Definition block_of_cell (blocks : list (ndarray F)) (k i : Z) : result (ndarray F) :=
  a ← getitem blocks k; NpArray.item a i.

(** [blocks[k][:, s]] with [s = slice(lo, hi)] *)
Definition columns_of_cell (blocks : list (ndarray F)) (k lo hi : Z) : result (ndarray F) :=
  a ← getitem blocks k; call "a[:, s]" [Arr a; Int lo; Int hi].

Definition matrix_PI0 (self : t) : result (list (ndarray F)) :=
  let NC := number_of_cells (mesh self) in
  let cell2dofLocation := cell2dofLocation self in
  let f (i : nat) : result (ndarray F) :=
    let i := Z.of_nat i in
    G0 ← block_of_cell (G self) 0 i;
    G2 ← block_of_cell (G self) 2 i;
    B0 ← block_of_cell (B self) 0 i;
    G1 ← block_of_cell (G self) 1 i;
    B1 ← block_of_cell (B self) 1 i;
    G ← call "block([[G0, G2, B0], [G2.T, G1, B1], [B0.T, B1.T, 0]])"
          [Arr G0; Arr G2; Arr B0; Arr G1; Arr B1];
    lo ← getitem cell2dofLocation i;
    hi ← getitem cell2dofLocation (i + 1);
    R0 ← getitem (R self) 0;
    R00 ← columns_of_cell R0 0 lo hi;
    R01 ← columns_of_cell R0 1 lo hi;
    R02 ← block_of_cell R0 2 i;
    R1 ← getitem (R self) 1;
    R10 ← columns_of_cell R1 0 lo hi;
    R11 ← columns_of_cell R1 1 lo hi;
    R12 ← block_of_cell R1 2 i;
    J0 ← columns_of_cell (J self) 0 lo hi;
    J1 ← columns_of_cell (J self) 1 lo hi;
    J2 ← block_of_cell (J self) 2 i;
    R ← call "block([[R00, R01, R02], [R10, R11, R12], [J0, J1, J2]])"
          [Arr R00; Arr R01; Arr R02; Arr R10; Arr R11; Arr R12; Arr J0; Arr J1; Arr J2];
    call "inv(G)@R" [Arr G; Arr R] in
  map_list f (range NC).

(** ** [__init__]

    The scaled monomial space [ScaledMonomialSpace2d(mesh, p, q=q)] is the
    argument [smspace]. *)
Definition init (mesh : PolygonMesh) (p : nat) (smspace : ScaledMonomialSpace2d)
    : result t :=
  let dof := {| RDFNCVEMDof2d.p := p; RDFNCVEMDof2d.mesh := mesh |} in
  '(cell2dof, cell2dofLocation) ← RDFNCVEMDof2d.cell_to_dof dof;
  CM ← call "self.smspace.cell_mass_matrix()" [];
  EM ← call "self.smspace.edge_mass_matrix()" [];
  let ndof := ((Z.of_nat p * (Z.of_nat p + 1)) `div` 2)%Z in
  H0 ← call "inv(self.CM[:, 0:ndof, 0:ndof])" [Arr CM; Int ndof];
  H1 ← call "inv(self.EM[:, 0:p, 0:p])" [Arr EM; Int (Z.of_nat p)];
  let self Q L G B M R J D PI0 :=
    {| p := p; smspace := smspace; mesh := mesh; dof := dof;
       cell2dof := cell2dof; cell2dofLocation := cell2dofLocation;
       CM := CM; EM := EM; H0 := H0; H1 := H1;
       Q := Q; L := L; G := G; B := B; M := M; R := R; J := J; D := D; PI0 := PI0 |} in
  '(Q, L) ← matrix_Q_L (self None None [] [] [] [] [] [] []);
  '(G, B) ← matrix_G_B (self Q L [] [] [] [] [] [] []);
  M ← matrix_M (self Q L G B [] [] [] [] []);
  '(R, J) ← matrix_R_J (self Q L G B M [] [] [] []);
  D ← matrix_D (self Q L G B M R J [] []);
  PI0 ← matrix_PI0 (self Q L G B M R J D []);
  Ok (self Q L G B M R J D PI0).

(** ** [matrix_A] *)

(** [S[cell][p*j:p*(j+1), p*j:p*(j+1)] += self.H1[i]*c] on a list [S] of
    arrays: the array of the cell is changed in place. *)
Definition add_edge_block (self : t) (S : list (ndarray F)) (cell j : Z)
    (i : Z) (c : ndarray F) : result (list (ndarray F)) :=
  k ← index (length S) cell;
  Sc ← getitem S cell;
  v ← call "self.H1[i]*c" [Arr (H1 self); Int i; Arr c];
  Sc ← call "S[p*j:p*(j+1), p*j:p*(j+1)] += v"
         [Arr Sc; Int (Z.of_nat (p self)); Int j; Arr v];
  Ok (<[k := Sc]> S).

(** The global dofs of cell [i]: its edge dofs, the same shifted by [NE*p],
    and its interior dofs. *)
Definition cell_dofs (cell2dof : list Z) (lo hi NE p i idof : Z) : list Z :=
  let s := slice cell2dof lo hi in
  s ++ ((fun d => NE * p + d)%Z <$> s)
    ++ ((fun k => 2 * NE * p + k)%Z <$> NpIndex.arange (i * idof) ((i + 1) * idof)).

Definition matrix_A (self : t) : result (option (Sparse.matrix F)) :=
  let self_D := D self in
  let self_J := J self in
  let self_PI0 := PI0 self in
  let self_H0 := H0 self in
  let p := Z.of_nat (p self) in
  let idof := (((p - 2) * (p - 1)) `div` 2)%Z in
  let cell2dof := cell2dof self in
  let cell2dofLocation := cell2dofLocation self in
  let NC := number_of_cells (mesh self) in
  let mesh := mesh self in
  let NE := number_of_edges mesh in
  let edge2cell := edge_to_cell mesh in
  let isInEdge := is_in_edge edge2cell in
  eh ← call "mesh.entity_measure('edge')" [];
  let area := cellmeasure (smspace self) in
  let ch := cellsize (smspace self) in
  let ldof := RDFNCVEMDof2d.number_of_local_dofs (dof self) in
  let f (ndof : Z) := NpArray.zeros [ndof; ndof] in
  S00 ← map_list f ldof;
  S11 ← map_list f ldof;
  S01 ← map_list f ldof;
  S22 ← NpArray.zeros [Z.of_nat NC; idof; idof];
  let f1 (S : list (ndarray F) * list (ndarray F)) (i : nat) :=
    let '(S00, S11) := S in
    let i := Z.of_nat i in
    '(c0, _, j, _) ← getitem edge2cell i;
    c ← call "eh[i]**2/ch[edge2cell[i, 0]]" [Arr eh; Arr ch; Int i; Int c0];
    S00 ← add_edge_block self S00 c0 j i c;
    S11 ← add_edge_block self S11 c0 j i c;
    Ok (S00, S11) in
  let f2 (S : list (ndarray F) * list (ndarray F)) (i : nat) :=
    let '(S00, S11) := S in
    inner ← getitem isInEdge (Z.of_nat i);
    if inner : bool then
      let i := Z.of_nat i in
      '(_, c1, _, j) ← getitem edge2cell i;
      c ← call "eh[i]**2/ch[edge2cell[i, 1]]" [Arr eh; Arr ch; Int i; Int c1];
      S00 ← add_edge_block self S00 c1 j i c;
      S11 ← add_edge_block self S11 c1 j i c;
      Ok (S00, S11)
    else Ok (S00, S11) in
  S ← for_each f1 (S00, S11) (range NE);
  '(S00, S11) ← for_each f2 S (range NE);
  S22 ← (if bool_decide (p > 2)%Z then
           L ← match L self with
               | Some L => getitem L 2
               | None => Raise TypeError
               end;
           Q ← match Q self with
               | Some Q => Ok Q
               | None => Raise LinAlgError
               end;
           call "L.swapaxes(-2, -1)@inv(Q)@L" [Arr L; Arr Q]
         else Ok S22);
  let ndof := ((p * (p + 1)) `div` 2)%Z in
  Zero ← NpArray.zeros [ndof; ndof];
  let f4 (i : nat) : result (ndarray F) :=
    let i := Z.of_nat i in
    lo ← getitem cell2dofLocation i;
    hi ← getitem cell2dofLocation (i + 1);
    PI0 ← getitem self_PI0 i;
    D ← call "np.eye(PI0.shape[1])" [Arr PI0];
    D0 ← getitem self_D 0;
    D0 ← call "D0[s, :]" [Arr D0; Int lo; Int hi];
    D1 ← block_of_cell self_D 1 i;
    D2 ← block_of_cell self_D 2 i;
    D ← call "D - block([[D0, 0], [0, D0], [D1, D2]])@PI0"
          [Arr D; Arr D0; Arr D1; Arr D2; Arr PI0];
    S00i ← getitem S00 i;
    S01i ← getitem S01 i;
    S11i ← getitem S11 i;
    S22i ← NpArray.item S22 i;
    A ← call "D.T@block([[S00, S01, 0], [S01.T, S11, 0], [0, 0, S22]])@D"
          [Arr D; Arr S00i; Arr S01i; Arr S11i; Arr S22i];
    J0 ← columns_of_cell self_J 0 lo hi;
    J1 ← columns_of_cell self_J 1 lo hi;
    J2 ← block_of_cell self_J 2 i;
    J3 ← block_of_cell self_J 3 i;
    U ← call "block([[J0, 0, J2], [J1, J0, J2+J3], [0, J1, J3]])"
          [Arr J0; Arr J1; Arr J2; Arr J3];
    H0i ← NpArray.item self_H0 i;
    H0 ← call "block([[H0, 0, 0], [0, 0.5*H0, 0], [0, 0, H0]])" [Arr H0i];
    call "A + U.T@H0@U" [Arr A; Arr U; Arr H0] in
  A ← map_list f4 (range NC);
  let f5 (i : nat) : result (list Z * list Z) :=
    let i := Z.of_nat i in
    lo ← getitem cell2dofLocation i;
    hi ← getitem cell2dofLocation (i + 1);
    let cd := cell_dofs cell2dof lo hi (Z.of_nat NE) p i idof in
    Ok (NpIndex.meshgrid cd cd) in
  idx ← map_list f5 (range NC);
  I ← NpIndex.concatenate (snd <$> idx);
  J ← NpIndex.concatenate (fst <$> idx);
  let gdof := Z.to_nat (number_of_global_dofs self) in
  A ← map_list (fun x => data <$> NpArray.item x 0) A;
  A ← NpIndex.concatenate A;
  A ← Sparse.from_triplets A I J (gdof, gdof);
  (* [return] *)
  Ok None.

(** ** [matrix_P] *)

Definition matrix_P (self : t) : result (Sparse.matrix F) :=
  let self_J := J self in
  let p := Z.of_nat (p self) in
  let idof := (((p - 2) * (p - 1)) `div` 2)%Z in
  let cell2dof := cell2dof self in
  let cell2dofLocation := cell2dofLocation self in
  let NC := number_of_cells (mesh self) in
  cd1 ← sm_cell_to_dof (smspace self) (p - 1);
  let f0 (i : nat) : result (list Z * list Z) :=
    let i := Z.of_nat i in
    lo ← getitem cell2dofLocation i;
    hi ← getitem cell2dofLocation (i + 1);
    NE ← load_name (("i", BInt i) :: ("s", BObject) :: ("self", BObject)
                      :: ("p", BInt p) :: ("idof", BInt idof) :: ("cell2dof", BObject)
                      :: ("cell2dofLocation", BObject) :: ("NC", BInt (Z.of_nat NC))
                      :: ("cd1", BObject) :: ("f0", BObject) :: globals_scope) "NE";
    NE ← as_int NE;
    let cd := cell_dofs cell2dof lo hi NE p i idof in
    cd1i ← getitem cd1 i;
    Ok (NpIndex.meshgrid cd cd1i) in
  idx ← map_list f0 (range NC);
  I ← NpIndex.concatenate (snd <$> idx);
  J ← NpIndex.concatenate (fst <$> idx);
  let f (i : nat) (k : Z) : result (list F) :=
    let i := Z.of_nat i in
    Jk ← getitem self_J k;
    lo ← getitem cell2dofLocation i;
    hi ← getitem cell2dofLocation (i + 1);
    Jk ← call "J[cell2dofLocation[i]:cell2dofLocation[i+1]]" [Arr Jk; Int lo; Int hi];
    Ok (data Jk) in
  let gdof0 := Z.to_nat (sm_number_of_global_dofs (smspace self) (p - 1)) in
  let gdof1 := RDFNCVEMDof2d.number_of_global_dofs (dof self) in
  P0 ← map_list (fun i => f i 0%Z) (range NC);
  P0 ← NpIndex.concatenate P0;
  P0 ← Sparse.from_triplets P0 I J (gdof0, gdof1);
  P1 ← map_list (fun i => f i 1%Z) (range NC);
  P1 ← NpIndex.concatenate P1;
  P1 ← Sparse.from_triplets P1 I J (gdof0, gdof1);
  if bool_decide (p = 2%Z) then Sparse.bmat_row [P0; P1]
  else
    P2 ← map_list (fun i => f i 4%Z) (range NC);
    P2 ← NpIndex.concatenate P2;
    (* [coo_matrix((P1, (I, J)), ...)]: the data handed over is the sparse
       matrix [P1], which is not an array of values *)
    P2 ← (Raise TypeError : result (Sparse.matrix F));
    Sparse.bmat_row [P0; P1; P2].

(** ** [source_vector] *)

Definition source_vector (self : t) (f : Forcing) : result (ndarray F) :=
  let p := Z.of_nat (p self) in
  let ndof := sm_number_of_local_dofs (smspace self) (p - 2) in
  Q ← call "inv(self.CM[:, :ndof, :ndof])" [Arr (CM self); Int ndof];
  bb ← call "self.integralalg.integral(u, celltype=True)" [Fun f; Int p];
  bb ← call "Q@bb" [Arr Q; Arr bb];
  bb ← call "bb * self.smspace.cellmeasure[:, None, None]"
         [Arr bb; Arr (cellmeasure (smspace self))];
  let gdof := number_of_global_dofs self in
  match cell_to_dof self (Str "cell" true) with
  | Rows cell2dof =>
      b ← NpArray.zeros [gdof];
      (* [b[cell2dof, :] = bb] *)
      _ ← NpArray.check_indices b 2;
      b ← call "b[cell2dof, :] = bb" [Arr b; Ints (concat cell2dof); Arr bb];
      Ok b
  | _ => Raise TypeError
  end.

(** ** [function], [project] and [project_to_smspace] *)

(** [Function(self, dim=dim, array=array)], called with the defaults. *)
Definition function (self : t) : result (ndarray F) :=
  call "Function(self, dim=dim, array=array)" [].

Definition project (self : t) (u : Forcing) : result (ndarray F) :=
  let p := Z.of_nat (p self) in
  let NE := Z.of_nat (number_of_edges (mesh self)) in
  uh ← function self;
  h ← call "self.mesh.entity_measure('edge')" [];
  uh0 ← call "self.integralalg.edge_integral(u0, edgetype=True)/h[:, None, None]"
          [Fun u; Int p; Arr h];
  uh ← NpArray.setitem_slice uh 0 (2 * NE * p) (NpArray.flat (NpArray.transpose uh0));
  if bool_decide (p > 2)%Z then
    (* [self.index1], as in [matrix_Q_L] *)
    _ ← getattr attributes "index1";
    idx ← index1 (smspace self) (p - 2);
    let area := cellmeasure (smspace self) in
    uh1 ← call "self.integralalg.integral(u1, celltype=True)/area[:, None, None]"
            [Fun u; Int p; Arr area];
    uh ← call "uh[2*NE*p:] += uh1[:, y[0], 0].flat"
           [Arr uh; Int (2 * NE * p); Arr uh1; Ints (y0 idx)];
    call "uh[2*NE*p:] -= uh1[:, x[0], 1].flat"
      [Arr uh; Int (2 * NE * p); Arr uh1; Ints (x0 idx)]
  else Ok uh.

(** The vector [x] that [f(i)] of [project_to_smspace] builds from [uh]. *)
Definition cell_vector (self : t) (uh : ndarray F) (i : Z) : result (ndarray F) :=
  let p := Z.of_nat (p self) in
  let idof := (((p - 2) * (p - 1)) `div` 2)%Z in
  let NE := Z.of_nat (number_of_edges (mesh self)) in
  lo ← getitem (cell2dofLocation self) i;
  hi ← getitem (cell2dofLocation self) (i + 1);
  let idx := slice (cell2dof self) lo hi in
  x0 ← NpArray.take_rows uh idx;
  x1 ← NpArray.take_rows uh ((fun d => d + NE * p)%Z <$> idx);
  x2 ← NpArray.zeros [idof];
  x2 ← (if bool_decide (p > 2)%Z then
          let start := (2 * NE * p + i * idof)%Z in
          v ← NpArray.getitem_slice uh start (start + idof);
          (* [x2[:] = v] *)
          NpArray.setitem_slice x2 0 idof v
        else Ok x2);
  NpArray.r_ [x0; x1; x2].

(** [sh] is changed in place by [f]; the model threads it through the
    calls.  The methods of [smspace] are called with their default degree,
    which is the [p] the scaled monomial space was made with. *)
Definition project_to_smspace (self : t) (uh : ndarray F) : result (ndarray F) :=
  let p := Z.of_nat (p self) in
  let NC := number_of_cells (mesh self) in
  let smldof := sm_number_of_local_dofs (smspace self) p in
  sh ← call "self.smspace.function(dim=2)" [];
  c2d ← sm_cell_to_dof (smspace self) p;
  let f (sh : ndarray F) (i : nat) : result (ndarray F) :=
    let i := Z.of_nat i in
    PI0 ← getitem (PI0 self) i;
    x ← cell_vector self uh i;
    y ← call "(PI0@x).flat" [Arr PI0; Arr x];
    v ← call "y[:smldof]" [Arr y; Int smldof];
    c2di ← getitem c2d i;
    sh ← call "sh[c2d[i], 0] = y[:smldof]" [Arr sh; Ints c2di; Arr v];
    v ← call "y[smldof:2*smldof]" [Arr y; Int smldof];
    c2di ← getitem c2d i;
    call "sh[c2d[i], 1] = y[smldof:2*smldof]" [Arr sh; Ints c2di; Arr v] in
  for_each f sh (range NC).

(** ** [set_dirichlet_bc]

    [gh] is changed in place; the model returns the array it holds after
    the call. *)
Definition set_dirichlet_bc (self : t) (gh : ndarray F) (g : Forcing)
    : result (ndarray F) :=
  let p := p self in
  let mesh := mesh self in
  let isBdEdge := boundary_edge_flag mesh in
  let edge2dof := RDFNCVEMDof2d.edge_to_dof (dof self) in
  bcs ← call "GaussLegendreQuadrature(self.p + 3).quadpts" [Int (Z.of_nat p)];
  ws ← call "GaussLegendreQuadrature(self.p + 3).weights" [Int (Z.of_nat p)];
  ps ← call "mesh.edge_bc_to_point(bcs, index=isBdEdge)" [Arr bcs; Bools isBdEdge];
  val ← call "g(ps)" [Fun g; Arr ps];
  ephi ← call "self.smspace.edge_basis(ps, index=isBdEdge, p=p-1)"
           [Arr ps; Bools isBdEdge; Int (Z.of_nat p)];
  b ← call "np.einsum('i, ij..., ijk->jk...', ws, val, ephi)" [Arr ws; Arr val; Arr ephi];
  (* the value is computed before the target is indexed *)
  v ← call "self.H1[isBdEdge]@b" [Arr (H1 self); Bools isBdEdge; Arr b];
  idx ← NpInt.getitem_mask edge2dof isBdEdge;
  NpArray.setitem_rows gh [length idx; RDFNCVEMDof2d.p (dof self)] (concat idx) v.

(** ** [number_of_local_dofs] *)

Definition number_of_local_dofs (self : t) : list Z :=
  let p := Z.of_nat (p self) in
  let mesh := mesh self in
  let NCE := number_of_edges_of_cells mesh in
  let ldofs := (fun n => 2 * Z.of_nat n * p)%Z <$> NCE in
  if bool_decide (p > 2)%Z
  then (fun l => l + ((p - 2) * (p - 1)) `div` 2)%Z <$> ldofs
  else ldofs.

End space.
Arguments operand F Forcing : clear implicits.
Arguments t F : clear implicits.
Arguments ScaledMonomialSpace2d F : clear implicits.
Arguments IndexTable F : clear implicits.
End ReducedDivFreeNonConformingVirtualElementSpace2d.

(** * An evaluator and a scaled monomial space to run the definitions on *)

Module Unit.
Import Np ReducedDivFreeNonConformingVirtualElementSpace2d.

(** The number of axes of the value of an expression: the weights, the edge
    lengths, the cell sizes gathered per edge and the components of the
    normals are vectors, the quadrature points a matrix; every other array is
    given three axes. *)
Definition axes (expression : string) : nat :=
  if bool_decide (expression ∈ ["GaussLegendreQuadrature(p + 3).weights";
                                "mesh.entity_measure('edge')";
                                "ch[edge2cell[:, 0]]"; "ch[edge2cell[:, 1]]";
                                "n[:, 0]"; "n[:, 1]"]) then 1
  else if bool_decide (expression = "GaussLegendreQuadrature(p + 3).quadpts") then 2
  else 3.

(** Every expression evaluates to an array of one entry, the integer 1. *)
Definition call (expression : string) (operands : list (operand Z unit))
    : result (ndarray Z) :=
  Ok (NDArray (replicate (axes expression) 1) [1%Z]).

Definition table : IndexTable Z :=
  {| x0 := [0%Z]; x1 := NDArray [1] [1%Z]; y0 := [0%Z]; y1 := NDArray [1] [1%Z] |}.

(** A scaled monomial space over [NC] cells. *)
Definition scaled_monomials (NC : nat) : ScaledMonomialSpace2d Z :=
  {| cellmeasure := NDArray [NC] (replicate NC 1%Z);
     cellsize := NDArray [NC] (replicate NC 1%Z);
     sm_number_of_local_dofs := fun p => (((p + 1) * (p + 2)) `div` 2)%Z;
     sm_number_of_global_dofs := fun p => (Z.of_nat NC * (((p + 1) * (p + 2)) `div` 2))%Z;
     sm_cell_to_dof := fun p =>
       Ok ((fun c => (fun k => Z.of_nat (c * Z.to_nat (((p + 1) * (p + 2)) `div` 2) + k))
                       <$> seq 0 (Z.to_nat (((p + 1) * (p + 2)) `div` 2)))
             <$> seq 0 NC);
     index1 := fun _ => Ok table |}.

(** The object as [__init__] has it when it calls the first matrix builder:
    the attributes set so far, no matrix yet. *)
Definition space (mesh : PolygonMesh) (p : nat) : t Z :=
  let dof := {| RDFNCVEMDof2d.p := p; RDFNCVEMDof2d.mesh := mesh |} in
  let flat := match RDFNCVEMDof2d.cell_to_dof dof with
              | Ok flat => flat
              | Raise _ => ([], [])
              end in
  let one := NDArray [1; 1; 1] [1%Z] in
  {| p := p; smspace := scaled_monomials (number_of_cells mesh); mesh := mesh; dof := dof;
     cell2dof := flat.1; cell2dofLocation := flat.2;
     CM := one; EM := one; H0 := one; H1 := one;
     Q := None; L := None; G := []; B := []; M := []; R := []; J := []; D := []; PI0 := [] |}.

End Unit.

(** * An evaluator whose edge moments are all different *)

Module Moments.
Import Np ReducedDivFreeNonConformingVirtualElementSpace2d.

(** For the single triangle and [p = 2]: the new function is an array of
    twelve zeros, and the edge moments, of shape (3, 2, 2) (edge, basis
    function, component), are the numbers 1 to 12.  Every other expression
    is evaluated as in [Unit]. *)
Definition call (expression : string) (operands : list (operand Z unit))
    : result (ndarray Z) :=
  if bool_decide (expression = "Function(self, dim=dim, array=array)")
  then Ok (Np.zeros [12])
  else if bool_decide
            (expression
             = "self.integralalg.edge_integral(u0, edgetype=True)/h[:, None, None]")
  then Ok (NDArray [3; 2; 2] [1; 2; 3; 4; 5; 6; 7; 8; 9; 10; 11; 12]%Z)
  else Unit.call expression operands.

End Moments.


(** * What [cell_to_dof] writes *)

(** The array after the assignments [ws], all of them in bounds. *)
Definition written {A} (a : list A) (ws : list (Z * A)) : list A :=
  foldl (fun a '(i, v) => <[Z.to_nat i := v]> a) a ws.

Section placement.
Import RDFNCVEMDof2d.
Variable self : t.

(** The [c]-th entry of [cell2dofLocation]: the dofs of the cells before [c]. *)
Definition offset (c : nat) : nat :=
  sum_list (take c (map (fun n => n * p self) (number_of_edges_of_cells (mesh self)))).

(** The slot of local edge [j], sub-offset [k], of cell [c]. *)
Definition position (c j k : nat) : nat :=
  offset c + j * p self + k.

(** Row [r] of the index array of one side: the slots of its [p] dofs. *)
Definition slot_row (side : Z * Z * Z * Z -> Z * Z) (r : Z * Z * Z * Z) : list Z :=
  map (fun k => Z.of_nat (position (Z.to_nat (side r).1) (Z.to_nat (side r).2) k))
      (seq 0 (p self)).

(** Row [e] of [edge2dof]. *)
Definition dof_row (e : nat) : list Z :=
  map (fun k => Z.of_nat (e * p self + k)) (seq 0 (p self)).

(** [side] reads off a row of [edge2cell] a cell and the local position of
    the edge in it. *)
Definition is_side (side : Z * Z * Z * Z -> Z * Z) : Prop :=
  ∀ e r, edge_to_cell (mesh self) !! e = Some r →
         slot_edge (mesh self) (side r).1 (side r).2 = Some e.

(** The assignments [cell2dof[idx] = edge2dof] of one side. *)
Definition pass (side : Z * Z * Z * Z -> Z * Z) : list (Z * Z) :=
  zip (concat (map (slot_row side) (edge_to_cell (mesh self)))) (concat (edge_to_dof self)).

(** The length of [cell2dof]. *)
Definition total : nat := offset (number_of_cells (mesh self)).

End placement.

(** ** A space on a uniform mesh

    Two cells, the cell measure a single number. *)
Definition uniform_space : ScalarMassIntegrator.FunctionSpace Z := {|
  ScalarMassIntegrator.p := 1;
  ScalarMassIntegrator.btype := "Lagrange";
  ScalarMassIntegrator.number_of_local_dofs := 2;
  ScalarMassIntegrator.mesh_meshtype := "UniformMesh2d";
  ScalarMassIntegrator.mesh_type := "UniformMesh2d";
  ScalarMassIntegrator.mesh_number_of_cells := 2;
  ScalarMassIntegrator.mesh_entity_measure := Np.NDArray [] [3%Z];
  ScalarMassIntegrator.quadrature_weights := fun _ => Np.NDArray [3] [1; 1; 1]%Z;
  ScalarMassIntegrator.basis := fun _ =>
    Np.NDArray [3; 2; 2] [1; 2; 1; 2; 1; 2; 1; 2; 1; 2; 1; 2]%Z
|}.

Section dof_manager.
Import RDFNCVEMDof2d.

(** * Properties *)

(** ** Loops and indexing *)

Lemma map_list_ok {A B} (f : A -> result B) (g : A -> B) (xs : list A) :
  (∀ x, x ∈ xs → f x = Ok (g x)) → map_list f xs = Ok (map g xs).
Proof.
  induction xs as [|x xs IH]; intros Hf; [done|].
  cbn. rewrite Hf by left. cbn. rewrite IH; [done|].
  intros y Hy. apply Hf. by right.
Qed.

Lemma index_in_range (n : nat) (i : Z) :
  (0 ≤ i < Z.of_nat n)%Z → index n i = Ok (Z.to_nat i).
Proof. intros H. unfold index. by rewrite bool_decide_eq_true_2. Qed.

Lemma getitem_in_range {A} (l : list A) (i : Z) (x : A) :
  (0 ≤ i)%Z → l !! Z.to_nat i = Some x → getitem l i = Ok x.
Proof.
  intros Hi Hx. unfold getitem.
  rewrite index_in_range; [cbn; by rewrite Hx|].
  apply lookup_lt_Some in Hx. lia.
Qed.

(** ** Integer-array assignment *)

Lemma length_written {A} (ws : list (Z * A)) (a : list A) :
  length (written a ws) = length a.
Proof.
  revert a. induction ws as [|[i v] ws IH]; intros a; [done|].
  cbn. unfold written in IH. by rewrite IH, length_insert.
Qed.

Lemma setitem_written {A} (idx : list Z) (vals : list A) (a : list A) :
  (∀ i v, (i, v) ∈ zip idx vals → (0 ≤ i < Z.of_nat (length a))%Z) →
  NpInt.setitem a idx vals = Ok (written a (zip idx vals)).
Proof.
  unfold NpInt.setitem. generalize (zip idx vals) as ws. intros ws. revert a.
  induction ws as [|[i v] ws IH]; intros a Hb; [done|].
  cbn. rewrite index_in_range by (eapply Hb; left). cbn.
  apply IH. intros i' v' Hin. rewrite length_insert. eapply Hb. by right.
Qed.

(** A position keeps a value that every assignment to it agrees with. *)
Lemma written_agree {A} (ws : list (Z * A)) (a : list A) (q : nat) (x : A) :
  (∀ i v, (i, v) ∈ ws → Z.to_nat i = q → v = x) →
  a !! q = Some x → written a ws !! q = Some x.
Proof.
  revert a. induction ws as [|[i v] ws IH]; intros a Hag Ha; [done|].
  cbn. apply IH.
  - intros i' v' Hin. apply Hag. by right.
  - destruct (decide (Z.to_nat i = q)) as [Heq|Hne].
    + rewrite (Hag i v) by (done || left). subst q.
      apply list_lookup_insert_eq. by apply lookup_lt_Some in Ha.
    + by rewrite list_lookup_insert_ne.
Qed.

(** A position assigned at least once, always with the same value, holds it. *)
Lemma written_hit {A} (ws : list (Z * A)) (a : list A) (q : nat) (x : A) :
  (∀ i v, (i, v) ∈ ws → Z.to_nat i = q → v = x) →
  (∃ i, (i, x) ∈ ws ∧ Z.to_nat i = q) → q < length a →
  written a ws !! q = Some x.
Proof.
  revert a. induction ws as [|[i v] ws IH]; intros a Hag [i0 [Hin Hq]] Hlt.
  - by apply elem_of_nil in Hin.
  - cbn. apply elem_of_cons in Hin as [Heq|Hin].
    + injection Heq as <- <-. apply written_agree.
      * intros i' v' Hin'. apply Hag. by right.
      * subst q. by apply list_lookup_insert_eq.
    + apply IH.
      * intros i' v' Hin'. apply Hag. by right.
      * eauto.
      * by rewrite length_insert.
Qed.

Lemma written_app {A} (ws1 ws2 : list (Z * A)) (a : list A) :
  written (written a ws1) ws2 = written a (ws1 ++ ws2).
Proof. unfold written. by rewrite foldl_app. Qed.

(** ** Offsets of the cells in the flat dof array *)

Lemma accumulate_from_lookup (l : list nat) (acc : nat) (c : nat) :
  c ≤ length l →
  (Z.of_nat acc :: NpInt.accumulate_from (Z.of_nat acc) (map Z.of_nat l)) !! c
  = Some (Z.of_nat (acc + sum_list (take c l))).
Proof.
  revert acc c. induction l as [|x l IH]; intros acc c Hc.
  - destruct c; [|cbn in Hc; lia]. cbn. f_equal. lia.
  - destruct c as [|c]; [cbn; f_equal; lia|].
    cbn [map NpInt.accumulate_from]. change (take (S c) (x :: l)) with (x :: take c l).
    cbn [sum_list sum_list_with]. rewrite <- Nat2Z.inj_add.
    cbn in Hc. change ((?a :: ?l') !! S c) with (l' !! c).
    rewrite IH by lia. unfold id. f_equal. lia.
Qed.

Lemma location_lookup (self : t) (c : nat) :
  c ≤ number_of_cells (mesh self) →
  (0%Z :: NpInt.accumulate (number_of_local_dofs self)) !! c = Some (Z.of_nat (offset self c)).
Proof.
  intros Hc. unfold NpInt.accumulate, number_of_local_dofs, offset.
  rewrite <- (map_map (fun n => n * p self) Z.of_nat).
  change 0%Z with (Z.of_nat 0).
  rewrite accumulate_from_lookup; [done|].
  by rewrite length_map.
Qed.

Lemma offset_S (self : t) (c n : nat) :
  number_of_edges_of_cells (mesh self) !! c = Some n →
  offset self (S c) = offset self c + n * p self.
Proof.
  intros Hn. unfold offset.
  erewrite take_S_r by (rewrite list_lookup_fmap, Hn; done).
  rewrite sum_list_with_app. cbn. unfold id. lia.
Qed.

Lemma offset_mono (self : t) (c c' : nat) :
  c ≤ c' → offset self c ≤ offset self c'.
Proof.
  intros Hle. unfold offset.
  replace c' with (c + (c' - c)) by lia.
  rewrite <- take_take_drop, sum_list_with_app. lia.
Qed.

Lemma position_lt (self : t) (c j k n : nat) :
  number_of_edges_of_cells (mesh self) !! c = Some n → j < n → k < p self →
  position self c j k < offset self (S c).
Proof.
  intros Hn Hj Hk. rewrite (offset_S _ _ _ Hn). unfold position. nia.
Qed.

Lemma position_inj (self : t) (c j k n c' j' k' n' : nat) :
  number_of_edges_of_cells (mesh self) !! c = Some n → j < n → k < p self →
  number_of_edges_of_cells (mesh self) !! c' = Some n' → j' < n' → k' < p self →
  position self c j k = position self c' j' k' →
  c = c' ∧ j = j' ∧ k = k'.
Proof.
  intros Hn Hj Hk Hn' Hj' Hk' Heq.
  assert (c = c') as ->.
  { pose proof (position_lt _ _ _ _ _ Hn Hj Hk).
    pose proof (position_lt _ _ _ _ _ Hn' Hj' Hk').
    destruct (decide (c < c')).
    - pose proof (offset_mono self (S c) c'). unfold position in *. lia.
    - destruct (decide (c' < c)); [|lia].
      pose proof (offset_mono self (S c') c). unfold position in *. lia. }
  split; [done|]. unfold position in Heq.
  assert (j = j') by nia. subst. lia.
Qed.

(** ** What a consistent mesh provides *)

Lemma slot_edge_Some (mesh : PolygonMesh) (c j : Z) (e : nat) :
  slot_edge mesh c j = Some e ↔
  (0 ≤ c)%Z ∧ (0 ≤ j)%Z ∧
  ∃ es, cell_to_edge mesh !! Z.to_nat c = Some es ∧ es !! Z.to_nat j = Some e.
Proof.
  unfold slot_edge.
  destruct (bool_decide_reflect (0 ≤ c ∧ 0 ≤ j)%Z) as [[Hc Hj]|Hn].
  - destruct (cell_to_edge mesh !! Z.to_nat c) as [es|] eqn:Hes; cbn.
    + split; [intros He; eauto 6|].
      intros (_ & _ & es' & [= <-] & He). done.
    + split; [done|]. intros (_ & _ & es' & [=] & _).
  - split; [done|]. intros (? & ? & _). lia.
Qed.

Section consistent_mesh.
Variable self : t.
Hypothesis consistent : mesh_consistent (mesh self) = true.

Lemma consistent_lengths :
  map length (cell_to_edge (mesh self)) = number_of_edges_of_cells (mesh self).
Proof using consistent.
  unfold mesh_consistent in consistent.
  apply andb_prop in consistent as [H1 _]. apply andb_prop in H1 as [H1 _].
  by apply bool_decide_eq_true in H1.
Qed.

Lemma consistent_edge (e : nat) (c0 c1 j0 j1 : Z) :
  edge_to_cell (mesh self) !! e = Some (c0, c1, j0, j1) →
  slot_edge (mesh self) c0 j0 = Some e ∧ slot_edge (mesh self) c1 j1 = Some e.
Proof using consistent.
  intros He. unfold mesh_consistent in consistent.
  apply andb_prop in consistent as [H1 _]. apply andb_prop in H1 as [_ H1].
  rewrite forallb_forall in H1.
  specialize (H1 (e, (c0, c1, j0, j1))). cbn in H1.
  apply andb_prop in H1 as [Ha Hb].
  - by apply bool_decide_eq_true in Ha, Hb.
  - apply list_elem_of_In. by apply (elem_of_lookup_imap_2 pair).
Qed.

Lemma consistent_cell (c j e : nat) (es : list nat) :
  cell_to_edge (mesh self) !! c = Some es → es !! j = Some e →
  ∃ c0 c1 j0 j1, edge_to_cell (mesh self) !! e = Some (c0, c1, j0, j1) ∧
    ((c0 = Z.of_nat c ∧ j0 = Z.of_nat j) ∨ (c1 = Z.of_nat c ∧ j1 = Z.of_nat j)).
Proof using consistent.
  intros Hes He. unfold mesh_consistent in consistent.
  apply andb_prop in consistent as [_ H1].
  rewrite forallb_forall in H1.
  assert (In (c, es) (imap pair (cell_to_edge (mesh self)))) as Hin
    by (apply list_elem_of_In; by apply (elem_of_lookup_imap_2 pair)).
  apply H1 in Hin. rewrite forallb_forall in Hin.
  assert (In (j, e) (imap pair es)) as Hin'
    by (apply list_elem_of_In; by apply (elem_of_lookup_imap_2 pair)).
  apply Hin in Hin'. unfold claims in Hin'.
  destruct (edge_to_cell (mesh self) !! e) as [[[[c0 c1] j0] j1]|]; [|done].
  exists c0, c1, j0, j1. split; [done|]. by apply bool_decide_eq_true in Hin'.
Qed.

(** A slot that holds edge [e] is a slot of the flat array. *)
Lemma slot_in_cell (c j : Z) (e : nat) :
  slot_edge (mesh self) c j = Some e →
  (0 ≤ c)%Z ∧ (0 ≤ j)%Z ∧
  ∃ n, number_of_edges_of_cells (mesh self) !! Z.to_nat c = Some n ∧ Z.to_nat j < n.
Proof using consistent.
  intros (Hc & Hj & es & Hes & He)%slot_edge_Some.
  split_and!; [done..|]. exists (length es). split.
  - by rewrite <- consistent_lengths, list_lookup_fmap, Hes.
  - by apply lookup_lt_Some in He.
Qed.

(** *** The two index arrays of [cell_to_dof] *)

Lemma is_side0 : is_side self side0.
Proof using consistent.
  intros e [[[c0 c1] j0] j1] He. by apply consistent_edge in He as [? _].
Qed.

Lemma is_side1 : is_side self side1.
Proof using consistent.
  intros e [[[c0 c1] j0] j1] He. by apply consistent_edge in He as [_ ?].
Qed.

Lemma slot_index_ok (side : Z * Z * Z * Z -> Z * Z) :
  is_side self side →
  slot_index self (0%Z :: NpInt.accumulate (number_of_local_dofs self)) side
  = Ok (map (slot_row self side) (edge_to_cell (mesh self))).
Proof using consistent.
  intros Hside. unfold slot_index. apply map_list_ok.
  intros r [e He]%list_elem_of_lookup.
  apply Hside in He. unfold slot_row. destruct (side r) as [c j]. cbn [fst snd] in *.
  apply slot_in_cell in He as (Hc & Hj & n & Hn & Hlt).
  erewrite getitem_in_range; [| done |].
  2:{ apply location_lookup. apply lookup_lt_Some in Hn. unfold number_of_cells. lia. }
  cbn. f_equal. apply map_ext. intros k. unfold position.
  by rewrite !Nat2Z.inj_add, Nat2Z.inj_mul, Z2Nat.id.
Qed.

Lemma zip_rows {A B C} (g : A -> list B) (h : nat -> list C) (rows : list A) (s : nat) :
  (∀ r e, length (g r) = length (h e)) →
  zip (concat (map g rows)) (concat (map h (seq s (length rows))))
  = concat (imap (fun e r => zip (g r) (h (s + e))) rows).
Proof.
  intros Hlen. revert s. induction rows as [|r rows IH]; intros s; [done|].
  cbn. rewrite zip_with_app by apply Hlen. rewrite IH. f_equal.
  - by rewrite Nat.add_0_r.
  - f_equal. apply imap_ext. intros e r' _. cbn. by rewrite Nat.add_succ_r.
Qed.

(** The assignments of one pass: every edge [e], every [k < p]. *)
Lemma pass_elem (side : Z * Z * Z * Z -> Z * Z) (i v : Z) :
  (i, v) ∈ zip (concat (map (slot_row self side) (edge_to_cell (mesh self))))
               (concat (edge_to_dof self)) ↔
  ∃ e r k, edge_to_cell (mesh self) !! e = Some r ∧ k < p self ∧
    i = Z.of_nat (position self (Z.to_nat (side r).1) (Z.to_nat (side r).2) k) ∧
    v = Z.of_nat (e * p self + k).
Proof.
  unfold edge_to_dof, number_of_edges. fold (dof_row self).
  change (fun e => dof_row self e) with (dof_row self).
  rewrite (zip_rows (slot_row self side) (dof_row self))
    by (intros; unfold slot_row, dof_row; by rewrite !length_map).
  rewrite list_elem_of_In, in_concat. split.
  - intros (l & Hl & Hin). apply list_elem_of_In, elem_of_lookup_imap in Hl as (e & r & -> & He).
    cbn in Hin. unfold slot_row, dof_row in Hin.
    rewrite zip_with_fmap_l, zip_with_fmap_r, zip_with_diag in Hin.
    apply list_elem_of_In, list_elem_of_fmap in Hin as (k & [= -> ->] & Hk).
    apply elem_of_seq in Hk. exists e, r, k. split_and!; [done|lia|done..].
  - intros (e & r & k & He & Hk & -> & ->).
    exists (zip (slot_row self side r) (dof_row self (0 + e))). split.
    + apply list_elem_of_In. by apply (elem_of_lookup_imap_2 (fun e r => zip (slot_row self side r) (dof_row self (0 + e)))).
    + unfold slot_row, dof_row.
      rewrite zip_with_fmap_l, zip_with_fmap_r, zip_with_diag.
      apply list_elem_of_In, list_elem_of_fmap. exists k. split; [done|].
      apply elem_of_seq. lia.
Qed.

(** *** The array [cell_to_dof] returns *)

Lemma pass_bound (side : Z * Z * Z * Z -> Z * Z) (i v : Z) :
  is_side self side → (i, v) ∈ pass self side → (0 ≤ i < Z.of_nat (total self))%Z.
Proof using consistent.
  intros Hside (e & r & k & He & Hk & -> & _)%pass_elem.
  apply Hside, slot_in_cell in He as (_ & _ & n & Hn & Hlt).
  pose proof (position_lt _ _ _ _ _ Hn Hlt Hk) as Hpos.
  pose proof (offset_mono self (S (Z.to_nat (side r).1)) (number_of_cells (mesh self))) as Hmono.
  apply lookup_lt_Some in Hn. unfold total, number_of_cells in *. lia.
Qed.

Lemma cell_to_dof_ok :
  cell_to_dof self
  = Ok (written (replicate (total self) 0%Z) (pass self side0 ++ pass self side1),
        0%Z :: NpInt.accumulate (number_of_local_dofs self)).
Proof using consistent.
  unfold cell_to_dof.
  assert (getitem (0%Z :: NpInt.accumulate (number_of_local_dofs self)) (-1)
          = Ok (Z.of_nat (total self))) as ->.
  { pose proof (location_lookup self (number_of_cells (mesh self)) (le_n _)) as Hl.
    pose proof (lookup_lt_Some _ _ _ Hl) as Hlen.
    unfold getitem, index.
    rewrite bool_decide_eq_false_2 by lia.
    assert (length (0%Z :: NpInt.accumulate (number_of_local_dofs self))
            = S (number_of_cells (mesh self))) as Hlen'.
    { cbn. f_equal. unfold NpInt.accumulate, number_of_local_dofs, number_of_cells.
      generalize 0%Z. induction (number_of_edges_of_cells (mesh self)) as [|x l IH];
        intros z; [done|]. cbn. by rewrite IH. }
    rewrite Hlen'. rewrite bool_decide_eq_true_2 by lia. cbn.
    replace (Z.to_nat (Z.of_nat (S (number_of_cells (mesh self))) + -1))
      with (number_of_cells (mesh self)) by lia.
    cbn in Hl. by rewrite Hl. }
  cbn. unfold NpInt.zeros. rewrite bool_decide_eq_false_2 by lia. cbn.
  rewrite Nat2Z.id.
  rewrite (slot_index_ok side0 is_side0). cbn. fold (pass self side0).
  rewrite setitem_written.
  2:{ intros i v Hin. rewrite length_replicate. by eapply pass_bound, Hin; apply is_side0. }
  cbn. rewrite (slot_index_ok side1 is_side1). cbn. fold (pass self side1).
  rewrite setitem_written.
  2:{ intros i v Hin. rewrite length_written, length_replicate.
      by eapply pass_bound, Hin; apply is_side1. }
  cbn. by rewrite written_app.
Qed.

(** Every slot of a cell holds the dof of the edge found there. *)
Lemma slot_value (c j e k : nat) (es : list nat) :
  cell_to_edge (mesh self) !! c = Some es → es !! j = Some e → k < p self →
  written (replicate (total self) 0%Z) (pass self side0 ++ pass self side1) !! position self c j k
  = Some (Z.of_nat (e * p self + k)).
Proof using consistent.
  intros Hes He Hk.
  assert (number_of_edges_of_cells (mesh self) !! c = Some (length es)) as Hn
    by (by rewrite <- consistent_lengths, list_lookup_fmap, Hes).
  pose proof (lookup_lt_Some _ _ _ He) as Hj.
  apply written_hit.
  - intros i v Hin Hq.
    assert (∃ side, is_side self side ∧ (i, v) ∈ pass self side) as (side & Hside & Hin').
    { apply elem_of_app in Hin as [?|?]; eauto using is_side0, is_side1. }
    apply pass_elem in Hin' as (e' & r & k' & He' & Hk' & -> & ->).
    rewrite Nat2Z.id in Hq.
    pose proof (Hside _ _ He') as Hslot.
    pose proof (slot_in_cell _ _ _ Hslot) as (_ & _ & n' & Hn' & Hlt').
    apply slot_edge_Some in Hslot as (_ & _ & es' & Hes' & Hee').
    destruct (position_inj _ _ _ _ _ _ _ _ _ Hn' Hlt' Hk' Hn Hj Hk Hq) as (Hc & Hjj & ->).
    rewrite Hc in Hes'. rewrite Hjj in Hee'. congruence.
  - destruct (consistent_cell _ _ _ _ Hes He) as (c0 & c1 & j0 & j1 & Hrow & Hor).
    exists (Z.of_nat (position self c j k)). split; [|by rewrite Nat2Z.id].
    apply elem_of_app. destruct Hor as [[Hc0 Hj0]|[Hc1 Hj1]]; [left|right];
      apply pass_elem; exists e, (c0, c1, j0, j1), k; subst; cbn; by rewrite !Nat2Z.id.
  - rewrite length_replicate.
    pose proof (position_lt _ _ _ _ _ Hn Hj Hk).
    pose proof (offset_mono self (S c) (number_of_cells (mesh self))).
    apply lookup_lt_Some in Hn. unfold total, number_of_cells in *. lia.
Qed.

End consistent_mesh.

Lemma edge_to_dof_lookup (self : t) (e k : nat) (row : list Z) (v : Z) :
  edge_to_dof self !! e = Some row → row !! k = Some v →
  e < number_of_edges (mesh self) ∧ row = dof_row self e ∧
  k < p self ∧ v = Z.of_nat (e * p self + k).
Proof.
  unfold edge_to_dof. intros Hrow Hv.
  apply list_lookup_fmap_Some in Hrow as (e' & -> & [-> He]%lookup_seq).
  apply list_lookup_fmap_Some in Hv as (k' & -> & [-> Hk]%lookup_seq).
  unfold number_of_edges. done.
Qed.

Lemma concat_rows_lookup {A} (rows : list (list A)) (n j k : nat) :
  Forall (fun r => length r = n) rows → k < n →
  concat rows !! (j * n + k) = rows !! j ≫= (.!! k).
Proof.
  intros Hlen Hk. revert j. induction Hlen as [|r rows Hr _ IH]; intros j; [done|].
  cbn [concat]. destruct j as [|j].
  - cbn. rewrite lookup_app_l by lia. done.
  - rewrite lookup_app_r by (cbn; lia).
    replace (S j * n + k - length r) with (j * n + k) by (cbn; lia).
    apply IH.
Qed.

Lemma concat_rows_length {A} (rows : list (list A)) (n : nat) :
  Forall (fun r => length r = n) rows → length (concat rows) = length rows * n.
Proof.
  induction 1 as [|r rows Hr _ IH]; [done|].
  cbn. rewrite length_app. lia.
Qed.

(** C4.  On a mesh whose [edge_to_cell] and [cell_to_edge] agree,
    [cell_to_dof] returns, and in the flat array it returns every edge [e] with
    row [(c0, c1, j0, j1)] has its dof [edge2dof[e, k]] at
    [cell2dofLocation[c0] + j0*p + k] and at [cell2dofLocation[c1] + j1*p + k];
    the slice of a cell between its two offsets is the concatenation of the dof
    rows of its edges, in local-edge order. *)
Theorem cell_to_dof_placement (self : t) :
  mesh_consistent (mesh self) = true →
  ∃ cell2dof cell2dofLocation,
    cell_to_dof self = Ok (cell2dof, cell2dofLocation) ∧
    (∀ e c0 c1 j0 j1 k row v,
       edge_to_cell (mesh self) !! e = Some (c0, c1, j0, j1) →
       edge_to_dof self !! e = Some row → row !! k = Some v →
       ∃ l0 l1,
         getitem cell2dofLocation c0 = Ok l0 ∧
         getitem cell2dofLocation c1 = Ok l1 ∧
         getitem cell2dof (l0 + j0 * Z.of_nat (p self) + Z.of_nat k) = Ok v ∧
         getitem cell2dof (l1 + j1 * Z.of_nat (p self) + Z.of_nat k) = Ok v) ∧
    (∀ c es,
       cell_to_edge (mesh self) !! c = Some es →
       ∃ l l' rows,
         cell2dofLocation !! c = Some l ∧ cell2dofLocation !! S c = Some l' ∧
         Forall2 (fun e row => edge_to_dof self !! e = Some row) es rows ∧
         slice cell2dof l l' = concat rows).
Proof.
  intros Hcons. eexists _, _. split; [by apply cell_to_dof_ok|]. split.
  - intros e c0 c1 j0 j1 k row v He Hrow Hv.
    destruct (edge_to_dof_lookup _ _ _ _ _ Hrow Hv) as (_ & _ & Hk & ->).
    assert (∀ c j, slot_edge (mesh self) c j = Some e →
              getitem (0%Z :: NpInt.accumulate (number_of_local_dofs self)) c
                = Ok (Z.of_nat (offset self (Z.to_nat c))) ∧
              getitem (written (replicate (total self) 0%Z)
                         (pass self side0 ++ pass self side1))
                      (Z.of_nat (offset self (Z.to_nat c)) + j * Z.of_nat (p self) + Z.of_nat k)
                = Ok (Z.of_nat (e * p self + k))) as Hslot.
    { intros c j Hs.
      pose proof (slot_in_cell self Hcons _ _ _ Hs) as (Hc & Hj & n & Hn & Hlt).
      apply slot_edge_Some in Hs as (_ & _ & es & Hes & Hee).
      split.
      - apply getitem_in_range; [done|]. apply location_lookup.
        apply lookup_lt_Some in Hn. unfold number_of_cells. lia.
      - apply getitem_in_range; [lia|].
        replace (Z.to_nat (Z.of_nat (offset self (Z.to_nat c)) + j * Z.of_nat (p self) + Z.of_nat k))
          with (position self (Z.to_nat c) (Z.to_nat j) k)
          by (unfold position;
              rewrite <- (Z2Nat.id j) at 2 by done;
              rewrite <- Nat2Z.inj_mul, <- !Nat2Z.inj_add, Nat2Z.id; done).
        by eapply slot_value. }
    destruct (consistent_edge self Hcons _ _ _ _ _ He) as [Hs0 Hs1].
    destruct (Hslot _ _ Hs0) as [Hl0 Hv0]. destruct (Hslot _ _ Hs1) as [Hl1 Hv1].
    eauto 10.
  - intros c es Hes.
    assert (number_of_edges_of_cells (mesh self) !! c = Some (length es)) as Hn
      by (by rewrite <- (consistent_lengths self Hcons), list_lookup_fmap, Hes).
    pose proof (lookup_lt_Some _ _ _ Hn) as Hc.
    exists (Z.of_nat (offset self c)), (Z.of_nat (offset self (S c))), (map (dof_row self) es).
    assert (Forall (fun r => length r = p self) (map (dof_row self) es)) as Hrows.
    { apply Forall_fmap, Forall_true. intros e. unfold compose, dof_row.
      by rewrite length_map, length_seq. }
    split_and!.
    + apply location_lookup. unfold number_of_cells. lia.
    + apply location_lookup. unfold number_of_cells. lia.
    + apply Forall2_fmap_r, Forall2_same_length_lookup_2; [done|].
      intros j e e' He He'. assert (e' = e) as -> by congruence. cbn.
      destruct (consistent_cell self Hcons _ _ _ _ Hes He) as (c0 & c1 & j0 & j1 & Hrow & _).
      unfold edge_to_dof. rewrite list_lookup_fmap, lookup_seq_lt; [done|].
      by apply lookup_lt_Some in Hrow.
    + pose proof (offset_S _ _ _ Hn) as HS.
      pose proof (offset_mono self (S c) (number_of_cells (mesh self))) as Hmono.
      unfold slice, clamp. rewrite !bool_decide_eq_false_2 by lia.
      rewrite length_written, length_replicate, !Nat2Z.id.
      fold (total self). unfold total. unfold number_of_cells in *.
      rewrite !Nat.min_r by lia.
      replace (offset self (S c) - offset self c) with (length es * p self) by lia.
      apply list_eq. intros i.
      destruct (decide (i < length es * p self)) as [Hi|Hi].
      * rewrite lookup_take_lt by done. rewrite lookup_drop.
        assert (0 < p self) as Hp by nia.
        pose proof (Nat.div_mod_eq i (p self)) as Hdm.
        pose proof (Nat.mod_upper_bound i (p self)) as Hmod.
        assert (i `div` p self < length es) as Hdiv
          by (apply Nat.Div0.div_lt_upper_bound; lia).
        destruct (lookup_lt_is_Some_2 es _ Hdiv) as [e He].
        replace i with (i `div` p self * p self + i `mod` p self) at 2 by lia.
        rewrite (concat_rows_lookup _ (p self)) by (done || lia).
        rewrite list_lookup_fmap, He. cbn. unfold dof_row at 1.
        rewrite list_lookup_fmap, lookup_seq_lt by lia. cbn.
        replace (offset self c + i)
          with (position self c (i `div` p self) (i `mod` p self))
          by (unfold position; lia).
        apply (slot_value self Hcons _ _ _ _ _ Hes He). lia.
      * rewrite lookup_take_ge by lia. symmetry. apply lookup_ge_None.
        rewrite (concat_rows_length _ (p self)) by done. rewrite length_map. lia.
Qed.

(** [cell_to_dof_placement] on the two triangles, degree 2. *)
Lemma cell_to_dof_placement_witness :
  ∃ cell2dof cell2dofLocation,
    cell_to_dof {| p := 2; mesh := two_triangles |} = Ok (cell2dof, cell2dofLocation) ∧
    getitem cell2dof (0 + 2 * 2 + 1)%Z = Ok 5%Z ∧
    getitem cell2dof (6 + 0 * 2 + 1)%Z = Ok 5%Z.
Proof.
  destruct (cell_to_dof_placement {| p := 2; mesh := two_triangles |} eq_refl)
    as (cell2dof & loc & Hrun & Hedge & _).
  exists cell2dof, loc. split; [exact Hrun|].
  destruct (Hedge 2 0%Z 1%Z 2%Z 0%Z 1 [4; 5]%Z 5%Z eq_refl eq_refl eq_refl)
    as (l0 & l1 & Hl0 & Hl1 & Hv0 & Hv1).
  vm_compute in Hrun. injection Hrun as <- <-.
  vm_compute in Hl0, Hl1. injection Hl0 as <-. injection Hl1 as <-.
  split; [exact Hv0 | exact Hv1].
Defined.

End dof_manager.


(** ** The mass integrator: what a call does to [out] *)

Section mass_integrator.
Context {F : Type} `{Scalar F}.
Import Np Store ScalarMassIntegrator.

Lemma result_bind_assoc {A B C} (r : result A) (f : A -> result B) (g : B -> result C) :
  (r ≫= f) ≫= g = r ≫= (fun a => f a ≫= g).
Proof. by destruct r. Qed.

Lemma result_fmap_bind {A B C} (r : result A) (f : A -> B) (g : B -> result C) :
  (f <$> r) ≫= g = r ≫= (fun a => g (f a)).
Proof. by destruct r. Qed.

Ltac step_binds :=
  repeat first
    [ done
    | case_bool_decide
    | match goal with
      | |- context [mbind _ ?r] => is_var r; destruct r; cbn
      | |- context [mbind _ (einsum ?s ?l)] => destruct (einsum s l); cbn
      | |- context [mbind _ (iadd_at ?h ?m ?v)] => destruct (iadd_at h m v); cbn
      | |- context [mbind _ (lookup_data ?d ?k)] => destruct (lookup_data d k); cbn
      | |- context [match ?v with Number _ => _ | _ => _ end] => is_var v; destruct v; cbn
      end ].

(** With [out] given, the call is: compute the increment, add it to the
    array [out] refers to, return [None]. *)
Lemma assembly_cell_matrix_out (self : t F) (space : FunctionSpace F)
    (cellmeasure : option (ndarray F)) (out : ref) (h : store) :
  assembly_cell_matrix self space cellmeasure (Some out) h
  = (cm ← cell_measure space cellmeasure;
     NC ← len cm;
     v ← MassIncrement.standard self space cm NC;
     h' ← iadd_at h out v;
     Ok (None, h')).
Proof.
  unfold assembly_cell_matrix, MassIncrement.standard, evaluate.
  destruct (cell_measure space cellmeasure) as [cm|]; [cbn|done].
  destruct (len cm) as [NC|]; [cbn|done].
  destruct (coef self) as [|[c|a|]|[ct|] [c0|a0|] a b c]; step_binds.
Qed.

(** Without [out], the call is: allocate zeros, compute the increment, add
    it to the new array, return the new reference. *)
Lemma assembly_cell_matrix_fresh (self : t F) (space : FunctionSpace F)
    (cellmeasure : option (ndarray F)) (h : store) :
  assembly_cell_matrix self space cellmeasure None h
  = (cm ← cell_measure space cellmeasure;
     NC ← len cm;
     let '(M, h0) := alloc h (zeros [NC; number_of_local_dofs space; number_of_local_dofs space]) in
     v ← MassIncrement.standard self space cm NC;
     h' ← iadd_at h0 M v;
     Ok (Some M, h')).
Proof.
  unfold assembly_cell_matrix, MassIncrement.standard, evaluate.
  destruct (cell_measure space cellmeasure) as [cm|]; [cbn|done].
  destruct (len cm) as [NC|]; [cbn|done].
  destruct (coef self) as [|[c|a|]|[ct|] [c0|a0|] a b c]; step_binds.
Qed.

Lemma assembly_cell_matrix_fast_out (data : gmap string (ndarray F)) (self : t F)
    (space : FunctionSpace F) (trialspace testspace coefspace : option (FunctionSpace F))
    (cellmeasure : option (ndarray F)) (out : ref) (h : store) :
  assembly_cell_matrix_fast data self space trialspace testspace coefspace
    cellmeasure (Some out) h
  = (cm ← cell_measure space cellmeasure;
     NC ← len cm;
     v ← MassIncrement.fast data self space trialspace testspace coefspace cm NC;
     h' ← iadd_at h out v;
     Ok (None, h')).
Proof.
  unfold assembly_cell_matrix_fast, MassIncrement.fast, MassIncrement.fast_spaces, interpolate.
  destruct trialspace, testspace, coefspace; cbn;
    (destruct (cell_measure space cellmeasure) as [cm|]; [cbn|done]);
    (destruct (len cm) as [NC|]; [cbn|done]);
    destruct (coef self) as [|[c|a|]|ct it a b c]; step_binds.
Qed.

Lemma assembly_cell_matrix_fast_fresh (data : gmap string (ndarray F)) (self : t F)
    (space : FunctionSpace F) (trialspace testspace coefspace : option (FunctionSpace F))
    (cellmeasure : option (ndarray F)) (h : store) :
  assembly_cell_matrix_fast data self space trialspace testspace coefspace
    cellmeasure None h
  = (cm ← cell_measure space cellmeasure;
     NC ← len cm;
     let '(_, TSFldof, TAFldof, _) :=
       MassIncrement.fast_spaces self space trialspace testspace coefspace in
     let '(M, h0) := alloc h (zeros [NC; TSFldof; TAFldof]) in
     v ← MassIncrement.fast data self space trialspace testspace coefspace cm NC;
     h' ← iadd_at h0 M v;
     Ok (Some M, h')).
Proof.
  unfold assembly_cell_matrix_fast, MassIncrement.fast, MassIncrement.fast_spaces, interpolate.
  destruct trialspace, testspace, coefspace; cbn;
    (destruct (cell_measure space cellmeasure) as [cm|]; [cbn|done]);
    (destruct (len cm) as [NC|]; [cbn|done]);
    destruct (coef self) as [|[c|a|]|ct it a b c]; step_binds.
Qed.

(** Adding to a stored array changes that entry of the store and no other. *)
Lemma iadd_at_Some (h h' : store) (M : ref) (v : ndarray F) :
  iadd_at h M v = Ok h' →
  ∃ a b, h !! M = Some a ∧ broadcast_to v (shape a) = Ok b ∧
         h' = <[M := NDArray (shape a) (zip_with fadd (data a) (data b))]> h.
Proof.
  unfold iadd_at, iadd. destruct (h !! M) as [a|]; [|done].
  destruct (broadcast_to v (shape a)) as [b|] eqn:Hb; [|done].
  cbn. intros [= <-]. by exists a, b.
Qed.

End mass_integrator.


Section mass_frame.
Context {F : Type} `{Scalar F}.
Import Np Store ScalarMassIntegrator.

Lemma iadd_at_stored (h : store) (M : ref) (a v : ndarray F) :
  h !! M = Some a →
  iadd_at h M v
  = (b ← broadcast_to v (shape a);
     Ok (<[M := NDArray (shape a) (zip_with fadd (data a) (data b))]> h)).
Proof. intros Ha. unfold iadd_at, iadd. rewrite Ha. by destruct (broadcast_to _ _). Qed.

Lemma iadd_at_alloc (h : store) (z v : ndarray F) :
  iadd_at (h ++ [z]) (length h) v
  = (b ← broadcast_to v (shape z);
     Ok (h ++ [NDArray (shape z) (zip_with fadd (data z) (data b))])).
Proof.
  rewrite (iadd_at_stored _ _ z) by apply list_lookup_middle, eq_refl.
  destruct (broadcast_to _ _); [cbn|done].
  f_equal. pose proof (insert_app_r_alt (A:=ndarray F) h [z] (length h)) as Hi.
  rewrite Nat.sub_diag in Hi. apply Hi. done.
Qed.

(** C10.  With [out] supplied, a call of [assembly_cell_matrix] or of
    [assembly_cell_matrix_fast] that completes returns [None], and the store
    differs from the one before only at [out], where the cell matrices
    (broadcast to the shape of [out]) are added entrywise to what was there;
    with [out] absent it returns a reference that was not in the store, to
    an array of shape (cells, test local dofs, trial local dofs) that is the
    zero array plus the cell matrices, and nothing that was in the store
    changes.  A call that does not complete raises what the computation of
    the cell matrices, or their addition, raises. *)
Theorem assembly_out_in_place (table : gmap string (ndarray F)) (self : t F)
    (space : FunctionSpace F) (trialspace testspace coefspace : option (FunctionSpace F))
    (cellmeasure : option (ndarray F)) (h : store) (out : ref) (a : ndarray F) :
  h !! out = Some a →
  assembly_cell_matrix self space cellmeasure (Some out) h
  = (cm ← cell_measure space cellmeasure;
     NC ← len cm;
     v ← MassIncrement.standard self space cm NC;
     b ← broadcast_to v (shape a);
     Ok (None, <[out := NDArray (shape a) (zip_with fadd (data a) (data b))]> h))
  ∧ assembly_cell_matrix_fast table self space trialspace testspace coefspace
      cellmeasure (Some out) h
  = (cm ← cell_measure space cellmeasure;
     NC ← len cm;
     v ← MassIncrement.fast table self space trialspace testspace coefspace cm NC;
     b ← broadcast_to v (shape a);
     Ok (None, <[out := NDArray (shape a) (zip_with fadd (data a) (data b))]> h))
  ∧ assembly_cell_matrix self space cellmeasure None h
  = (cm ← cell_measure space cellmeasure;
     NC ← len cm;
     let sh := [NC; number_of_local_dofs space; number_of_local_dofs space] in
     v ← MassIncrement.standard self space cm NC;
     b ← broadcast_to v sh;
     Ok (Some (length h), h ++ [NDArray sh (zip_with fadd (data (zeros sh)) (data b))]))
  ∧ assembly_cell_matrix_fast table self space trialspace testspace coefspace
      cellmeasure None h
  = (cm ← cell_measure space cellmeasure;
     NC ← len cm;
     let '(_, TSFldof, TAFldof, _) :=
       MassIncrement.fast_spaces self space trialspace testspace coefspace in
     let sh := [NC; TSFldof; TAFldof] in
     v ← MassIncrement.fast table self space trialspace testspace coefspace cm NC;
     b ← broadcast_to v sh;
     Ok (Some (length h), h ++ [NDArray sh (zip_with fadd (data (zeros sh)) (data b))])).
Proof.
  intros Ha. split_and!.
  - rewrite assembly_cell_matrix_out.
    destruct (cell_measure space cellmeasure) as [cm|]; [|done].
    cbv [mbind result_bind]. destruct (len cm) as [NC|]; [|done].
    destruct (MassIncrement.standard self space cm NC) as [v|]; [|done].
    rewrite (iadd_at_stored _ _ a) by done. by destruct (broadcast_to _ _).
  - rewrite assembly_cell_matrix_fast_out.
    destruct (cell_measure space cellmeasure) as [cm|]; [|done].
    cbv [mbind result_bind]. destruct (len cm) as [NC|]; [|done].
    destruct (MassIncrement.fast table self space trialspace testspace coefspace cm NC)
      as [v|]; [|done].
    rewrite (iadd_at_stored _ _ a) by done. by destruct (broadcast_to _ _).
  - rewrite assembly_cell_matrix_fresh.
    destruct (cell_measure space cellmeasure) as [cm|]; [|done].
    cbv [mbind result_bind alloc]. destruct (len cm) as [NC|]; [|done].
    destruct (MassIncrement.standard self space cm NC) as [v|]; [|done].
    rewrite iadd_at_alloc. by destruct (broadcast_to _ _).
  - rewrite assembly_cell_matrix_fast_fresh.
    destruct (cell_measure space cellmeasure) as [cm|]; [|done].
    cbv [mbind result_bind alloc]. destruct (len cm) as [NC|]; [|done].
    destruct (MassIncrement.fast_spaces self space trialspace testspace coefspace)
      as [[[? TSFldof] TAFldof] ?].
    destruct (MassIncrement.fast table self space trialspace testspace coefspace cm NC)
      as [v|]; [|done].
    rewrite iadd_at_alloc. by destruct (broadcast_to _ _).
Qed.

End mass_frame.

(** [assembly_out_in_place] on the example space, with an array of ones as
    [out]. *)
Lemma assembly_out_in_place_witness :
  ScalarMassIntegrator.assembly_cell_matrix
    (ScalarMassIntegrator.init ScalarMassIntegrator.CoefNone None)
    example_space None (Some 0) [example_ones]
  = Ok (None, [Np.NDArray [2; 2; 2] [4; 7; 7; 13; 7; 13; 13; 25]%Z])
  ∧ ScalarMassIntegrator.assembly_cell_matrix
      (ScalarMassIntegrator.init ScalarMassIntegrator.CoefNone None)
      example_space None None [example_ones]
  = Ok (Some 1, [example_ones; Np.NDArray [2; 2; 2] [3; 6; 6; 12; 6; 12; 12; 24]%Z]).
Proof.
  destruct (assembly_out_in_place example_data
              (ScalarMassIntegrator.init ScalarMassIntegrator.CoefNone None)
              example_space None None None None [example_ones] 0 example_ones eq_refl)
    as (Hout & _ & Hfresh & _).
  split.
  - etransitivity; [exact Hout|]. vm_compute. reflexivity.
  - etransitivity; [exact Hfresh|]. vm_compute. reflexivity.
Defined.


(** ** The mass integrator: which coefficients are refused *)


Section coefficient_shapes.
Context {F : Type} `{Scalar F}.
Import Np Store ScalarMassIntegrator.

(** *** The lengths [einsum] gives the labels *)






(** *** [einsum] under the subscripts [q, qc, qci, qcj, c -> cij] *)






End coefficient_shapes.



(** * The space: what its methods return *)

(** ** Calls that raise *)

Lemma raises_bind {A B} (r : result A) (f : A -> result B) :
  (∀ a, r = Ok a → raises (f a)) → raises (r ≫= f).
Proof.
  intros Hf. destruct r as [a|e]; [by apply Hf|]. by exists e.
Qed.

Lemma raises_bind_l {A B} (r : result A) (f : A -> result B) :
  raises r → raises (r ≫= f).
Proof. intros [e ->]. by exists e. Qed.

Lemma raises_not_Ok {A} (r : result A) (a : A) : raises r → r ≠ Ok a.
Proof. by intros [e ->]. Qed.

Lemma bind_Ok {A B} (r : result A) (f : A -> result B) (b : B) :
  r ≫= f = Ok b → ∃ a, r = Ok a ∧ f a = Ok b.
Proof. destruct r as [a|e]; [eauto|done]. Qed.

Lemma map_list_raises {A B} (f : A -> result B) (x : A) (xs : list A) :
  raises (f x) → raises (map_list f (x :: xs)).
Proof. intros Hx. cbn. by apply raises_bind_l. Qed.

Lemma getitem_out_of_range {A} (l : list A) (i : Z) :
  (Z.of_nat (length l) ≤ i)%Z → getitem l i = Raise IndexError.
Proof.
  intros Hi. unfold getitem, index.
  by rewrite !bool_decide_eq_false_2 by lia.
Qed.

Lemma load_name_unbound {A} (scope : list (string * A)) (x : string) :
  x ∉ scope.*1 → load_name scope x = Raise NameError.
Proof.
  intros Hx. unfold load_name.
  destruct (list_find _ scope) as [[i [y v]]|] eqn:Hfind; [|done].
  apply list_find_Some in Hfind as (Hi & Hy & _). cbn in Hy. subst y.
  destruct Hx. apply list_elem_of_fmap. exists (x, v). split; [done|].
  by eapply list_elem_of_lookup_2.
Qed.

(** The steps of a method up to the one that raises: each earlier call
    either raises or returns, whatever it returns. *)
Ltac open_pairs :=
  repeat match goal with
         | |- context [match ?x with pair _ _ => _ end] => is_var x; destruct x
         end.
Ltac pass_call := apply raises_bind; intros ? _; cbn beta; open_pairs.

Section space_properties.
Context {F : Type} `{Scalar F} {Forcing : Type}.
Import Np ReducedDivFreeNonConformingVirtualElementSpace2d.
Variable call : string -> list (operand F Forcing) -> result (ndarray F).

(** ** [matrix_Q_L] *)

Lemma matrix_Q_L_above_two (self : t F) :
  2 < p self → matrix_Q_L call self = Raise AttributeError.
Proof.
  intros Hp. unfold matrix_Q_L.
  rewrite bool_decide_eq_true_2 by lia.
  assert (getattr attributes "index1" = Raise AttributeError) as ->
    by (vm_compute; reflexivity).
  reflexivity.
Qed.

(** C3.  [matrix_Q_L] returns [(None, None)] for every degree [p <= 2];
    for every [p > 2] it returns nothing: it raises [AttributeError], at
    [self.index1], a name the space does not have. *)
Theorem matrix_Q_L_result (self : t F) :
  matrix_Q_L call self
  = if bool_decide (p self ≤ 2) then Ok (None, None) else Raise AttributeError.
Proof.
  case_bool_decide as Hp.
  - unfold matrix_Q_L. by rewrite bool_decide_eq_false_2 by lia.
  - apply matrix_Q_L_above_two. lia.
Qed.

(** The constructor calls [matrix_Q_L]: no space of degree [p > 2] is built. *)
Lemma init_above_two (mesh : PolygonMesh) (p : nat) (smspace : ScaledMonomialSpace2d F) :
  2 < p → raises (init call mesh p smspace).
Proof.
  intros Hp. unfold init.
  do 5 pass_call.
  apply raises_bind_l. rewrite matrix_Q_L_above_two by (cbn; lia).
  by exists AttributeError.
Qed.

(** ** [source_vector] *)

Lemma cell_to_dof_cell (self : t F) :
  ∃ rows, cell_to_dof self (Str "cell" true) = Rows rows.
Proof. eexists. reflexivity. Qed.

Lemma number_of_global_dofs_nonneg (self : t F) :
  ¬ (number_of_global_dofs self < 0)%Z.
Proof.
  unfold number_of_global_dofs. case_bool_decide as Hp; [|nia].
  match goal with |- context [(?a `div` 2)%Z] => pose proof (Z.div_pos a 2) end.
  nia.
Qed.

(** The load vector [b] has one axis; [b[cell2dof, :]] indexes two. *)
Lemma source_vector_index_error (self : t F) (f : Forcing) :
  (∀ expression operands, ∃ a, call expression operands = Ok a) →
  source_vector call self f = Raise IndexError.
Proof.
  intros Hcall. unfold source_vector.
  repeat match goal with
         | |- context [call ?s ?ops] =>
             let a := fresh "a" in destruct (Hcall s ops) as [a ->]; cbn [mbind result_bind]
         end.
  destruct (cell_to_dof_cell self) as [rows ->].
  unfold NpArray.zeros. cbn [existsb].
  rewrite bool_decide_eq_false_2; [reflexivity|].
  apply number_of_global_dofs_nonneg.
Qed.

(** C7.  [source_vector(f)] returns no load vector: for every space and
    every forcing function the call raises. *)
Theorem source_vector_raises (self : t F) (f : Forcing) :
  raises (source_vector call self f).
Proof.
  unfold source_vector. do 4 pass_call.
  destruct (cell_to_dof_cell self) as [rows ->].
  apply raises_bind. intros b Hb. apply raises_bind_l.
  unfold NpArray.zeros in Hb. destruct (existsb _ _); [done|].
  injection Hb as <-. by exists IndexError.
Qed.

(** ** [matrix_P] *)

(** [NE] is bound neither in [f0], nor in [matrix_P], nor in the module. *)
Lemma matrix_P_name_error (self : t F) (cd1 : list (list Z)) :
  0 < number_of_cells (mesh self) →
  2 ≤ length (cell2dofLocation self) →
  sm_cell_to_dof (smspace self) (Z.of_nat (p self) - 1) = Ok cd1 →
  matrix_P call self = Raise NameError.
Proof.
  intros HNC Hloc Hcd1. unfold matrix_P. rewrite Hcd1. cbn [mbind result_bind].
  unfold range. destruct (number_of_cells (mesh self)) as [|NC]; [lia|].
  cbn [seq map_list mbind result_bind].
  destruct (cell2dofLocation self) as [|lo [|hi loc]]; cbn in Hloc; [lia..|].
  change (Z.of_nat 0) with 0%Z. change (0 + 1)%Z with 1%Z.
  rewrite (getitem_in_range _ 0 lo), (getitem_in_range _ 1 hi) by (done || lia).
  reflexivity.
Qed.

(** C6.  [matrix_P()] returns no matrix: for every space, of every degree,
    the call raises. *)
Theorem matrix_P_raises (self : t F) : raises (matrix_P call self).
Proof.
  unfold matrix_P. pass_call. unfold range.
  destruct (number_of_cells (mesh self)) as [|NC].
  - cbn. by exists ValueError.
  - apply raises_bind_l, map_list_raises. do 2 pass_call.
    apply raises_bind_l. rewrite load_name_unbound; [by exists NameError|].
    apply (bool_decide_unpack _). vm_compute. exact I.
Qed.

(** ** [matrix_M] *)

Lemma count_true_pos (l : list bool) (i : nat) :
  l !! i = Some true → 0 < count_true l.
Proof.
  intros Hi. unfold count_true.
  assert (true ∈ filter (fun b => b = true) l) as Hin
    by (apply list_elem_of_filter; split; [done|by eapply list_elem_of_lookup_2]).
  destruct (filter _ l); [by apply elem_of_nil in Hin|cbn; lia].
Qed.

(** The subscripts of [F1] name four operands; six are passed. *)
Lemma einsum_F1 (ws phi1 phi eh ch1 : ndarray F) :
  einsum "i, ijm, ijn, j->jmn" [ws; phi1; phi; eh; eh; ch1] = Raise ValueError.
Proof. vm_compute. reflexivity. Qed.

(** C5.  On a mesh with an interior edge, one whose row of [edge2cell]
    names two distinct cells, [matrix_M] returns no blocks: the call raises
    before the second cell's term is subtracted anywhere. *)
Theorem matrix_M_interior_edge (self : t F) (e : nat) (c0 c1 j0 j1 : Z) :
  edge_to_cell (mesh self) !! e = Some (c0, c1, j0, j1) → c0 ≠ c1 →
  raises (matrix_M call self).
Proof.
  intros He Hc.
  assert (0 < count_true (is_in_edge (edge_to_cell (mesh self)))) as Hin.
  { apply (count_true_pos _ e). unfold is_in_edge.
    rewrite list_lookup_fmap, He. cbn. by rewrite bool_decide_eq_true_2. }
  unfold matrix_M. cbv zeta.
  repeat lazymatch goal with
         | |- raises (mbind _ (if bool_decide (0 < count_true _) then _ else _)) => fail
         | |- raises (mbind _ _) => pass_call
         end.
  apply raises_bind_l. rewrite bool_decide_eq_true_2 by done.
  do 3 pass_call. apply raises_bind_l. rewrite einsum_F1. by exists ValueError.
Qed.

(** ** [matrix_A] *)

(** [matrix_R_J] packs three blocks into [J]. *)
Lemma matrix_R_J_blocks (self : t F) (R : list (list (ndarray F))) (J : list (ndarray F)) :
  matrix_R_J call self = Ok (R, J) → length J = 3.
Proof.
  unfold matrix_R_J. cbv zeta. intros HJ.
  repeat (apply bind_Ok in HJ as (? & _ & HJ)).
  by injection HJ as <- <-.
Qed.

(** The space the constructor returns has the [J] of [matrix_R_J]. *)
Lemma init_blocks (mesh : PolygonMesh) (p : nat) (smspace : ScaledMonomialSpace2d F)
    (self : t F) :
  init call mesh p smspace = Ok self → length (J self) = 3.
Proof.
  unfold init. cbv zeta. intros Hinit.
  repeat match type of Hinit with
         | mbind _ (matrix_R_J _ _) = Ok _ => fail 1
         | _ => apply bind_Ok in Hinit as (? & _ & Hinit); cbn beta in Hinit;
                repeat match type of Hinit with
                       | context [match ?x with pair _ _ => _ end] => is_var x; destruct x
                       end
         end.
  apply bind_Ok in Hinit as ([R J] & HRJ & Hinit).
  apply matrix_R_J_blocks in HRJ.
  repeat (apply bind_Ok in Hinit as (? & _ & Hinit)).
  by injection Hinit as <-.
Qed.

(** [self.J[3]] on a list of three blocks. *)
Lemma matrix_A_three_blocks (self : t F) :
  length (J self) ≤ 3 → raises (matrix_A call self).
Proof.
  intros HJ. unfold matrix_A. cbv zeta.
  repeat lazymatch goal with
         | |- raises (mbind _ (map_list _ (range _))) => fail
         | |- raises (mbind _ _) => pass_call
         end.
  unfold range. destruct (number_of_cells (mesh self)) as [|NC].
  - cbn. by exists ValueError.
  - apply raises_bind_l, map_list_raises.
    repeat lazymatch goal with
           | |- raises (mbind _ (block_of_cell (J self) 3 _)) => fail
           | |- raises (mbind _ _) => pass_call
           end.
    apply raises_bind_l. unfold block_of_cell.
    rewrite getitem_out_of_range by lia. by exists IndexError.
Qed.

(** [matrix_A] ends in a bare [return]. *)
Lemma matrix_A_returns_none (self : t F) (A : option (Sparse.matrix F)) :
  matrix_A call self = Ok A → A = None.
Proof.
  unfold matrix_A. cbv zeta. intros HA.
  repeat (apply bind_Ok in HA as (? & _ & HA); cbn beta in HA;
          repeat match type of HA with
                 | context [match ?x with pair _ _ => _ end] => is_var x; destruct x
                 end).
  by injection HA as <-.
Qed.

(** C1.  On a space the constructor has built, [matrix_A()] returns no
    matrix: the call raises. *)
Theorem matrix_A_raises (mesh : PolygonMesh) (p : nat)
    (smspace : ScaledMonomialSpace2d F) (self : t F) :
  init call mesh p smspace = Ok self → raises (matrix_A call self).
Proof.
  intros Hinit. apply matrix_A_three_blocks.
  by rewrite (init_blocks _ _ _ _ Hinit).
Qed.

(** ** The attributes of a constructed space *)

(** The dof manager of a constructed space is that of its mesh and degree. *)
Lemma init_dof (mesh0 : PolygonMesh) (p0 : nat) (smspace0 : ScaledMonomialSpace2d F)
    (self : t F) :
  init call mesh0 p0 smspace0 = Ok self →
  p self = p0 ∧ mesh self = mesh0 ∧
  dof self = {| RDFNCVEMDof2d.p := p0; RDFNCVEMDof2d.mesh := mesh0 |}.
Proof.
  unfold init. cbv zeta. intros Hinit.
  repeat (apply bind_Ok in Hinit as (? & _ & Hinit); cbn beta in Hinit;
          repeat match type of Hinit with
                 | context [match ?x with pair _ _ => _ end] => is_var x; destruct x
                 end).
  by injection Hinit as <-.
Qed.

End space_properties.


(** ** [boundary_dof] *)

Lemma zip_replicate {A B} (l : list A) (x : B) :
  zip l (replicate (length l) x) = (fun i => (i, x)) <$> l.
Proof. induction l as [|i l IH]; [done|]. cbn. by rewrite IH. Qed.

Section boundary.
Import RDFNCVEMDof2d.
Variable d : t.
Hypothesis flags : length (boundary_edge_flag (mesh d)) = number_of_edges (mesh d).

(** The dofs [edge2dof[isBdEdge]] selects. *)
Lemma boundary_rows_elem (i : Z) :
  i ∈ concat (omap (fun '(b, x) => if b : bool then Some x else None)
                (zip (boundary_edge_flag (mesh d)) (edge_to_dof d)))
  ↔ ∃ e k, boundary_edge_flag (mesh d) !! e = Some true ∧ k < p d ∧
           i = Z.of_nat (e * p d + k).
Proof using flags.
  rewrite list_elem_of_In, in_concat. split.
  - intros (row & Hrow & Hi).
    apply list_elem_of_In, list_elem_of_omap in Hrow as ([b row'] & Hz & Hf).
    destruct b; [|done]. injection Hf as ->.
    apply elem_of_lookup_zip_with in Hz as (e & b & r & [= <- <-] & Hb & Hr).
    apply list_elem_of_In, list_elem_of_lookup in Hi as [k Hk].
    destruct (edge_to_dof_lookup _ _ _ _ _ Hr Hk) as (_ & _ & Hkp & ->). eauto.
  - intros (e & k & Hb & Hk & ->). exists (dof_row d e). split.
    + apply list_elem_of_In, list_elem_of_omap. exists (true, dof_row d e).
      split; [|done]. apply elem_of_lookup_zip_with. exists e, true, (dof_row d e).
      split_and!; [done..|]. unfold edge_to_dof.
      rewrite list_lookup_fmap, lookup_seq_lt; [done|].
      apply lookup_lt_Some in Hb. lia.
    + apply list_elem_of_In, list_elem_of_fmap. exists k. split; [done|].
      apply elem_of_seq. lia.
Qed.

Lemma boundary_dof_ok :
  ∃ mask, boundary_dof d = Ok mask ∧
    length mask = number_of_edges (mesh d) * p d ∧
    ∀ e k, e < number_of_edges (mesh d) → k < p d →
           mask !! (e * p d + k) = boundary_edge_flag (mesh d) !! e.
Proof using flags.
  unfold boundary_dof, NpInt.getitem_mask.
  rewrite bool_decide_eq_true_2
    by (unfold edge_to_dof; by rewrite length_map, length_seq).
  cbn [mbind result_bind]. rewrite setitem_written.
  2:{ intros i v Hin. apply elem_of_zip_l, boundary_rows_elem in Hin as (e & k & Hb & Hk & ->).
      rewrite length_replicate. unfold number_of_global_dofs.
      apply lookup_lt_Some in Hb. nia. }
  eexists. split; [done|].
  split; [by rewrite length_written, length_replicate|].
  intros e k He Hk. rewrite zip_replicate.
  destruct (lookup_lt_is_Some_2 (boundary_edge_flag (mesh d)) e) as [b Hb]; [lia|].
  rewrite Hb. destruct b.
  - apply written_hit.
    + intros i v Hin _. by apply list_elem_of_fmap in Hin as (? & [= _ ->] & _).
    + exists (Z.of_nat (e * p d + k)). split; [|by rewrite Nat2Z.id].
      apply list_elem_of_fmap. eexists. split; [done|].
      apply boundary_rows_elem. eauto.
    + rewrite length_replicate. unfold number_of_global_dofs. nia.
  - apply written_agree.
    + intros i v Hin Hq. apply list_elem_of_fmap in Hin as (i' & [= -> ->] & Hi').
      apply boundary_rows_elem in Hi' as (e' & k' & Hb' & Hk' & ->).
      rewrite Nat2Z.id in Hq. assert (e' = e) by nia. congruence.
    + apply lookup_replicate_2. unfold number_of_global_dofs. nia.
Qed.

End boundary.


Section space_boundary.
Context {F : Type} `{Scalar F}.
Import Np ReducedDivFreeNonConformingVirtualElementSpace2d.

(** C8.  [boundary_dof()] returns the mask of the dof manager, which
    numbers the scalar edge dofs only: on a space whose dof manager is that
    of its mesh and degree, with one boundary flag per edge, the mask has
    [NE*p] entries, at most half of [number_of_global_dofs()], and entry
    [e*p + k] is the boundary flag of edge [e], for every edge [e] and
    every [k < p]. *)
Theorem boundary_dof_mask (self : t F) :
  dof self = {| RDFNCVEMDof2d.p := p self; RDFNCVEMDof2d.mesh := mesh self |} →
  length (boundary_edge_flag (mesh self)) = number_of_edges (mesh self) →
  ∃ mask, boundary_dof self = Ok mask ∧
    length mask = number_of_edges (mesh self) * p self ∧
    (2 * Z.of_nat (length mask) ≤ number_of_global_dofs self)%Z ∧
    ∀ e k, e < number_of_edges (mesh self) → k < p self →
           mask !! (e * p self + k) = boundary_edge_flag (mesh self) !! e.
Proof.
  intros Hdof Hflags. unfold boundary_dof. rewrite Hdof.
  destruct (boundary_dof_ok {| RDFNCVEMDof2d.p := p self; RDFNCVEMDof2d.mesh := mesh self |}
              Hflags) as (mask & Hmask & Hlen & Hat).
  cbn [RDFNCVEMDof2d.p RDFNCVEMDof2d.mesh] in *.
  exists mask. split_and!; [done..| |done].
  rewrite Hlen. unfold number_of_global_dofs. case_bool_decide as Hp; [|lia].
  match goal with |- context [(?a `div` 2)%Z] => pose proof (Z.div_pos a 2) end.
  nia.
Qed.

End space_boundary.

(** ** The single triangle and the two triangles *)

(** On the single triangle with [p = 2] the mask of [boundary_dof()] has 6
    entries; the space counts 12 global dofs. *)
Lemma boundary_dof_length_counterexample :
  (self ← ReducedDivFreeNonConformingVirtualElementSpace2d.init
            Unit.call one_triangle 2 (Unit.scaled_monomials 1);
   mask ← ReducedDivFreeNonConformingVirtualElementSpace2d.boundary_dof self;
   Ok (length mask,
       ReducedDivFreeNonConformingVirtualElementSpace2d.number_of_global_dofs self))
  = Ok (6, 12%Z).
Proof. vm_compute. reflexivity. Qed.

Section examples.
Import Np ReducedDivFreeNonConformingVirtualElementSpace2d.

Lemma boundary_dof_mask_witness :
  dof (Unit.space two_triangles 2)
    = {| RDFNCVEMDof2d.p := 2; RDFNCVEMDof2d.mesh := two_triangles |} ∧
  length (boundary_edge_flag two_triangles) = number_of_edges two_triangles ∧
  ∃ mask, boundary_dof (Unit.space two_triangles 2) = Ok mask ∧
    length mask = number_of_edges two_triangles * 2 ∧
    (2 * Z.of_nat (length mask) ≤ number_of_global_dofs (Unit.space two_triangles 2))%Z ∧
    ∀ e k, e < number_of_edges two_triangles → k < 2 →
           mask !! (e * 2 + k) = boundary_edge_flag two_triangles !! e.
Proof.
  split; [reflexivity|]. split; [reflexivity|].
  apply (boundary_dof_mask (Unit.space two_triangles 2)); reflexivity.
Defined.

Lemma matrix_M_interior_edge_witness :
  edge_to_cell (mesh (Unit.space two_triangles 2)) !! 2 = Some (0, 1, 2, 0)%Z ∧
  (0 ≠ 1)%Z ∧
  raises (matrix_M Unit.call (Unit.space two_triangles 2)).
Proof.
  split; [reflexivity|]. split; [lia|].
  apply (matrix_M_interior_edge Unit.call (Unit.space two_triangles 2) 2 0 1 2 0);
    [reflexivity|lia].
Defined.

Lemma matrix_A_raises_witness :
  ∃ self, init Unit.call one_triangle 2 (Unit.scaled_monomials 1) = Ok self ∧
          raises (matrix_A Unit.call self).
Proof.
  destruct (init Unit.call one_triangle 2 (Unit.scaled_monomials 1)) as [self|e] eqn:Hinit.
  - exists self. split; [reflexivity|].
    exact (matrix_A_raises Unit.call one_triangle 2 (Unit.scaled_monomials 1) self Hinit).
  - vm_compute in Hinit. discriminate Hinit.
Defined.

End examples.


(** * Further properties of the dof manager *)

Section dof_numbering.
Import RDFNCVEMDof2d.

Lemma concat_rows_seq {A} (f : nat -> A) (n p : nat) :
  concat (map (fun e => map (fun k => f (e * p + k)) (seq 0 p)) (seq 0 n))
  = map f (seq 0 (n * p)).
Proof.
  induction n as [|n IH]; [done|].
  rewrite seq_S, map_app, concat_app, IH. cbn [map concat plus].
  rewrite app_nil_r.
  replace (S n * p) with (n * p + p) by lia.
  rewrite seq_app, map_app. f_equal. cbn [plus].
  replace (seq (n * p) p) with (Nat.add (n * p) <$> seq 0 p)
    by (rewrite fmap_add_seq; f_equal; lia).
  by rewrite map_map.
Qed.

(** [edge_to_dof] numbers the scalar edge dofs: its rows, one per edge
    and each of [p] entries, read together are [0, 1, ..., NE*p - 1], every
    dof once. *)
Theorem edge_to_dof_arange (self : t) :
  length (edge_to_dof self) = number_of_edges (mesh self)
  ∧ Forall (fun row => length row = p self) (edge_to_dof self)
  ∧ concat (edge_to_dof self) = map Z.of_nat (seq 0 (number_of_global_dofs self))
  ∧ NoDup (concat (edge_to_dof self)).
Proof.
  assert (concat (edge_to_dof self) = map Z.of_nat (seq 0 (number_of_global_dofs self)))
    as Hflat by apply (concat_rows_seq Z.of_nat).
  split_and!.
  - unfold edge_to_dof. by rewrite length_map, length_seq.
  - unfold edge_to_dof. apply Forall_fmap, Forall_true. intros e. cbn.
    by rewrite length_map, length_seq.
  - done.
  - rewrite Hflat. apply (NoDup_fmap_2 _), NoDup_seq.
Qed.

End dof_numbering.

(** ** What [cell_to_dof] returns on any mesh *)

Lemma setitem_inv {A} (idx : list Z) (vals a a' : list A) :
  NpInt.setitem a idx vals = Ok a' →
  length a' = length a ∧ ∀ x, x ∈ a' → x ∈ a ∨ x ∈ vals.
Proof.
  unfold NpInt.setitem.
  assert (∀ ws (a a' : list A),
            for_each (fun a '(i, v) => k ← index (length a) i; Ok (<[k := v]> a)) a ws = Ok a' →
            length a' = length a ∧ ∀ x, x ∈ a' → x ∈ a ∨ x ∈ ws.*2) as Hgen.
  { clear. induction ws as [|[i v] ws IH]; intros a a' Hrun.
    - injection Hrun as <-. split; [done|]. by left.
    - cbn in Hrun. apply bind_Ok in Hrun as (a1 & Hstep & Hrun).
      apply bind_Ok in Hstep as (k & Hk & Hstep). injection Hstep as <-.
      apply IH in Hrun as [Hlen Helem]. rewrite length_insert in Hlen. split; [done|].
      intros x Hx. apply Helem in Hx as [Hx|Hx].
      + apply list_elem_of_lookup in Hx as [q Hq].
        destruct (decide (k = q)) as [->|Hne].
        * right. cbn. apply lookup_lt_Some in Hq as Hlt. rewrite length_insert in Hlt.
          rewrite list_lookup_insert_eq in Hq by done. injection Hq as <-. left.
        * left. rewrite list_lookup_insert_ne in Hq by done. by eapply list_elem_of_lookup_2.
      + right. cbn. by right. }
  intros Hrun. apply Hgen in Hrun as [Hlen Helem]. split; [done|].
  intros x Hx. apply Helem in Hx as [Hx|Hx]; [by left|right].
  apply list_elem_of_fmap in Hx as ([i v] & -> & Hin). by apply elem_of_zip_r in Hin.
Qed.

Lemma getitem_raise {A} (l : list A) (i : Z) (e : exn) :
  getitem l i = Raise e → e = IndexError.
Proof.
  unfold getitem, index. repeat case_bool_decide; cbn; try congruence;
    destruct (l !! _); congruence.
Qed.

Lemma getitem_Ok_range {A} (l : list A) (i : Z) (x : A) :
  getitem l i = Ok x → (- Z.of_nat (length l) ≤ i < Z.of_nat (length l))%Z.
Proof. unfold getitem, index. repeat case_bool_decide; cbn; [lia..|done]. Qed.

Lemma map_list_raise {A B} (f : A -> result B) (xs : list A) (e0 e : exn) :
  (∀ x e, f x = Raise e → e = e0) → map_list f xs = Raise e → e = e0.
Proof.
  intros Hf. induction xs as [|x xs IH]; [done|]. cbn.
  destruct (f x) as [y|e'] eqn:Hx; cbn; [|intros [= <-]; by eapply Hf].
  destruct (map_list f xs); cbn; [done|]. intros [= <-]. by apply IH.
Qed.

Lemma map_list_Ok_elem {A B} (f : A -> result B) (xs : list A) (ys : list B) (x : A) :
  map_list f xs = Ok ys → x ∈ xs → ∃ y, f x = Ok y.
Proof.
  revert ys. induction xs as [|x' xs IH]; intros ys Hrun Hx; [by apply elem_of_nil in Hx|].
  cbn in Hrun. apply bind_Ok in Hrun as (y & Hy & Hrun).
  apply bind_Ok in Hrun as (ys' & Hys & _).
  apply elem_of_cons in Hx as [->|Hx]; eauto.
Qed.

Lemma setitem_raise {A} (idx : list Z) (vals a : list A) (e : exn) :
  NpInt.setitem a idx vals = Raise e → e = IndexError.
Proof.
  unfold NpInt.setitem. generalize (zip idx vals). intros ws. revert a.
  induction ws as [|[i v] ws IH]; intros a; [done|]. cbn.
  unfold index. repeat case_bool_decide; cbn; eauto. congruence.
Qed.

Section dof_layout.
Import RDFNCVEMDof2d.

Lemma location_length (self : t) :
  length (0%Z :: NpInt.accumulate (number_of_local_dofs self))
  = S (number_of_cells (mesh self)).
Proof.
  cbn. f_equal. unfold NpInt.accumulate, number_of_local_dofs, number_of_cells.
  generalize 0%Z.
  induction (number_of_edges_of_cells (mesh self)) as [|x l IH]; intros z; [done|].
  cbn. by rewrite IH.
Qed.

(** What a call of [cell_to_dof] that returns has computed. *)
Lemma cell_to_dof_inv (self : t) (cell2dof cell2dofLocation : list Z) :
  cell_to_dof self = Ok (cell2dof, cell2dofLocation) →
  cell2dofLocation = 0%Z :: NpInt.accumulate (number_of_local_dofs self)
  ∧ length cell2dof = offset self (number_of_cells (mesh self))
  ∧ (∀ v, v ∈ cell2dof → v = 0%Z ∨ v ∈ concat (edge_to_dof self))
  ∧ (∀ r, r ∈ edge_to_cell (mesh self) →
       (∃ l, getitem cell2dofLocation (side0 r).1 = Ok l)
       ∧ (∃ l, getitem cell2dofLocation (side1 r).1 = Ok l)).
Proof.
  unfold cell_to_dof. intros Hrun.
  apply bind_Ok in Hrun as (last_loc & Hlast & Hrun).
  apply bind_Ok in Hrun as (zeros & Hzeros & Hrun).
  apply bind_Ok in Hrun as (idx0 & H0 & Hrun).
  apply bind_Ok in Hrun as (first & Hfirst & Hrun).
  apply bind_Ok in Hrun as (idx1 & H1 & Hrun).
  apply bind_Ok in Hrun as (second & Hsecond & Hrun).
  injection Hrun as <- <-.
  apply setitem_inv in Hfirst as [Hlen1 Helem1].
  apply setitem_inv in Hsecond as [Hlen2 Helem2].
  pose proof (location_length self) as Hlen.
  assert (last_loc = Z.of_nat (offset self (number_of_cells (mesh self)))) as ->.
  { pose proof (location_lookup self (number_of_cells (mesh self)) (le_n _)) as Hl.
    unfold getitem, index in Hlast. rewrite Hlen in Hlast.
    rewrite bool_decide_eq_false_2, bool_decide_eq_true_2 in Hlast by lia.
    cbn [mbind result_bind] in Hlast.
    replace (Z.to_nat (Z.of_nat (S (number_of_cells (mesh self))) + -1))
      with (number_of_cells (mesh self)) in Hlast by lia.
    rewrite Hl in Hlast. by injection Hlast as <-. }
  unfold NpInt.zeros in Hzeros. rewrite bool_decide_eq_false_2 in Hzeros by lia.
  injection Hzeros as <-. rewrite Nat2Z.id in *.
  split_and!.
  - done.
  - by rewrite Hlen2, Hlen1, length_replicate.
  - intros v Hv.
    assert (v ∈ replicate (offset self (number_of_cells (mesh self))) 0%Z
            ∨ v ∈ concat (edge_to_dof self)) as [Hz|He]; [|left|by right].
    { apply Helem2 in Hv as [Hv|Hv]; [|by right]. by apply Helem1 in Hv. }
    by apply elem_of_replicate in Hz as [-> _].
  - intros r Hr. unfold slot_index in H0, H1.
    destruct (map_list_Ok_elem _ _ _ _ H0 Hr) as [y0 Hy0].
    destruct (map_list_Ok_elem _ _ _ _ H1 Hr) as [y1 Hy1].
    destruct (side0 r) as [c0 j0], (side1 r) as [c1 j1]. cbn [fst].
    apply bind_Ok in Hy0 as (l0 & Hl0 & _). apply bind_Ok in Hy1 as (l1 & Hl1 & _).
    eauto.
Qed.

(** Whenever [cell_to_dof] returns: [cell2dofLocation] has one entry per
    cell and one more, starts at 0 and grows from each cell to the next by
    the cell's number of edges times [p]; its last entry is the length of
    [cell2dof]; and every entry of [cell2dof] is 0 or the number of a dof of
    an edge. *)
Theorem cell_to_dof_layout (self : t) (cell2dof cell2dofLocation : list Z) :
  cell_to_dof self = Ok (cell2dof, cell2dofLocation) →
  length cell2dofLocation = S (number_of_cells (mesh self))
  ∧ cell2dofLocation !! 0 = Some 0%Z
  ∧ (∀ c n, number_of_edges_of_cells (mesh self) !! c = Some n →
       ∃ l, cell2dofLocation !! c = Some l ∧
            cell2dofLocation !! S c = Some (l + Z.of_nat (n * p self))%Z)
  ∧ getitem cell2dofLocation (-1) = Ok (Z.of_nat (length cell2dof))
  ∧ (∀ v, v ∈ cell2dof →
       v = 0%Z ∨ ∃ e k, e < number_of_edges (mesh self) ∧ k < p self ∧
                        v = Z.of_nat (e * p self + k)).
Proof.
  intros Hrun. apply cell_to_dof_inv in Hrun as (-> & Hlen & Helem & _).
  pose proof (location_length self) as Hloc.
  pose proof (location_lookup self (number_of_cells (mesh self)) (le_n _)) as Hl.
  split_and!.
  - done.
  - done.
  - intros c n Hn. exists (Z.of_nat (offset self c)).
    pose proof (lookup_lt_Some _ _ _ Hn) as Hc.
    rewrite !location_lookup by (unfold number_of_cells; lia).
    rewrite (offset_S _ _ _ Hn). split; [done|]. f_equal. lia.
  - unfold getitem, index. rewrite Hloc, Hlen.
    rewrite bool_decide_eq_false_2, bool_decide_eq_true_2 by lia.
    cbn [mbind result_bind].
    replace (Z.to_nat (Z.of_nat (S (number_of_cells (mesh self))) + -1))
      with (number_of_cells (mesh self)) by lia.
    by rewrite Hl.
  - intros v Hv. apply Helem in Hv as [->|He]; [by left|right].
    apply list_elem_of_In, in_concat in He as (row & Hrow & Hin).
    apply list_elem_of_In, list_elem_of_lookup in Hrow as [e He].
    apply list_elem_of_In, list_elem_of_lookup in Hin as [k Hk].
    destruct (edge_to_dof_lookup _ _ _ _ _ He Hk) as (? & _ & ? & ->). eauto.
Qed.

Lemma cell_to_dof_layout_witness :
  ∃ cell2dof cell2dofLocation,
    cell_to_dof {| p := 2; mesh := two_triangles |} = Ok (cell2dof, cell2dofLocation) ∧
    length cell2dofLocation = 3 ∧
    getitem cell2dofLocation (-1) = Ok (Z.of_nat (length cell2dof)).
Proof.
  destruct (cell_to_dof {| p := 2; mesh := two_triangles |}) as [[c2d loc]|e] eqn:Hrun.
  - exists c2d, loc. split; [reflexivity|].
    destruct (cell_to_dof_layout _ _ _ Hrun) as (Hlen & _ & _ & Hlast & _).
    split; [exact Hlen | exact Hlast].
  - vm_compute in Hrun. discriminate Hrun.
Defined.

End dof_layout.

(** ** How [cell_to_dof] fails *)

Section dof_failure.
Import RDFNCVEMDof2d.

Lemma slot_index_raise (self : t) (loc : list Z) (side : Z * Z * Z * Z -> Z * Z) (e : exn) :
  slot_index self loc side = Raise e → e = IndexError.
Proof.
  unfold slot_index. apply map_list_raise. intros r e'.
  destruct (side r) as [c j]. destruct (getitem loc c) eqn:Hc; cbn; [done|].
  intros [= <-]. by eapply getitem_raise.
Qed.

(** The only exception of [cell_to_dof] is [IndexError]. *)
Lemma cell_to_dof_raise (self : t) (e : exn) :
  cell_to_dof self = Raise e → e = IndexError.
Proof.
  unfold cell_to_dof.
  destruct (getitem _ (-1)) as [last_loc|e0] eqn:Hlast; cbn;
    [|intros [= <-]; by eapply getitem_raise].
  assert (0 ≤ last_loc)%Z as Hpos.
  { pose proof (location_lookup self (number_of_cells (mesh self)) (le_n _)) as Hl.
    unfold getitem, index in Hlast.
    repeat case_bool_decide; cbn in Hlast; try done;
      destruct (_ !! _) as [x|] eqn:Hx in Hlast; try done; injection Hlast as <-.
    - apply lookup_lt_Some in Hx. cbn in *. lia.
    - assert (length (NpInt.accumulate (number_of_local_dofs self))
              = number_of_cells (mesh self)) as Hlen.
      { unfold NpInt.accumulate, number_of_local_dofs, number_of_cells. generalize 0%Z.
        induction (number_of_edges_of_cells (mesh self)) as [|y l IH]; intros z; [done|].
        cbn. by rewrite IH. }
      cbn [length] in Hx. rewrite Hlen in Hx.
      replace (Z.to_nat (Z.of_nat (S (number_of_cells (mesh self))) + -1))
        with (number_of_cells (mesh self)) in Hx by lia.
      rewrite Hl in Hx. injection Hx as <-. lia. }
  unfold NpInt.zeros. rewrite bool_decide_eq_false_2 by lia. cbn.
  destruct (slot_index _ _ side0) as [idx0|e0] eqn:H0; cbn;
    [|intros [= <-]; by eapply slot_index_raise].
  destruct (NpInt.setitem _ _ _) as [first|e0] eqn:H1; cbn;
    [|intros [= <-]; by eapply setitem_raise].
  destruct (slot_index _ _ side1) as [idx1|e0] eqn:H2; cbn;
    [|intros [= <-]; by eapply slot_index_raise].
  destruct (NpInt.setitem first _ _) as [second|e0] eqn:H3; cbn;
    [done|intros [= <-]; by eapply setitem_raise].
Qed.

(** An edge whose row of [edge2cell] names a cell that is not one of the
    mesh, as its first or its second cell, makes [cell_to_dof] raise
    [IndexError].  (The cell numbers [-(NC+1), ..., NC] index the [NC+1]
    entries of [cell2dofLocation]; the negative ones count from its end.) *)
Theorem cell_to_dof_bad_cell (self : t) (c0 c1 j0 j1 : Z) :
  (c0, c1, j0, j1) ∈ edge_to_cell (mesh self) →
  ¬ (- Z.of_nat (S (number_of_cells (mesh self))) ≤ c0
       < Z.of_nat (S (number_of_cells (mesh self))))%Z
  ∨ ¬ (- Z.of_nat (S (number_of_cells (mesh self))) ≤ c1
         < Z.of_nat (S (number_of_cells (mesh self))))%Z →
  cell_to_dof self = Raise IndexError.
Proof.
  intros Hrow Hbad.
  destruct (cell_to_dof self) as [[c2d loc]|e] eqn:Hrun;
    [|by rewrite (cell_to_dof_raise _ _ Hrun)].
  exfalso.
  apply cell_to_dof_inv in Hrun as (-> & _ & _ & Hsides).
  destruct (Hsides _ Hrow) as [[l0 Hl0%getitem_Ok_range] [l1 Hl1%getitem_Ok_range]].
  rewrite location_length in Hl0, Hl1. cbn [side0 side1 fst] in Hl0, Hl1.
  destruct Hbad; lia.
Qed.

Lemma cell_to_dof_bad_cell_witness :
  (0, 7, 0, 0)%Z ∈ [(0, 7, 0, 0)%Z]
  ∧ cell_to_dof {| p := 1;
                   mesh := {| edge_to_cell := [(0, 7, 0, 0)%Z];
                              number_of_edges_of_cells := [1];
                              cell_to_edge := [[0]];
                              boundary_edge_flag := [true] |} |}
    = Raise IndexError.
Proof.
  split; [by left|].
  apply (cell_to_dof_bad_cell _ 0 7 0 0); [by left|]. right. cbn. lia.
Defined.

End dof_failure.


(** * Further properties of the space's dof numbering *)

Lemma consecutive_even (x : Z) : ∃ m, (x * (x + 1) = 2 * m)%Z.
Proof.
  destruct (Z.Even_or_Odd x) as [[k ->]|[k ->]].
  - exists (k * (2 * k + 1))%Z. lia.
  - exists ((2 * k + 1) * (k + 1))%Z. lia.
Qed.

Section cell_slices.
Import RDFNCVEMDof2d.
Variable d : t.
Hypothesis consistent : mesh_consistent (mesh d) = true.

(** The slice of a cell in the flat dof array: as many entries as the cell
    has edge dofs, each the number of a dof of an edge. *)
Lemma slice_of_cell (cell2dof cell2dofLocation : list Z) (c n : nat) :
  cell_to_dof d = Ok (cell2dof, cell2dofLocation) →
  number_of_edges_of_cells (mesh d) !! c = Some n →
  cell2dofLocation !! c = Some (Z.of_nat (offset d c))
  ∧ cell2dofLocation !! S c = Some (Z.of_nat (offset d (S c)))
  ∧ length (slice cell2dof (Z.of_nat (offset d c)) (Z.of_nat (offset d (S c)))) = n * p d
  ∧ ∀ x, x ∈ slice cell2dof (Z.of_nat (offset d c)) (Z.of_nat (offset d (S c))) →
         ∃ e k, e < number_of_edges (mesh d) ∧ k < p d ∧ x = Z.of_nat (e * p d + k).
Proof using consistent.
  intros Hrun Hn. rewrite (cell_to_dof_ok d consistent) in Hrun.
  injection Hrun as <- <-.
  pose proof (lookup_lt_Some _ _ _ Hn) as Hc.
  pose proof (offset_S _ _ _ Hn) as HS.
  pose proof (offset_mono d (S c) (number_of_cells (mesh d))) as Hmono.
  unfold number_of_cells in Hmono.
  assert (slice (written (replicate (total d) 0%Z) (pass d side0 ++ pass d side1))
            (Z.of_nat (offset d c)) (Z.of_nat (offset d (S c)))
          = take (n * p d)
              (drop (offset d c)
                 (written (replicate (total d) 0%Z) (pass d side0 ++ pass d side1))))
    as Hslice.
  { unfold slice, clamp. rewrite !bool_decide_eq_false_2 by lia.
    rewrite length_written, length_replicate, !Nat2Z.id.
    unfold total, number_of_cells. rewrite !Nat.min_r by lia.
    f_equal. lia. }
  split_and!.
  - apply location_lookup. unfold number_of_cells. lia.
  - apply location_lookup. unfold number_of_cells. lia.
  - rewrite Hslice, length_take, length_drop, length_written, length_replicate.
    unfold total, number_of_cells. lia.
  - intros x Hx. rewrite Hslice in Hx.
    apply list_elem_of_lookup in Hx as [i Hi].
    apply lookup_take_Some in Hi as [Hi Hlt]. rewrite lookup_drop in Hi.
    assert (0 < p d) as Hp by nia.
    pose proof (Nat.div_mod_eq i (p d)) as Hdm.
    pose proof (Nat.mod_upper_bound i (p d)) as Hmod.
    assert (i `div` p d < n) as Hdiv by (apply Nat.Div0.div_lt_upper_bound; lia).
    assert (∃ es, cell_to_edge (mesh d) !! c = Some es ∧ length es = n) as (es & Hes & Hlen).
    { pose proof (consistent_lengths d consistent) as Hl.
      rewrite <- Hl, list_lookup_fmap in Hn.
      destruct (cell_to_edge (mesh d) !! c) as [es|]; [|done].
      injection Hn as <-. eauto. }
    destruct (lookup_lt_is_Some_2 es (i `div` p d)) as [e He]; [lia|].
    pose proof (slot_value d consistent c (i `div` p d) e (i `mod` p d) es Hes He
                  ltac:(lia)) as Hval.
    unfold position in Hval.
    replace (offset d c + i `div` p d * p d + i `mod` p d) with (offset d c + i)
      in Hval by lia.
    rewrite Hval in Hi. injection Hi as <-.
    destruct (consistent_cell d consistent _ _ _ _ Hes He) as (c0 & c1 & j0 & j1 & Hrow & _).
    apply lookup_lt_Some in Hrow.
    exists e, (i `mod` p d). split_and!; [done|lia|done].
Qed.

End cell_slices.

Section space_numbering.
Context {F : Type} `{Scalar F}.
Import Np ReducedDivFreeNonConformingVirtualElementSpace2d.

(** The interior dofs per cell, for a degree [p >= 1]. *)
Lemma idof_nonneg (self : t F) : 1 ≤ p self → (0 ≤ idof self)%Z.
Proof.
  intros Hp. unfold idof. apply Z.div_pos; [|lia].
  destruct (decide (p self = 1)) as [->|Hne]; [done|]. apply Z.mul_nonneg_nonneg; lia.
Qed.

Lemma number_of_global_dofs_split (self : t F) :
  1 ≤ p self →
  number_of_global_dofs self
  = (2 * Z.of_nat (number_of_edges (mesh self)) * Z.of_nat (p self)
     + Z.of_nat (number_of_cells (mesh self)) * idof self)%Z.
Proof.
  intros Hp. unfold number_of_global_dofs, idof.
  destruct (consecutive_even (Z.of_nat (p self) - 2)) as [m Hm].
  replace (Z.of_nat (p self) - 2 + 1)%Z with (Z.of_nat (p self) - 1)%Z in Hm by lia.
  case_bool_decide as Hp2.
  - replace (Z.of_nat (number_of_cells (mesh self)) * (Z.of_nat (p self) - 2)
             * (Z.of_nat (p self) - 1))%Z
      with (Z.of_nat (number_of_cells (mesh self)) * m * 2)%Z
      by (rewrite <- (Z.mul_assoc _ (_ - 2)), Hm; lia).
    rewrite Hm, (Z.mul_comm 2 m), !Z.div_mul by lia. done.
  - assert (((Z.of_nat (p self) - 2) * (Z.of_nat (p self) - 1)) `div` 2 = 0)%Z as ->
      by (assert (p self = 1 ∨ p self = 2) as [->| ->] by lia; reflexivity).
    lia.
Qed.

(** [cell_to_dof('cell')], called with the string literal, numbers the
    interior dofs, for a degree [p >= 1]: one row per cell, each of
    [(p-2)(p-1)/2] entries, which read together are the numbers from
    [2*NE*p] up to, and without, [number_of_global_dofs()], every one once.
    The argument is compared by identity ([doftype is 'cell']): for a
    string that is not the object of the literal, whatever its text, the
    method returns [None]. *)
Theorem cell_to_dof_interior (self : t F) :
  1 ≤ p self →
  (∀ text, cell_to_dof self (Str text false) = NoneValue)
  ∧ ∃ rows, cell_to_dof self (Str "cell" true) = Rows rows
    ∧ length rows = number_of_cells (mesh self)
    ∧ Forall (fun row => Z.of_nat (length row) = idof self) rows
    ∧ concat rows
      = map (fun k => (2 * Z.of_nat (number_of_edges (mesh self)) * Z.of_nat (p self)
                       + Z.of_nat k)%Z)
            (seq 0 (length (concat rows)))
    ∧ (2 * Z.of_nat (number_of_edges (mesh self)) * Z.of_nat (p self)
       + Z.of_nat (length (concat rows)))%Z = number_of_global_dofs self.
Proof.
  intros Hp. pose proof (idof_nonneg self Hp) as Hidof.
  split; [done|]. eexists. split; [reflexivity|].
  set (NE := Z.of_nat (number_of_edges (mesh self))).
  set (f := fun i : nat => (2 * NE * Z.of_nat (p self) + Z.of_nat i)%Z).
  assert (∀ n m, concat ((fun c => (fun k => (2 * NE * Z.of_nat (p self)
                                             + Z.of_nat (c * m + k))%Z) <$> seq 0 m)
                           <$> seq 0 n)
                 = map f (seq 0 (n * m))) as Hflat
    by (intros n m; apply (concat_rows_seq f)).
  split_and!.
  - by rewrite length_fmap, length_seq.
  - apply Forall_fmap, Forall_true. intros c. cbn.
    rewrite length_fmap, length_seq. lia.
  - rewrite Hflat. by rewrite length_map, length_seq.
  - rewrite Hflat, length_map, length_seq, (number_of_global_dofs_split self Hp).
    fold NE. rewrite Nat2Z.inj_mul, Z2Nat.id by done. done.
Qed.

(** The global dofs [cd] of a cell, as [matrix_A] and [matrix_P] list them
    to scatter the cell's block: on a mesh whose two incidence arrays agree,
    for a degree [p >= 1] and the flat dof array of the dof manager, the
    list has as many entries as [number_of_local_dofs()] gives the cell, and
    each is an index into the global dofs, below
    [number_of_global_dofs()]. *)
Theorem cell_dofs_valid (self : t F) (c n : nat) :
  1 ≤ p self →
  mesh_consistent (mesh self) = true →
  RDFNCVEMDof2d.cell_to_dof
    {| RDFNCVEMDof2d.p := p self; RDFNCVEMDof2d.mesh := mesh self |}
  = Ok (cell2dof self, cell2dofLocation self) →
  number_of_edges_of_cells (mesh self) !! c = Some n →
  ∃ lo hi cd,
    cell2dofLocation self !! c = Some lo
    ∧ cell2dofLocation self !! S c = Some hi
    ∧ cd = cell_dofs (cell2dof self) lo hi (Z.of_nat (number_of_edges (mesh self)))
             (Z.of_nat (p self)) (Z.of_nat c) (idof self)
    ∧ number_of_local_dofs self !! c = Some (Z.of_nat (length cd))
    ∧ ∀ x, x ∈ cd → (0 ≤ x < number_of_global_dofs self)%Z.
Proof.
  intros Hp Hcons Hrun Hn.
  set (d := {| RDFNCVEMDof2d.p := p self; RDFNCVEMDof2d.mesh := mesh self |}) in *.
  destruct (slice_of_cell d Hcons _ _ c n Hrun Hn) as (Hlo & Hhi & Hlen & Helem).
  cbn [RDFNCVEMDof2d.p RDFNCVEMDof2d.mesh d] in Hlen, Helem.
  pose proof (idof_nonneg self Hp) as Hidof.
  pose proof (number_of_global_dofs_split self Hp) as Hgdof.
  pose proof (lookup_lt_Some _ _ _ Hn) as Hc. fold (number_of_cells (mesh self)) in Hc.
  eexists _, _, _. split; [exact Hlo|]. split; [exact Hhi|]. split; [reflexivity|].
  unfold cell_dofs, NpIndex.arange.
  set (s := slice _ _ _) in *.
  replace ((Z.of_nat c + 1) * idof self - Z.of_nat c * idof self)%Z with (idof self) by lia.
  split.
  - rewrite !length_app, !length_fmap, length_seq, Hlen.
    unfold number_of_local_dofs. case_bool_decide as Hp2.
    + rewrite !list_lookup_fmap, Hn. cbn. f_equal. fold (idof self). lia.
    + rewrite list_lookup_fmap, Hn. cbn. f_equal.
      assert (idof self = 0%Z) as ->
        by (unfold idof; assert (p self = 1 ∨ p self = 2) as [->| ->] by lia; reflexivity).
      lia.
  - intros x Hx. rewrite !elem_of_app in Hx. destruct Hx as [Hx|[Hx|Hx]].
    + apply Helem in Hx as (e & k & He & Hk & ->). nia.
    + apply list_elem_of_fmap in Hx as (y & -> & Hy).
      apply Helem in Hy as (e & k & He & Hk & ->). nia.
    + apply list_elem_of_fmap in Hx as (y & -> & Hy).
      apply list_elem_of_fmap in Hy as (k & -> & Hk). apply elem_of_seq in Hk.
      assert ((Z.of_nat c + 1) * idof self
              ≤ Z.of_nat (number_of_cells (mesh self)) * idof self)%Z by nia.
      lia.
Qed.

End space_numbering.

Lemma cell_to_dof_interior_witness :
  ∃ rows,
    ReducedDivFreeNonConformingVirtualElementSpace2d.cell_to_dof
      (Unit.space one_triangle 4) (Str "cell" true)
    = ReducedDivFreeNonConformingVirtualElementSpace2d.Rows rows
    ∧ concat rows = [24; 25; 26]%Z
    ∧ ReducedDivFreeNonConformingVirtualElementSpace2d.number_of_global_dofs
        (Unit.space one_triangle 4) = 27%Z.
Proof.
  destruct (cell_to_dof_interior (Unit.space one_triangle 4))
    as (_ & rows & Hrows & _ & _ & Hflat & _); [cbn; lia|].
  exists rows. split; [exact Hrows|]. split; [|reflexivity].
  vm_compute in Hrows. injection Hrows as <-. reflexivity.
Defined.

Lemma cell_dofs_valid_witness :
  ∃ lo hi cd,
    ReducedDivFreeNonConformingVirtualElementSpace2d.cell2dofLocation
      (Unit.space two_triangles 2) !! 1 = Some lo
    ∧ ReducedDivFreeNonConformingVirtualElementSpace2d.cell2dofLocation
        (Unit.space two_triangles 2) !! 2 = Some hi
    ∧ cd = ReducedDivFreeNonConformingVirtualElementSpace2d.cell_dofs
             (ReducedDivFreeNonConformingVirtualElementSpace2d.cell2dof
                (Unit.space two_triangles 2)) lo hi 5 2 1 0
    ∧ ReducedDivFreeNonConformingVirtualElementSpace2d.number_of_local_dofs
        (Unit.space two_triangles 2) !! 1 = Some (Z.of_nat (length cd))
    ∧ ∀ x, x ∈ cd → (0 ≤ x < 20)%Z.
Proof.
  exact (cell_dofs_valid (Unit.space two_triangles 2) 1 3
           ltac:(cbn; lia) eq_refl eq_refl eq_refl).
Defined.


(** * What the constructor leaves *)

Lemma map_list_length {A B} (f : A -> result B) (xs : list A) (ys : list B) :
  map_list f xs = Ok ys → length ys = length xs.
Proof.
  revert ys. induction xs as [|x xs IH]; intros ys Hrun; [by injection Hrun as <-|].
  cbn in Hrun. apply bind_Ok in Hrun as (y & _ & Hrun).
  apply bind_Ok in Hrun as (ys' & Hys & Hrun). injection Hrun as <-.
  cbn. f_equal. by apply IH.
Qed.

(** The steps of a call that returned: each earlier call returned too. *)
Ltac returned H :=
  repeat (apply bind_Ok in H as (? & _ & H); cbn beta in H;
          repeat match type of H with
                 | context [match ?x with pair _ _ => _ end] => is_var x; destruct x
                 end).

Section constructed_space.
Context {F : Type} `{Scalar F} {Forcing : Type}.
Import Np ReducedDivFreeNonConformingVirtualElementSpace2d.
Variable call : string -> list (operand F Forcing) -> result (ndarray F).

Lemma matrix_M_interior (self : t F) :
  0 < count_true (is_in_edge (edge_to_cell (mesh self))) → raises (matrix_M call self).
Proof.
  intros Hin. unfold matrix_M. cbv zeta.
  repeat lazymatch goal with
         | |- raises (mbind _ (if bool_decide (0 < count_true _) then _ else _)) => fail
         | |- raises (mbind _ _) => pass_call
         end.
  apply raises_bind_l. rewrite bool_decide_eq_true_2 by done.
  do 3 pass_call. apply raises_bind_l. rewrite einsum_F1. by exists ValueError.
Qed.

Lemma matrix_M_blocks (self : t F) (M : list (list (ndarray F))) :
  matrix_M call self = Ok M → length M = 2 ∧ Forall (fun row => length row = 3) M.
Proof.
  unfold matrix_M. cbv zeta. intros HM. returned HM.
  injection HM as <-. split; [done|]. by repeat constructor.
Qed.

Lemma matrix_G_B_blocks (self : t F) (G B : list (ndarray F)) :
  matrix_G_B call self = Ok (G, B) → length G = 3 ∧ length B = 2.
Proof.
  unfold matrix_G_B. cbv zeta. intros HGB. returned HGB. by injection HGB as <- <-.
Qed.

Lemma matrix_R_blocks (self : t F) (R : list (list (ndarray F))) (J : list (ndarray F)) :
  matrix_R_J call self = Ok (R, J) → length R = 2 ∧ Forall (fun row => length row = 3) R.
Proof.
  unfold matrix_R_J. cbv zeta. intros HRJ. returned HRJ.
  injection HRJ as <- <-. split; [done|]. by repeat constructor.
Qed.

Lemma matrix_D_blocks (self : t F) (D : list (ndarray F)) :
  matrix_D call self = Ok D → length D = 3.
Proof.
  unfold matrix_D. cbv zeta. intros HD. returned HD. by injection HD as <-.
Qed.

(** A space the constructor returns has degree at most 2 and a mesh with
    no interior edge: every row of [edge2cell] names one cell twice.  Its dof
    arrays are those of the dof manager of its mesh and degree, [Q] and [L]
    are [None], and the matrices are packed as [G] of three blocks, [B] of
    two, [M] and [R] of two rows of three, [J] and [D] of three, and [PI0]
    of one projector per cell. *)
Theorem init_returns (mesh0 : PolygonMesh) (p0 : nat)
    (smspace0 : ScaledMonomialSpace2d F) (self : t F) :
  init call mesh0 p0 smspace0 = Ok self →
  p self = p0 ∧ mesh self = mesh0 ∧ smspace self = smspace0
  ∧ dof self = {| RDFNCVEMDof2d.p := p0; RDFNCVEMDof2d.mesh := mesh0 |}
  ∧ RDFNCVEMDof2d.cell_to_dof (dof self) = Ok (cell2dof self, cell2dofLocation self)
  ∧ p0 ≤ 2
  ∧ (∀ c0 c1 j0 j1, (c0, c1, j0, j1) ∈ edge_to_cell mesh0 → c0 = c1)
  ∧ Q self = None ∧ L self = None
  ∧ length (G self) = 3 ∧ length (B self) = 2
  ∧ length (M self) = 2 ∧ Forall (fun row => length row = 3) (M self)
  ∧ length (R self) = 2 ∧ Forall (fun row => length row = 3) (R self)
  ∧ length (J self) = 3 ∧ length (D self) = 3
  ∧ length (PI0 self) = number_of_cells mesh0.
Proof.
  unfold init. cbv zeta. intros Hinit.
  apply bind_Ok in Hinit as ([c2d loc] & Hdof & Hinit).
  do 4 (apply bind_Ok in Hinit as (? & _ & Hinit)).
  apply bind_Ok in Hinit as ([Q0 L0] & HQL & Hinit).
  apply bind_Ok in Hinit as ([G0 B0] & HGB & Hinit).
  apply bind_Ok in Hinit as (M0 & HM & Hinit).
  apply bind_Ok in Hinit as ([R0 J0] & HRJ & Hinit).
  apply bind_Ok in Hinit as (D0 & HD & Hinit).
  apply bind_Ok in Hinit as (PI & HPI & Hinit).
  injection Hinit as <-. cbn.
  assert (p0 ≤ 2) as Hp.
  { destruct (decide (p0 ≤ 2)) as [|Hgt]; [done|].
    rewrite matrix_Q_L_above_two in HQL by (cbn; lia). done. }
  unfold matrix_Q_L in HQL. cbn in HQL. rewrite bool_decide_eq_false_2 in HQL by lia.
  injection HQL as <- <-.
  apply matrix_G_B_blocks in HGB as [??].
  pose proof (matrix_R_J_blocks _ _ _ _ HRJ).
  apply matrix_R_blocks in HRJ as [??].
  apply matrix_D_blocks in HD.
  apply map_list_length in HPI. unfold range in HPI. rewrite length_seq in HPI.
  split_and!; try done.
  - intros c0 c1 j0 j1 [e He]%list_elem_of_lookup.
    destruct (decide (c0 = c1)) as [|Hne]; [done|]. exfalso.
    eapply (raises_not_Ok _ M0); [|exact HM].
    apply matrix_M_interior. cbn. apply (count_true_pos _ e). unfold is_in_edge.
    rewrite list_lookup_fmap, He. cbn. by rewrite bool_decide_eq_true_2.
  - by apply matrix_M_blocks in HM as [??].
  - by apply matrix_M_blocks in HM as [??].
Qed.

End constructed_space.

Lemma init_returns_witness :
  ∃ self,
    ReducedDivFreeNonConformingVirtualElementSpace2d.init
      Unit.call one_triangle 2 (Unit.scaled_monomials 1) = Ok self
    ∧ length (ReducedDivFreeNonConformingVirtualElementSpace2d.PI0 self) = 1.
Proof.
  destruct (ReducedDivFreeNonConformingVirtualElementSpace2d.init
              Unit.call one_triangle 2 (Unit.scaled_monomials 1)) as [self|e] eqn:Hinit.
  - exists self. split; [reflexivity|].
    exact (proj2 (proj2 (proj2 (proj2 (proj2 (proj2 (proj2 (proj2 (proj2 (proj2 (proj2
             (proj2 (proj2 (proj2 (proj2 (proj2 (proj2
               (init_returns Unit.call _ _ _ _ Hinit)))))))))))))))))).
  - vm_compute in Hinit. discriminate Hinit.
Defined.


(** * Further properties of the mass integrator *)

Section mass_calls.
Context {F : Type} `{Scalar F}.
Import Np Store ScalarMassIntegrator.

Lemma iadd_at_again (h : store) (M : ref) (a v b : ndarray F) :
  h !! M = Some a → broadcast_to v (shape a) = Ok b →
  iadd_at h M v = Ok (<[M := NDArray (shape a) (zip_with fadd (data a) (data b))]> h)
  ∧ iadd_at (<[M := NDArray (shape a) (zip_with fadd (data a) (data b))]> h) M v
    = Ok (<[M := NDArray (shape a)
                   (zip_with fadd (zip_with fadd (data a) (data b)) (data b))]> h).
Proof.
  intros Ha Hb. split.
  - rewrite (iadd_at_stored _ _ a) by done. by rewrite Hb.
  - rewrite (iadd_at_stored _ _ (NDArray (shape a) (zip_with fadd (data a) (data b))))
      by (apply list_lookup_insert_eq; by eapply lookup_lt_Some).
    cbn [shape data]. rewrite Hb. cbn [mbind result_bind].
    f_equal. apply (list_insert_insert_eq (A:=ndarray F)).
Qed.

(** Two calls with the same [out] add the cell matrices twice: after the
    first, [out] holds what it held plus the cell matrices; the second call
    returns [None] again and leaves [out] with the cell matrices added once
    more, and every other array of the store as it was. *)
Theorem assembly_out_twice (table : gmap string (ndarray F)) (self : t F)
    (space : FunctionSpace F) (trialspace testspace coefspace : option (FunctionSpace F))
    (cellmeasure : option (ndarray F)) (h : store) (out : ref) (a : ndarray F) :
  h !! out = Some a →
  (∀ r h1,
     assembly_cell_matrix self space cellmeasure (Some out) h = Ok (r, h1) →
     ∃ b, h1 = <[out := NDArray (shape a) (zip_with fadd (data a) (data b))]> h
          ∧ assembly_cell_matrix self space cellmeasure (Some out) h1
            = Ok (None, <[out := NDArray (shape a)
                                   (zip_with fadd (zip_with fadd (data a) (data b))
                                      (data b))]> h))
  ∧ (∀ r h1,
       assembly_cell_matrix_fast table self space trialspace testspace coefspace
         cellmeasure (Some out) h = Ok (r, h1) →
       ∃ b, h1 = <[out := NDArray (shape a) (zip_with fadd (data a) (data b))]> h
            ∧ assembly_cell_matrix_fast table self space trialspace testspace coefspace
                cellmeasure (Some out) h1
              = Ok (None, <[out := NDArray (shape a)
                                     (zip_with fadd (zip_with fadd (data a) (data b))
                                        (data b))]> h)).
Proof.
  intros Ha. split; intros r h1.
  - rewrite !assembly_cell_matrix_out.
    destruct (cell_measure space cellmeasure) as [cm|]; [|done].
    cbv [mbind result_bind]. destruct (len cm) as [NC|]; [|done].
    destruct (MassIncrement.standard self space cm NC) as [v|]; [|done].
    destruct (broadcast_to v (shape a)) as [b|e] eqn:Hb.
    + destruct (iadd_at_again h out a v b Ha Hb) as [-> Hagain].
      intros [= <- <-]. exists b. split; [done|]. by rewrite Hagain.
    + rewrite (iadd_at_stored _ _ a) by done. by rewrite Hb.
  - rewrite !assembly_cell_matrix_fast_out.
    destruct (cell_measure space cellmeasure) as [cm|]; [|done].
    cbv [mbind result_bind]. destruct (len cm) as [NC|]; [|done].
    destruct (MassIncrement.fast table self space trialspace testspace coefspace cm NC)
      as [v|]; [|done].
    destruct (broadcast_to v (shape a)) as [b|e] eqn:Hb.
    + destruct (iadd_at_again h out a v b Ha Hb) as [-> Hagain].
      intros [= <- <-]. exists b. split; [done|]. by rewrite Hagain.
    + rewrite (iadd_at_stored _ _ a) by done. by rewrite Hb.
Qed.

(** ** A table without the key *)

(** With no coefficient, or a scalar one, [assembly_cell_matrix_fast]
    looks the precomputed array up under the key
    [<type>_<mesh type>_TAF_<trial btype>_<trial p>_TSF_<test btype>_<test p>],
    the trial space defaulting to [space] and the test space to the trial
    space; when the table has no entry under it, the call raises
    [KeyError], with [out] given or not. *)
Theorem fast_missing_key (table : gmap string (ndarray F)) (self : t F)
    (space : FunctionSpace F) (trialspace testspace coefspace : option (FunctionSpace F))
    (cellmeasure : option (ndarray F)) (out : option ref) (h : store)
    (cm : ndarray F) (NC : nat) :
  cell_measure space cellmeasure = Ok cm →
  len cm = Ok NC →
  coef self = CoefNone ∨ (∃ c, coef self = Value (Number c)) →
  table !! (type self +:+ "_" +:+ mesh_type space
            +:+ "_TAF_" +:+ btype (default space trialspace)
            +:+ "_" +:+ pretty (p (default space trialspace))
            +:+ "_TSF_" +:+ btype (default (default space trialspace) testspace)
            +:+ "_" +:+ pretty (p (default (default space trialspace) testspace)))
  = None →
  assembly_cell_matrix_fast table self space trialspace testspace coefspace
    cellmeasure out h = Raise KeyError.
Proof.
  intros Hcm Hlen Hcoef Hkey.
  assert (MassIncrement.fast table self space trialspace testspace coefspace cm NC
          = Raise KeyError) as Hinc.
  { unfold MassIncrement.fast, MassIncrement.fast_spaces, lookup_data.
    destruct Hcoef as [->|[c ->]]; cbn; by rewrite Hkey. }
  destruct out as [out|].
  - rewrite assembly_cell_matrix_fast_out, Hcm. cbv [mbind result_bind].
    by rewrite Hlen, Hinc.
  - rewrite assembly_cell_matrix_fast_fresh, Hcm. cbv [mbind result_bind alloc].
    rewrite Hlen.
    destruct (MassIncrement.fast_spaces self space trialspace testspace coefspace)
      as [[[dataindex ?] ?] ?]. by rewrite Hinc.
Qed.

(** ** A cell measure that is one number *)

Lemma indices_vector (n : nat) : indices [n] = (fun i => [i]) <$> seq 0 n.
Proof.
  cbn. induction (seq 0 n) as [|i l IH]; [done|]. cbn. by rewrite IH.
Qed.

(** When [mesh.entity_measure('cell')] is a single number (an array with
    no axis): on a [UniformMesh2d] it is repeated once per cell; on a mesh
    of any other type both assemblers raise [TypeError], at
    [len(cellmeasure)]. *)
Theorem measure_without_axis (table : gmap string (ndarray F)) (self : t F)
    (space : FunctionSpace F) (trialspace testspace coefspace : option (FunctionSpace F))
    (out : option ref) (h : store) :
  shape (mesh_entity_measure space) = [] →
  (mesh_meshtype space = "UniformMesh2d" →
   cell_measure space None
   = Ok (NDArray [mesh_number_of_cells space]
           (replicate (mesh_number_of_cells space) (get (mesh_entity_measure space) []))))
  ∧ (mesh_meshtype space ≠ "UniformMesh2d" →
     assembly_cell_matrix self space None out h = Raise TypeError
     ∧ assembly_cell_matrix_fast table self space trialspace testspace coefspace
         None out h = Raise TypeError).
Proof.
  intros Hshape. split.
  - intros Huniform. unfold cell_measure, broadcast_to.
    rewrite bool_decide_eq_true_2 by done. rewrite Hshape. cbn [broadcastable].
    unfold broadcastable. cbn [reverse broadcastable_rev rev_append].
    unfold build. rewrite indices_vector. f_equal. f_equal.
    rewrite <- list_fmap_compose.
    generalize 0 at 1. induction (mesh_number_of_cells space) as [|n IH]; intros s; [done|].
    cbn. f_equal. apply IH.
  - intros Hother.
    assert (cell_measure space None = Ok (mesh_entity_measure space)) as Hcm
      by (unfold cell_measure; by rewrite bool_decide_eq_false_2).
    assert (len (mesh_entity_measure space) = Raise TypeError) as Hlen
      by (unfold len; by rewrite Hshape).
    split.
    + destruct out as [out|].
      * rewrite assembly_cell_matrix_out, Hcm. cbv [mbind result_bind]. by rewrite Hlen.
      * rewrite assembly_cell_matrix_fresh, Hcm. cbv [mbind result_bind]. by rewrite Hlen.
    + destruct out as [out|].
      * rewrite assembly_cell_matrix_fast_out, Hcm. cbv [mbind result_bind].
        by rewrite Hlen.
      * rewrite assembly_cell_matrix_fast_fresh, Hcm. cbv [mbind result_bind].
        by rewrite Hlen.
Qed.

(** ** A scalar coefficient *)

Lemma einsum_blanks (s s' : string) (operands : list (ndarray F)) :
  strip s = strip s' → einsum s operands = einsum s' operands.
Proof. intros Hs. unfold einsum. by rewrite Hs. Qed.

(** With a scalar coefficient [c], [assembly_cell_matrix] adds to [out]
    [c] times the array it adds when no coefficient is given. *)
Theorem scalar_coefficient (q0 : option nat) (ty : string) (c : F)
    (space : FunctionSpace F) (cellmeasure : option (ndarray F))
    (h h1 : store) (out : ref) (a : ndarray F) (r : option ref) :
  h !! out = Some a →
  assembly_cell_matrix {| coef := CoefNone; q := q0; type := ty |}
    space cellmeasure (Some out) h = Ok (r, h1) →
  ∃ v b,
    broadcast_to v (shape a) = Ok b
    ∧ h1 = <[out := NDArray (shape a) (zip_with fadd (data a) (data b))]> h
    ∧ assembly_cell_matrix {| coef := Value (Number c); q := q0; type := ty |}
        space cellmeasure (Some out) h
      = (b' ← broadcast_to (scale c v) (shape a);
         Ok (None, <[out := NDArray (shape a) (zip_with fadd (data a) (data b'))]> h)).
Proof.
  intros Ha. rewrite !assembly_cell_matrix_out.
  destruct (cell_measure space cellmeasure) as [cm|]; [|done].
  cbv [mbind result_bind]. destruct (len cm) as [NC|]; [|done].
  unfold MassIncrement.standard. cbn [coef q evaluate mbind result_bind fmap result_fmap].
  rewrite (einsum_blanks "q, qci, qcj, c->cij" "q, qci, qcj, c -> cij") by reflexivity.
  destruct (einsum _ _) as [v|]; [|done].
  cbv [fmap result_fmap mbind result_bind].
  rewrite !(iadd_at_stored _ _ a) by done.
  destruct (broadcast_to v (shape a)) as [b|] eqn:Hb; [|done].
  cbv [mbind result_bind]. intros [= <- <-]. exists v, b. split_and!; [done..|].
  by destruct (broadcast_to (scale c v) (shape a)).
Qed.

End mass_calls.

(** ** The example space *)

Lemma assembly_out_twice_witness :
  [example_ones] !! 0 = Some example_ones
  ∧ ∃ r h1 h2,
      ScalarMassIntegrator.assembly_cell_matrix
        (ScalarMassIntegrator.init ScalarMassIntegrator.CoefNone None)
        example_space None (Some 0) [example_ones] = Ok (r, h1)
      ∧ ScalarMassIntegrator.assembly_cell_matrix
          (ScalarMassIntegrator.init ScalarMassIntegrator.CoefNone None)
          example_space None (Some 0) h1
        = Ok (None, h2).
Proof.
  split; [reflexivity|].
  destruct (ScalarMassIntegrator.assembly_cell_matrix
              (ScalarMassIntegrator.init ScalarMassIntegrator.CoefNone None)
              example_space None (Some 0) [example_ones]) as [[r h1]|e] eqn:Hfirst.
  - destruct (proj1 (assembly_out_twice example_data
                       (ScalarMassIntegrator.init ScalarMassIntegrator.CoefNone None)
                       example_space None None None None [example_ones] 0 example_ones
                       eq_refl) r h1 Hfirst) as (b & Hh1 & Hsecond).
    exists r, h1. eexists. split; [reflexivity|exact Hsecond].
  - vm_compute in Hfirst. discriminate Hfirst.
Defined.

Lemma fast_missing_key_witness :
  ScalarMassIntegrator.assembly_cell_matrix_fast ∅
    (ScalarMassIntegrator.init ScalarMassIntegrator.CoefNone None)
    example_space None None None None None [] = Raise KeyError.
Proof.
  apply (fast_missing_key ∅ (ScalarMassIntegrator.init ScalarMassIntegrator.CoefNone None)
           example_space None None None None None []
           (ScalarMassIntegrator.mesh_entity_measure example_space) 2);
    [reflexivity|reflexivity|by left|reflexivity].
Defined.

Lemma scalar_coefficient_witness :
  [example_ones] !! 0 = Some example_ones
  ∧ ∃ r h1 v b,
      ScalarMassIntegrator.assembly_cell_matrix
        {| ScalarMassIntegrator.coef := ScalarMassIntegrator.CoefNone;
           ScalarMassIntegrator.q := None; ScalarMassIntegrator.type := "BL3" |}
        example_space None (Some 0) [example_ones] = Ok (r, h1)
      ∧ Np.broadcast_to v [2; 2; 2] = Ok b
      ∧ ScalarMassIntegrator.assembly_cell_matrix
          {| ScalarMassIntegrator.coef :=
               ScalarMassIntegrator.Value (ScalarMassIntegrator.Number 5%Z);
             ScalarMassIntegrator.q := None; ScalarMassIntegrator.type := "BL3" |}
          example_space None (Some 0) [example_ones]
        = (b' ← Np.broadcast_to (Np.scale 5%Z v) [2; 2; 2];
           Ok (None, [Np.NDArray [2; 2; 2]
                        (zip_with Z.add [1; 1; 1; 1; 1; 1; 1; 1]%Z (Np.data b'))])).
Proof.
  split; [reflexivity|].
  destruct (ScalarMassIntegrator.assembly_cell_matrix
              {| ScalarMassIntegrator.coef := ScalarMassIntegrator.CoefNone;
                 ScalarMassIntegrator.q := None; ScalarMassIntegrator.type := "BL3" |}
              example_space None (Some 0) [example_ones]) as [[r h1]|e] eqn:Hfirst.
  - destruct (scalar_coefficient None "BL3" 5%Z example_space None [example_ones] h1 0
                example_ones r eq_refl Hfirst) as (v & b & Hb & _ & Hscaled).
    exists r, h1, v, b. split; [reflexivity|]. split; [exact Hb|exact Hscaled].
  - vm_compute in Hfirst. discriminate Hfirst.
Defined.

Lemma measure_without_axis_witness :
  Np.shape (ScalarMassIntegrator.mesh_entity_measure uniform_space) = []
  ∧ ScalarMassIntegrator.cell_measure uniform_space None = Ok (Np.NDArray [2] [3; 3]%Z).
Proof.
  split; [reflexivity|].
  exact (proj1 (measure_without_axis ∅
                  (ScalarMassIntegrator.init ScalarMassIntegrator.CoefNone None)
                  uniform_space None None None None [] eq_refl) eq_refl).
Defined.


(** * [set_dirichlet_bc]: what it writes *)

Section rows_assignment.
Context {F : Type} `{Scalar F}.
Import Np.

Lemma write_row_frame (v : list F) (j r w : nat) (ts : list nat) (d : list F) (q : nat) :
  let d' := foldl (fun d t => match v !! (j * w + t) with
                              | Some x => <[r * w + t := x]> d
                              | None => d
                              end) d ts in
  length d' = length d ∧ ((∀ t, t ∈ ts → q ≠ r * w + t) → d' !! q = d !! q).
Proof.
  cbv zeta. revert d. induction ts as [|t ts IH]; intros d; [done|].
  cbn [foldl]. destruct (IH (match v !! (j * w + t) with
                             | Some x => <[r * w + t := x]> d
                             | None => d
                             end)) as [Hlen Hq].
  split.
  - rewrite Hlen. destruct (v !! _); [apply length_insert|done].
  - intros Hne. rewrite Hq by (intros t' Ht'; apply Hne; by right).
    destruct (v !! _); [|done]. apply list_lookup_insert_ne.
    intros Heq. by apply (Hne t); [left|].
Qed.

Lemma write_rows_frame (v : list F) (w : nat) (jrs : list (nat * nat)) (d : list F)
    (q : nat) :
  let d' := foldl (fun d '(j, r) =>
                     foldl (fun d t => match v !! (j * w + t) with
                                       | Some x => <[r * w + t := x]> d
                                       | None => d
                                       end) d (seq 0 w)) d jrs in
  length d' = length d
  ∧ ((∀ j r t, (j, r) ∈ jrs → t < w → q ≠ r * w + t) → d' !! q = d !! q).
Proof.
  cbv zeta. revert d. induction jrs as [|[j r] jrs IH]; intros d; [done|].
  cbn [foldl].
  destruct (write_row_frame v j r w (seq 0 w) d q) as [Hlen1 Hq1].
  match goal with |- context [foldl _ ?d1 jrs] => destruct (IH d1) as [Hlen Hq] end.
  split; [by rewrite Hlen|].
  intros Hne. rewrite Hq by (intros j' r' t Hin Ht; eapply Hne; [by right|done]).
  apply Hq1. intros t Ht%elem_of_seq. eapply Hne; [by left|lia].
Qed.

(** An assignment to rows leaves the shape, and every entry that is in
    none of the rows named. *)
Lemma setitem_rows_frame (a a' : ndarray F) (ish : list nat) (idx : list Z)
    (v : ndarray F) (n : nat) (rest : list nat) :
  shape a = n :: rest →
  NpArray.setitem_rows a ish idx v = Ok a' →
  shape a' = shape a ∧ length (data a') = length (data a)
  ∧ ∀ q, (∀ i r t, i ∈ idx → index n i = Ok r → t < foldr Nat.mul 1 rest →
                   q ≠ r * foldr Nat.mul 1 rest + t) →
         data a' !! q = data a !! q.
Proof.
  unfold NpArray.setitem_rows. intros Hshape. rewrite Hshape.
  intros Hrun. apply bind_Ok in Hrun as (v' & _ & Hrun).
  apply bind_Ok in Hrun as (rows & Hrows & Hrun). injection Hrun as <-.
  cbn [shape data].
  match goal with
  | |- context [foldl ?f (data a) ?jrs] =>
      pose proof (fun q => write_rows_frame (data v') (foldr Nat.mul 1 rest) jrs (data a) q)
        as Hframe
  end.
  cbv zeta in Hframe. split; [done|]. split; [apply (Hframe 0)|].
  intros q Hne. apply Hframe. intros j r t Hin Ht.
  apply elem_of_lookup_imap in Hin as (j' & r' & [= -> ->] & Hr).
  assert (∃ i, idx !! j' = Some i ∧ index n i = Ok r') as (i & Hi & Hir).
  { clear -Hrows Hr. revert rows j' Hrows Hr.
    induction idx as [|i idx IH]; intros rows j' Hrows Hr.
    - injection Hrows as <-. done.
    - cbn in Hrows. apply bind_Ok in Hrows as (r0 & Hr0 & Hrows).
      apply bind_Ok in Hrows as (rows' & Hrows' & Hrows). injection Hrows as <-.
      destruct j' as [|j']; [injection Hr as <-; eauto|].
      destruct (IH _ _ Hrows' Hr) as (i' & ? & ?). eauto. }
  apply (Hne i r' t); [by eapply list_elem_of_lookup_2|done..].
Qed.

End rows_assignment.

Section dirichlet.
Context {F : Type} `{Scalar F} {Forcing : Type}.
Import Np ReducedDivFreeNonConformingVirtualElementSpace2d.
Variable call : string -> list (operand F Forcing) -> result (ndarray F).

(** [set_dirichlet_bc(gh, g)] writes [gh] only in the rows of the dofs
    of boundary edges: when the call returns, on a space whose dof manager
    is that of its mesh and degree, [gh] has the shape it had, and every
    entry of it that is not in a row [e*p + k], with [e] a boundary edge and
    [k < p], is the entry it was.  (A row of [gh] is [w] entries long, [w]
    the product of the lengths of the axes of [gh] after the first.) *)
Theorem set_dirichlet_bc_frame (self : t F) (gh gh' : ndarray F) (g : Forcing)
    (n : nat) (rest : list nat) :
  dof self = {| RDFNCVEMDof2d.p := p self; RDFNCVEMDof2d.mesh := mesh self |} →
  shape gh = n :: rest →
  set_dirichlet_bc call self gh g = Ok gh' →
  shape gh' = shape gh ∧ length (data gh') = length (data gh)
  ∧ ∀ q, (∀ e k t, boundary_edge_flag (mesh self) !! e = Some true → k < p self →
                   t < foldr Nat.mul 1 rest →
                   q ≠ (e * p self + k) * foldr Nat.mul 1 rest + t) →
         data gh' !! q = data gh !! q.
Proof.
  intros Hdof Hshape Hrun. unfold set_dirichlet_bc in Hrun. cbv zeta in Hrun.
  do 7 (apply bind_Ok in Hrun as (? & _ & Hrun)).
  apply bind_Ok in Hrun as (idx & Hidx & Hrun).
  destruct (setitem_rows_frame _ _ _ _ _ _ _ Hshape Hrun) as (Hsh & Hlen & Hframe).
  split; [done|]. split; [done|].
  intros q Hne. apply Hframe. intros i r t Hi Hr Ht.
  rewrite Hdof in Hidx. unfold NpInt.getitem_mask in Hidx.
  case_bool_decide as Hflags; [|done]. injection Hidx as <-.
  cbn [RDFNCVEMDof2d.mesh] in Hflags.
  assert (length (boundary_edge_flag (mesh self)) = number_of_edges (mesh self)) as Hfl
    by (rewrite Hflags; unfold RDFNCVEMDof2d.edge_to_dof;
        by rewrite length_map, length_seq).
  apply (boundary_rows_elem
           {| RDFNCVEMDof2d.p := p self; RDFNCVEMDof2d.mesh := mesh self |} Hfl)
    in Hi as (e & k & He & Hk & ->).
  cbn [RDFNCVEMDof2d.p RDFNCVEMDof2d.mesh] in *.
  unfold index in Hr. repeat case_bool_decide; try lia; try done.
  injection Hr as <-. rewrite Nat2Z.id. by apply Hne.
Qed.

End dirichlet.

Lemma set_dirichlet_bc_frame_witness :
  ∃ gh',
    ReducedDivFreeNonConformingVirtualElementSpace2d.set_dirichlet_bc Unit.call
      (Unit.space two_triangles 2) (Np.NDArray [10; 1] (replicate 10 0%Z)) tt = Ok gh'
    ∧ Np.data gh' !! 4 = Some 0%Z ∧ Np.data gh' !! 5 = Some 0%Z
    ∧ Np.data gh' !! 6 = Some 1%Z.
Proof.
  destruct (ReducedDivFreeNonConformingVirtualElementSpace2d.set_dirichlet_bc Unit.call
              (Unit.space two_triangles 2) (Np.NDArray [10; 1] (replicate 10 0%Z)) tt)
    as [gh'|e] eqn:Hrun.
  - exists gh'. split; [reflexivity|].
    destruct (set_dirichlet_bc_frame Unit.call (Unit.space two_triangles 2)
                (Np.NDArray [10; 1] (replicate 10 0%Z)) gh' tt 10 [1]
                eq_refl eq_refl Hrun) as (_ & _ & Hframe).
    split; [|split].
    + rewrite (Hframe 4); [reflexivity|].
      intros e k t He Hk Ht. cbn in *.
      destruct e as [|[|[|[|[|e]]]]]; cbn in He; try discriminate; lia.
    + rewrite (Hframe 5); [reflexivity|].
      intros e k t He Hk Ht. cbn in *.
      destruct e as [|[|[|[|[|e]]]]]; cbn in He; try discriminate; lia.
    + vm_compute in Hrun. injection Hrun as <-. reflexivity.
  - vm_compute in Hrun. discriminate Hrun.
Defined.


(** * [boundary_dof] of the dof manager, in closed form *)

Lemma bind_replicate_length {A} (l : list A) (p : nat) :
  length (l ≫= replicate p) = length l * p.
Proof.
  induction l as [|x l IH]; [done|]. cbn. rewrite length_app, length_replicate, IH. lia.
Qed.

Lemma bind_replicate_lookup {A} (l : list A) (p e k : nat) :
  k < p → (l ≫= replicate p) !! (e * p + k) = l !! e.
Proof.
  intros Hk. revert e. induction l as [|x l IH]; intros e; [done|].
  cbn [mbind list_bind]. destruct e as [|e].
  - cbn [Nat.mul Nat.add]. rewrite lookup_app_l by (rewrite length_replicate; lia).
    by apply lookup_replicate_2.
  - rewrite lookup_app_r by (rewrite length_replicate; lia).
    rewrite length_replicate. replace (S e * p + k - p) with (e * p + k) by lia.
    apply IH.
Qed.

Lemma count_true_repeat (l : list bool) (p : nat) :
  length (filter (fun b => b = true) (l ≫= replicate p))
  = p * length (filter (fun b => b = true) l).
Proof.
  induction l as [|b l IH]; [cbn; lia|].
  cbn [mbind list_bind]. rewrite filter_app, length_app, IH. destruct b.
  - rewrite (filter_cons_True _ true) by reflexivity. cbn [length].
    assert (filter (fun b => b = true) (replicate p true) = replicate p true) as ->.
    { clear IH. induction p as [|p IHp]; [done|]. cbn [replicate].
      rewrite filter_cons_True by reflexivity. by rewrite IHp. }
    rewrite length_replicate. lia.
  - rewrite (filter_cons_False _ false) by discriminate.
    assert (filter (fun b => b = true) (replicate p false) = []) as ->.
    { clear IH. induction p as [|p IHp]; [done|]. cbn [replicate].
      by rewrite filter_cons_False by discriminate. }
    cbn. lia.
Qed.

Section boundary_closed_form.
Import RDFNCVEMDof2d.

(** [boundary_dof()] of the dof manager is the array of boundary flags
    with every entry repeated [p] times, so that its number of [True]
    entries is [p] times the number of boundary edges; when the mesh gives
    a flag array that has not one entry per edge, the call raises
    [IndexError]. *)
Theorem boundary_dof_repeat (d : t) :
  boundary_dof d
  = (if bool_decide (length (boundary_edge_flag (mesh d)) = number_of_edges (mesh d))
     then Ok (boundary_edge_flag (mesh d) ≫= replicate (p d))
     else Raise IndexError)
  ∧ length (filter (fun b => b = true) (boundary_edge_flag (mesh d) ≫= replicate (p d)))
    = p d * length (filter (fun b => b = true) (boundary_edge_flag (mesh d))).
Proof.
  split; [|apply count_true_repeat].
  case_bool_decide as Hflags.
  - destruct (boundary_dof_ok d Hflags) as (mask & -> & Hlen & Hat). f_equal.
    apply list_eq. intros q.
    destruct (decide (q < number_of_edges (mesh d) * p d)) as [Hq|Hq].
    + assert (0 < p d) as Hp by nia.
      pose proof (Nat.div_mod_eq q (p d)) as Hdm.
      pose proof (Nat.mod_upper_bound q (p d)) as Hmod.
      assert (q `div` p d < number_of_edges (mesh d)) as Hdiv
        by (apply Nat.Div0.div_lt_upper_bound; lia).
      replace q with (q `div` p d * p d + q `mod` p d) by lia.
      rewrite Hat, bind_replicate_lookup by lia. done.
    + rewrite !lookup_ge_None_2; [done| |lia].
      rewrite bind_replicate_length, Hflags. lia.
  - unfold boundary_dof, NpInt.getitem_mask.
    rewrite bool_decide_eq_false_2; [done|].
    unfold edge_to_dof. by rewrite length_map, length_seq.
Qed.

End boundary_closed_form.


(** * A callable coefficient of unknown coordinate type *)

Section coordtype.
Context {F : Type} `{Scalar F}.
Import Np Store ScalarMassIntegrator.

(** A callable coefficient whose [coordtype] is neither ['cartesian'] nor
    ['barycentric'] is never called by [assembly_cell_matrix]: [coef] stays
    the callable object, and the call does what it does for that object
    given as a coefficient that is not callable.  So for an ordinary
    callable, which is neither a scalar nor an array, the call raises
    [ValueError], with [out] given or not. *)
Theorem unknown_coordtype (self : t F) (space : FunctionSpace F)
    (cellmeasure : option (ndarray F)) (out : option ref) (h : store)
    (coordtype : string) (itself : value F)
    (at_points at_bcs interpolated : result (value F)) :
  coef self = Callable (Some coordtype) itself at_points at_bcs interpolated →
  coordtype ≠ "cartesian" → coordtype ≠ "barycentric" →
  assembly_cell_matrix self space cellmeasure out h
  = assembly_cell_matrix {| coef := Value itself; q := q self; type := type self |}
      space cellmeasure out h
  ∧ (itself = Object →
     ∀ cm NC, cell_measure space cellmeasure = Ok cm → len cm = Ok NC →
     assembly_cell_matrix self space cellmeasure out h = Raise ValueError).
Proof.
  intros Hcoef Hcart Hbary.
  assert (assembly_cell_matrix self space cellmeasure out h
          = assembly_cell_matrix {| coef := Value itself; q := q self; type := type self |}
              space cellmeasure out h) as Heq.
  { unfold assembly_cell_matrix. rewrite Hcoef. cbn [coef q evaluate].
    by rewrite !bool_decide_eq_false_2 by done. }
  split; [exact Heq|]. intros -> cm NC Hcm Hlen. rewrite Heq.
  destruct out as [out|].
  - rewrite assembly_cell_matrix_out, Hcm. cbv [mbind result_bind]. by rewrite Hlen.
  - rewrite assembly_cell_matrix_fresh, Hcm. cbv [mbind result_bind alloc]. by rewrite Hlen.
Qed.

End coordtype.

Lemma unknown_coordtype_witness :
  ScalarMassIntegrator.assembly_cell_matrix
    (ScalarMassIntegrator.init
       (ScalarMassIntegrator.Callable (Some "polar") ScalarMassIntegrator.Object
          (Ok (ScalarMassIntegrator.Number 1%Z)) (Ok (ScalarMassIntegrator.Number 1%Z))
          (Ok (ScalarMassIntegrator.Number 1%Z))) None)
    example_space None None [] = Raise ValueError.
Proof.
  destruct (unknown_coordtype
              (ScalarMassIntegrator.init
                 (ScalarMassIntegrator.Callable (Some "polar") ScalarMassIntegrator.Object
                    (Ok (ScalarMassIntegrator.Number 1%Z))
                    (Ok (ScalarMassIntegrator.Number 1%Z))
                    (Ok (ScalarMassIntegrator.Number 1%Z))) None)
              example_space None None [] "polar" ScalarMassIntegrator.Object
              (Ok (ScalarMassIntegrator.Number 1%Z)) (Ok (ScalarMassIntegrator.Number 1%Z))
              (Ok (ScalarMassIntegrator.Number 1%Z))
              eq_refl ltac:(discriminate) ltac:(discriminate)) as [_ Hraise].
  apply (Hraise eq_refl (ScalarMassIntegrator.mesh_entity_measure example_space) 2);
    reflexivity.
Defined.

(** * A coefficient that is neither a number nor an array *)

Section object_coefficient.
Context {F : Type} `{Scalar F}.
Import Np Store ScalarMassIntegrator.

(** A coefficient that is not callable, not a scalar and not an array (a
    list, say) is refused by both assemblers, but not alike:
    [assembly_cell_matrix] raises [ValueError], and
    [assembly_cell_matrix_fast], which reads [coef.shape] without asking
    whether [coef] is an array, raises [AttributeError]. *)
Theorem object_coefficient (table : gmap string (ndarray F)) (self : t F)
    (space : FunctionSpace F) (trialspace testspace coefspace : option (FunctionSpace F))
    (cellmeasure : option (ndarray F)) (out : option ref) (h : store)
    (cm : ndarray F) (NC : nat) :
  cell_measure space cellmeasure = Ok cm →
  len cm = Ok NC →
  coef self = Value Object →
  assembly_cell_matrix self space cellmeasure out h = Raise ValueError
  ∧ assembly_cell_matrix_fast table self space trialspace testspace coefspace
      cellmeasure out h = Raise AttributeError.
Proof.
  intros Hcm Hlen Hcoef.
  assert (MassIncrement.standard self space cm NC = Raise ValueError) as Hstd
    by (unfold MassIncrement.standard; by rewrite Hcoef).
  assert (MassIncrement.fast table self space trialspace testspace coefspace cm NC
          = Raise AttributeError) as Hfast.
  { unfold MassIncrement.fast.
    destruct (MassIncrement.fast_spaces self space trialspace testspace coefspace)
      as [[[dataindex ?] ?] [[COFtype COFdegree] COFldof]]. by rewrite Hcoef. }
  split; destruct out as [out|].
  - rewrite assembly_cell_matrix_out, Hcm. cbv [mbind result_bind].
    by rewrite Hlen, Hstd.
  - rewrite assembly_cell_matrix_fresh, Hcm. cbv [mbind result_bind alloc].
    by rewrite Hlen, Hstd.
  - rewrite assembly_cell_matrix_fast_out, Hcm. cbv [mbind result_bind].
    by rewrite Hlen, Hfast.
  - rewrite assembly_cell_matrix_fast_fresh, Hcm. cbv [mbind result_bind alloc].
    rewrite Hlen.
    destruct (MassIncrement.fast_spaces self space trialspace testspace coefspace)
      as [[[dataindex ?] ?] ?]. by rewrite Hfast.
Qed.

End object_coefficient.

Lemma object_coefficient_witness :
  ScalarMassIntegrator.assembly_cell_matrix
    (ScalarMassIntegrator.init (ScalarMassIntegrator.Value ScalarMassIntegrator.Object) None)
    example_space None None [] = Raise ValueError
  ∧ ScalarMassIntegrator.assembly_cell_matrix_fast example_data
      (ScalarMassIntegrator.init (ScalarMassIntegrator.Value ScalarMassIntegrator.Object) None)
      example_space None None None None None [] = Raise AttributeError.
Proof.
  apply (object_coefficient example_data
           (ScalarMassIntegrator.init
              (ScalarMassIntegrator.Value ScalarMassIntegrator.Object) None)
           example_space None None None None None []
           (ScalarMassIntegrator.mesh_entity_measure example_space) 2);
    reflexivity.
Defined.

(** * [project] and [project_to_smspace]: where the edge moments go *)

Section array_positions.
Context {F : Type} `{Scalar F}.
Import Np.

Lemma length_indices (sh : list nat) : length (indices sh) = foldr Nat.mul 1 sh.
Proof.
  induction sh as [|n sh IH]; [done|]. cbn [indices foldr].
  rewrite <- IH. clear IH. generalize 0 at 1. induction n as [|n IHn]; intros s; [done|].
  cbn [seq]. rewrite bind_cons, length_app, length_fmap, IHn. lia.
Qed.

Lemma lookup_bind_block {A B} (f : A → list B) (l : list A) (m i r : nat) :
  (∀ x, length (f x) = m) → r < m →
  (l ≫= f) !! (i * m + r) = l !! i ≫= λ x, f x !! r.
Proof.
  intros Hlen Hr. revert i. induction l as [|x l IH]; intros i; [done|].
  rewrite bind_cons. destruct i as [|i].
  - cbn. rewrite lookup_app_l by (rewrite Hlen; lia). done.
  - rewrite lookup_app_r by (rewrite Hlen; lia). rewrite Hlen.
    replace (S i * m + r - m) with (i * m + r) by lia. apply IH.
Qed.

Lemma ravel_lt (sh idx : list nat) :
  Forall2 lt idx sh → ravel sh idx < foldr Nat.mul 1 sh.
Proof.
  intros Hlt. induction Hlt as [|i n idx sh Hi _ IH]; [cbn; lia|].
  cbn [ravel foldr]. nia.
Qed.

Lemma indices_lookup (sh idx : list nat) :
  Forall2 lt idx sh → indices sh !! ravel sh idx = Some idx.
Proof.
  intros Hlt. induction Hlt as [|i n idx sh Hi Hlt IH]; [done|].
  cbn [indices ravel].
  rewrite (lookup_bind_block _ _ (foldr Nat.mul 1 sh))
    by (try (intros; rewrite length_fmap; apply length_indices); by apply ravel_lt).
  rewrite lookup_seq_lt by done. cbn. by rewrite list_lookup_fmap, IH.
Qed.

Lemma get_build (sh idx : list nat) (f : list nat → F) :
  Forall2 lt idx sh → get (build sh f) idx = f idx.
Proof.
  intros Hlt. unfold get, build. cbn [shape data].
  by rewrite list_lookup_fmap, indices_lookup.
Qed.

Lemma length_build (sh : list nat) (f : list nat → F) :
  length (data (build sh f)) = foldr Nat.mul 1 sh.
Proof. unfold build. cbn. by rewrite length_fmap, length_indices. Qed.

Lemma get_vector (a : ndarray F) (n j : nat) :
  shape a = [n] → get a [j] = default fzero (data a !! j).
Proof. intros Ha. unfold get. rewrite Ha. cbn. do 2 f_equal. lia. Qed.

(** [a.T.flat] has the entry [idx] of [a] at the position of the
    reversed index in the reversed shape. *)
Lemma get_flat_transpose (a : ndarray F) (idx : list nat) :
  Forall2 lt idx (shape a) →
  get (NpArray.flat (NpArray.transpose a)) [ravel (reverse (shape a)) (reverse idx)]
  = get a idx.
Proof.
  intros Hlt. rewrite (get_vector _ (length (data (NpArray.transpose a)))) by done.
  cbn [NpArray.flat NpArray.transpose data build].
  rewrite list_lookup_fmap, indices_lookup by by apply Forall2_reverse.
  cbn. by rewrite reverse_involutive.
Qed.

(** The value of an assignment that has the shape of its target. *)
Lemma assign_value_same (v : ndarray F) (n : nat) :
  shape v = [n] →
  ∃ v', NpArray.assign_value v [n] = Ok v' ∧ shape v' = [n]
        ∧ length (data v') = n ∧ ∀ j, j < n → data v' !! j = Some (get v [j]).
Proof.
  intros Hv. unfold NpArray.assign_value, ndim. rewrite Hv. cbn [length Nat.sub NpArray.strip_ones].
  unfold broadcast_to, broadcastable. cbn [shape reverse rev_append broadcastable_rev].
  rewrite (bool_decide_eq_true_2 (n = n)) by done. cbn [orb andb].
  eexists. split; [reflexivity|]. split; [done|]. split.
  - rewrite length_build. cbn. lia.
  - intros j Hj. cbn [build data]. rewrite list_lookup_fmap.
    replace j with (ravel [n] [j]) at 1 by (cbn; lia).
    rewrite indices_lookup by (constructor; [done|]; constructor). cbn. f_equal.
    unfold get, broadcast_index. cbn [shape data length Nat.sub drop zip_with ravel foldr].
    rewrite Hv. cbn [ravel foldr]. case_bool_decide; [|done]. by replace j with 0 by lia.
Qed.

End array_positions.

Section vectors.
Context {F : Type} `{Scalar F}.
Import Np.

Lemma setitem_slice_vector (a v : ndarray F) (n m : nat) :
  shape a = [n] → shape v = [m] → m ≤ n →
  ∃ a', NpArray.setitem_slice a 0 (Z.of_nat m) v = Ok a' ∧ shape a' = [n]
        ∧ ∀ j, j < m → get a' [j] = get v [j].
Proof.
  intros Ha Hv Hm. unfold NpArray.setitem_slice. rewrite Ha.
  assert (clamp n 0 = 0) as -> by (unfold clamp; rewrite bool_decide_eq_false_2; lia).
  assert (clamp n (Z.of_nat m) = m) as ->
    by (unfold clamp; rewrite bool_decide_eq_false_2; lia).
  rewrite Nat.sub_0_r.
  destruct (assign_value_same v m Hv) as (v' & -> & _ & Hlen & Hget).
  cbn [mbind result_bind foldr Nat.mul take app]. eexists. split; [reflexivity|].
  split; [done|]. intros j Hj.
  rewrite (get_vector _ n) by done. cbn [data].
  rewrite take_0. cbn [app]. by rewrite lookup_app_l, Hget by lia.
Qed.

Lemma map_list_index (n : nat) (idx : list Z) :
  Forall (fun d => 0 ≤ d < Z.of_nat n)%Z idx →
  map_list (index n) idx = Ok (Z.to_nat <$> idx).
Proof.
  induction 1 as [|d idx Hd _ IH]; [done|]. cbn [map_list].
  assert (index n d = Ok (Z.to_nat d)) as ->
    by (unfold index; by rewrite bool_decide_eq_true_2).
  cbn [mbind result_bind]. by rewrite IH.
Qed.

Lemma take_rows_vector (a : ndarray F) (n : nat) (idx : list Z) :
  shape a = [n] → Forall (fun d => 0 ≤ d < Z.of_nat n)%Z idx →
  ∃ x, NpArray.take_rows a idx = Ok x ∧ shape x = [length idx]
       ∧ length (data x) = length idx
       ∧ ∀ j d, idx !! j = Some d → data x !! j = Some (get a [Z.to_nat d]).
Proof.
  intros Ha Hidx. unfold NpArray.take_rows. rewrite Ha, (map_list_index n idx Hidx).
  cbn [mbind result_bind]. eexists. split; [reflexivity|].
  rewrite length_fmap. split; [done|]. split; [rewrite length_build; cbn; lia|].
  intros j d Hd. cbn [build data]. rewrite list_lookup_fmap.
  assert (j < length idx) by (by eapply lookup_lt_Some).
  replace j with (ravel [length idx] [j]) at 1 by (cbn; lia).
  rewrite indices_lookup by (constructor; [done|]; constructor). cbn.
  by rewrite list_lookup_fmap, Hd.
Qed.

Lemma r__vectors (x0 x1 x2 : ndarray F) (n0 n1 n2 : nat) :
  shape x0 = [n0] → shape x1 = [n1] → shape x2 = [n2] →
  NpArray.r_ [x0; x1; x2]
  = Ok (NDArray [n0 + (n1 + (n2 + 0))] (data x0 ++ data x1 ++ data x2 ++ [])).
Proof.
  intros H0 H1 H2. destruct x0, x1, x2. cbn [shape] in *. subst.
  unfold NpArray.r_. cbn. by rewrite !bool_decide_eq_true_2.
Qed.

End vectors.

Section projection.
Context {F : Type} `{Scalar F} {Forcing : Type}.
Import Np ReducedDivFreeNonConformingVirtualElementSpace2d.
Variable call : string -> list (operand F Forcing) -> result (ndarray F).

(** C2.  [project] and [project_to_smspace] do not number the edge dofs
    alike.  Let the new function [uh] have one axis, long enough for the
    edge dofs, and the edge moments [uh0] the shape (NE, p, 2).  For
    [p > 2], [project] raises [AttributeError].  For [p <= 2] it returns
    [uh] with component [c] of the moment of edge [e] and basis function
    [k] at position [c*p*NE + k*NE + e].  From this array, [f(i)] of
    [project_to_smspace] takes for every dof [d] of the cell (a number of
    [self.dof.cell2dof], below [NE*p]) the entries [d] and [d + NE*p]: they
    are the two components of the moment of edge [d mod NE] and basis
    function [d div NE]. *)
Theorem project_dof_order (self : t F) (u : Forcing) (uh h uh0 : ndarray F) (n : nat) :
  function call self = Ok uh →
  shape uh = [n] →
  2 * number_of_edges (mesh self) * p self ≤ n →
  call "self.mesh.entity_measure('edge')" [] = Ok h →
  call "self.integralalg.edge_integral(u0, edgetype=True)/h[:, None, None]"
    [Fun u; Int (Z.of_nat (p self)); Arr h] = Ok uh0 →
  shape uh0 = [number_of_edges (mesh self); p self; 2] →
  (2 < p self → project call self u = Raise AttributeError)
  ∧ (p self ≤ 2 →
     ∃ uh', project call self u = Ok uh' ∧ shape uh' = [n]
       ∧ (∀ e k c, e < number_of_edges (mesh self) → k < p self → c < 2 →
            get uh' [c * (p self * number_of_edges (mesh self))
                     + k * number_of_edges (mesh self) + e]
            = get uh0 [e; k; c])
       ∧ (∀ i lo hi,
            getitem (cell2dofLocation self) i = Ok lo →
            getitem (cell2dofLocation self) (i + 1) = Ok hi →
            Forall (fun d => 0 ≤ d < Z.of_nat (number_of_edges (mesh self) * p self))%Z
                   (slice (cell2dof self) lo hi) →
            ∃ x, cell_vector self uh' i = Ok x
              ∧ ∀ j d, slice (cell2dof self) lo hi !! j = Some d →
                  get x [j]
                  = get uh0 [Z.to_nat d mod number_of_edges (mesh self);
                             Z.to_nat d / number_of_edges (mesh self); 0]
                  ∧ get x [length (slice (cell2dof self) lo hi) + j]
                    = get uh0 [Z.to_nat d mod number_of_edges (mesh self);
                               Z.to_nat d / number_of_edges (mesh self); 1])).
Proof.
  intros Hfun Huh Hn Hh Huh0 Hs0.
  set (NE := number_of_edges (mesh self)) in *. set (p0 := p self) in *.
  set (v := NpArray.flat (NpArray.transpose uh0)).
  assert (shape v = [2 * (p0 * NE)]) as Hv.
  { unfold v, NpArray.flat, NpArray.transpose. cbn [shape].
    rewrite length_build, Hs0. cbn. f_equal. lia. }
  destruct (setitem_slice_vector uh v n (2 * (p0 * NE)) Huh Hv ltac:(lia))
    as (uh' & Hset & Hsh' & Hget).
  replace (Z.of_nat (2 * (p0 * NE))) with (2 * Z.of_nat NE * Z.of_nat p0)%Z in Hset by lia.
  assert (∀ e k c, e < NE → k < p0 → c < 2 →
            get uh' [c * (p0 * NE) + k * NE + e] = get uh0 [e; k; c]) as Hpos.
  { intros e k c He Hk Hc. rewrite Hget by nia.
    rewrite <- (get_flat_transpose uh0 [e; k; c])
      by (rewrite Hs0; constructor; [done|]; constructor; [done|];
          constructor; [done|]; constructor).
    unfold v. do 2 f_equal. rewrite Hs0. cbn. lia. }
  assert (project call self u
          = if bool_decide (Z.of_nat p0 > 2)%Z
            then _ ← getattr attributes "index1"; Raise AttributeError
            else Ok uh') as Hrun.
  { unfold project. fold NE p0. cbv zeta. rewrite Hfun. cbn [mbind result_bind].
    rewrite Hh. cbn [mbind result_bind]. rewrite Huh0. cbn [mbind result_bind].
    fold v. rewrite Hset. cbn [mbind result_bind]. by case_bool_decide. }
  split.
  - intros Hp. rewrite Hrun, bool_decide_eq_true_2 by lia. reflexivity.
  - intros Hp. exists uh'. rewrite Hrun, bool_decide_eq_false_2 by lia.
    split; [done|]. split; [done|]. split; [exact Hpos|].
    intros i lo hi Hlo Hhi Hidx. set (idx := slice (cell2dof self) lo hi) in *.
    destruct (take_rows_vector uh' n idx Hsh') as (x0 & Hx0 & Hs0' & Hl0 & Hg0).
    { eapply Forall_impl; [exact Hidx|]. cbn. lia. }
    destruct (take_rows_vector uh' n ((λ d, d + Z.of_nat NE * Z.of_nat p0)%Z <$> idx) Hsh')
      as (x1 & Hx1 & Hs1' & Hl1 & Hg1).
    { apply Forall_fmap. eapply Forall_impl; [exact Hidx|]. cbn. lia. }
    rewrite length_fmap in Hs1', Hl1.
    assert (∃ x2 k, (x2 ← NpArray.zeros [((Z.of_nat p0 - 2) * (Z.of_nat p0 - 1)) `div` 2]%Z;
                     if bool_decide (Z.of_nat p0 > 2)%Z
                     then
                       v ← NpArray.getitem_slice uh'
                             (2 * Z.of_nat NE * Z.of_nat p0
                              + i * (((Z.of_nat p0 - 2) * (Z.of_nat p0 - 1)) `div` 2))
                             (2 * Z.of_nat NE * Z.of_nat p0
                              + i * (((Z.of_nat p0 - 2) * (Z.of_nat p0 - 1)) `div` 2)
                              + ((Z.of_nat p0 - 2) * (Z.of_nat p0 - 1)) `div` 2);
                       NpArray.setitem_slice x2 0
                         (((Z.of_nat p0 - 2) * (Z.of_nat p0 - 1)) `div` 2) v
                     else Ok x2) = Ok x2 ∧ shape x2 = [k])%Z as (x2 & k & Hx2 & Hs2).
    { rewrite bool_decide_eq_false_2 by lia.
      assert (p0 = 0 ∨ p0 = 1 ∨ p0 = 2) as [->|[->| ->]] by lia; by eexists _, _. }
    exists (NDArray [length idx + (length idx + (k + 0))]
              (data x0 ++ data x1 ++ data x2 ++ [])).
    split.
    { unfold cell_vector. fold NE p0 idx. cbv zeta. rewrite Hlo. cbn [mbind result_bind].
      rewrite Hhi. cbn [mbind result_bind]. fold idx. rewrite Hx0. cbn [mbind result_bind].
      rewrite Hx1. cbn [mbind result_bind].
      destruct (NpArray.zeros _) as [z|]; [|done]. cbn [mbind result_bind] in *.
      rewrite Hx2. cbn [mbind result_bind]. by apply r__vectors. }
    intros j d Hd.
    assert (j < length idx) as Hj by (by eapply lookup_lt_Some).
    assert (0 ≤ d < Z.of_nat (NE * p0))%Z as Hdr
      by (by eapply (proj1 (Forall_lookup _ _) Hidx)).
    assert (0 < NE) as HNE by nia.
    assert (Z.to_nat d `mod` NE < NE) as He by (apply Nat.mod_upper_bound; lia).
    assert (Z.to_nat d / NE < p0) as Hk by (apply Nat.Div0.div_lt_upper_bound; lia).
    pose proof (Nat.div_mod_eq (Z.to_nat d) NE) as Hdm.
    rewrite !(get_vector _ (length idx + (length idx + (k + 0)))) by done. cbn [data].
    split.
    + rewrite lookup_app_l, (Hg0 j d Hd) by lia. cbn.
      rewrite <- (Hpos _ _ 0) by (done || lia). do 2 f_equal. lia.
    + rewrite lookup_app_r, Hl0 by lia.
      replace (length idx + j - length idx) with j by lia.
      rewrite lookup_app_l by lia.
      rewrite (Hg1 j (d + Z.of_nat NE * Z.of_nat p0)%Z)
        by (by rewrite list_lookup_fmap, Hd).
      cbn. rewrite <- (Hpos _ _ 1) by (done || lia). do 2 f_equal. lia.
Qed.

End projection.

(** [project_dof_order] on the single triangle with [p = 2] and the edge
    moments 1 to 12: dof 1 is basis function 1 of edge 0, whose moment has
    the components 3 and 4; [project] stores at position 1 the number 5, and
    [f(0)] of [project_to_smspace] reads for dof 1 the numbers 5 and 6, the
    components of the moment of edge 1 and basis function 0. *)
Lemma project_dof_order_witness :
  RDFNCVEMDof2d.edge_to_dof
    (ReducedDivFreeNonConformingVirtualElementSpace2d.dof (Unit.space one_triangle 2))
  = [[0; 1]; [2; 3]; [4; 5]]%Z
  ∧ ∃ uh',
      ReducedDivFreeNonConformingVirtualElementSpace2d.project Moments.call
        (Unit.space one_triangle 2) tt = Ok uh'
      ∧ Np.get uh' [1] = 5%Z
      ∧ ∃ x,
          ReducedDivFreeNonConformingVirtualElementSpace2d.cell_vector
            (Unit.space one_triangle 2) uh' 0 = Ok x
          ∧ Np.get x [1] = 5%Z ∧ Np.get x [7] = 6%Z.
Proof.
  split; [reflexivity|].
  destruct (project_dof_order Moments.call (Unit.space one_triangle 2) tt
              (Np.zeros [12]) (Np.NDArray [1; 1; 1] [1%Z])
              (Np.NDArray [3; 2; 2] [1; 2; 3; 4; 5; 6; 7; 8; 9; 10; 11; 12]%Z) 12
              eq_refl eq_refl ltac:(cbn; lia) eq_refl eq_refl eq_refl)
    as [_ Hlow].
  destruct (Hlow ltac:(cbn; lia)) as (uh' & Hrun & _ & Hpos & Hread).
  exists uh'. split; [exact Hrun|]. split; [exact (Hpos 1 0 0 ltac:(cbn; lia) ltac:(cbn; lia) ltac:(lia))|].
  destruct (Hread 0%Z 0%Z 6%Z eq_refl eq_refl) as (x & Hx & Hget).
  { vm_compute. repeat constructor; discriminate. }
  exists x. split; [exact Hx|]. exact (Hget 1 1%Z eq_refl).
Defined.
